(** * Media catalog synchronisation and admin mutations

    A shallow embedding of the media-catalog workflow of the portfolio site:
    the gallery fetchers (VideosPageGallery, WorkPageGallery), and the two
    AdminMediaManager components kept in the repository (upload, external
    link, edit and delete handlers).  The hosted table [website_media] and
    the storage bucket [media] are explicit state; every remote call takes
    the reply of the service as an argument.  Also embedded are the link
    helpers of the gallery and of the video modal (the ids of YouTube and
    Vimeo links, read off by regular expressions), the purchase inquiry
    form and the contact form. *)

From stdpp Require Import base strings list gmap pretty sorting.
From Stdlib Require Import ZArith NArith Ascii Lia.

Open Scope string_scope.

(** ** JavaScript strings

    A text is held as the bytes of its UTF-8 encoding, while JavaScript
    reads it as a sequence of UTF-16 code units.  [units] cuts the bytes
    into the pieces that are one code unit each: a character of one, two or
    three bytes is one unit, and a character of four bytes is a surrogate
    pair, two units, held here as its first two and its last two bytes.  A
    byte that is not part of a well-formed character is a unit of its own.
    [join] puts the pieces together again. *)

Definition is_continuation (c : ascii) : bool :=
  let n := nat_of_ascii c in (Nat.leb 128 n && Nat.leb n 191)%bool.

Definition is_lead2 (c : ascii) : bool :=
  let n := nat_of_ascii c in (Nat.leb 192 n && Nat.leb n 223)%bool.

Definition is_lead3 (c : ascii) : bool :=
  let n := nat_of_ascii c in (Nat.leb 224 n && Nat.leb n 239)%bool.

Definition is_lead4 (c : ascii) : bool :=
  Nat.leb 240 (nat_of_ascii c).

Fixpoint units (s : string) : list string :=
  match s with
  | EmptyString => []
  | String a s1 =>
      match s1 with
      | String b s2 =>
          if (is_lead2 a && is_continuation b)%bool then
            String a (String b "") :: units s2
          else
            match s2 with
            | String c s3 =>
                if (is_lead3 a && is_continuation b && is_continuation c)%bool then
                  String a (String b (String c "")) :: units s3
                else
                  match s3 with
                  | String d s4 =>
                      if (is_lead4 a && is_continuation b && is_continuation c
                          && is_continuation d)%bool then
                        String a (String b "") :: String c (String d "") :: units s4
                      else String a "" :: units s1
                  | EmptyString => String a "" :: units s1
                  end
            | EmptyString => String a "" :: units s1
            end
      | EmptyString => [String a ""]
      end
  end.

Definition join (l : list string) : string := foldr String.append "" l.

(** The text of the given bytes. *)
Definition bytes (l : list nat) : string :=
  foldr (fun n s => String (ascii_of_nat n) s) "" l.

(** [xs.includes(x)] *)
Definition includes (xs : list string) (x : string) : bool :=
  existsb (String.eqb x) xs.

(** What [trim] removes and [\s] matches, the white space and the line
    terminators of the language: TAB, LF, VT, FF, CR, the space, U+00A0,
    U+1680, U+2000 to U+200A, U+2028, U+2029, U+202F, U+205F, U+3000 and
    U+FEFF. *)
Definition whitespace : list string :=
  [ bytes [9]; bytes [10]; bytes [11]; bytes [12]; bytes [13]; bytes [32];
    bytes [194; 160]; bytes [225; 154; 128];
    bytes [226; 128; 128]; bytes [226; 128; 129]; bytes [226; 128; 130];
    bytes [226; 128; 131]; bytes [226; 128; 132]; bytes [226; 128; 133];
    bytes [226; 128; 134]; bytes [226; 128; 135]; bytes [226; 128; 136];
    bytes [226; 128; 137]; bytes [226; 128; 138];
    bytes [226; 128; 168]; bytes [226; 128; 169]; bytes [226; 128; 175];
    bytes [226; 129; 159]; bytes [227; 128; 128]; bytes [239; 187; 191] ].

Definition is_space (u : string) : bool := includes whitespace u.

Fixpoint trimStart (l : list string) : list string :=
  match l with
  | [] => []
  | u :: l' => if is_space u then trimStart l' else l
  end.

Fixpoint trimEnd (l : list string) : list string :=
  match l with
  | [] => []
  | u :: l' =>
      match trimEnd l' with
      | [] => if is_space u then [] else [u]
      | t => u :: t
      end
  end.

(** [s.trim()] *)
Definition trim (s : string) : string := join (trimEnd (trimStart (units s))).

Definition lower_ascii (c : ascii) : ascii :=
  let n := nat_of_ascii c in
  if (Nat.leb 65 n && Nat.leb n 90)%bool then ascii_of_nat (n + 32) else c.

(** [s.toLowerCase()] on the letters A to Z; the program compares the
    result with suffixes of ASCII letters only. *)
Fixpoint toLowerCase (s : string) : string :=
  match s with
  | EmptyString => EmptyString
  | String c s' => String (lower_ascii c) (toLowerCase s')
  end.

(** [s.endsWith(suffix)], on the bytes: a text ends with the code units of
    a suffix exactly when it ends with its bytes. *)
Definition endsWith (s suffix : string) : bool :=
  let n := String.length s in
  let k := String.length suffix in
  (Nat.leb k n && String.eqb (String.substring (n - k) k s) suffix)%bool.

(** A class of ASCII characters as a test on one code unit. *)
Definition in_class (p : ascii -> bool) (u : string) : bool :=
  match u with
  | String c EmptyString => p c
  | _ => false
  end.

(** The character class [a-zA-Z0-9.-] of the file-name sanitiser. *)
Definition is_safe_char (c : ascii) : bool :=
  let n := nat_of_ascii c in
  ((Nat.leb 97 n && Nat.leb n 122) || (Nat.leb 65 n && Nat.leb n 90)
   || (Nat.leb 48 n && Nat.leb n 57) || Nat.eqb n 46 || Nat.eqb n 45)%bool.

(** [name.replace(/[^a-zA-Z0-9.-]/g, '_')]: every code unit outside the
    class becomes one underscore. *)
Definition sanitize (s : string) : string :=
  join (map (fun u => if in_class is_safe_char u then u else "_") (units s)).

(** [a || b] on strings: the empty string is falsy. *)
Definition or_else (a b : string) : string :=
  if String.eqb a "" then b else a.

(** [a || b] where [a] may be [undefined] or [null]. *)
Definition opt_or_else (a : option string) (b : string) : string :=
  match a with
  | Some s => or_else s b
  | None => b
  end.

(** ** Data model: a row of [website_media] *)

Inductive MediaType := artwork | video.

Global Instance MediaType_eq_dec : EqDecision MediaType :=
  ltac:(solve_decision).

Definition mediatype_text (m : MediaType) : string :=
  match m with
  | artwork => "artwork"
  | video => "video"
  end.

Record MediaItem := mkMediaItem {
  id : nat;
  name : string;
  url : string;
  type : string;
  created_at : Z;
  title : option string;
  description : option string;
  type_detail : option string;
  mediatype : MediaType;
  isexternallink : option bool;
  storagepath : option string;
  video_thumbnail_url : option string;
  video_thumbnail_path : option string
}.

(** A browser [File]: name, MIME type and size in bytes. *)
Record File := mkFile {
  fname : string;
  ftype : string;
  fsize : N
}.

(** ** JSON documents sent to the table

    An object literal is a list of key/value pairs, in the order in which
    the keys were written. *)

Inductive Json :=
| JNull
| JString (s : string)
| JBool (b : bool).

Definition Doc := list (string * Json).

Definition keys (d : Doc) : list string := map fst d.

Fixpoint doc_get (k : string) (d : Doc) : option Json :=
  match d with
  | [] => None
  | (k', v) :: d' => if String.eqb k k' then Some v else doc_get k d'
  end.

(** [null] for a JavaScript [null], the string otherwise. *)
Definition json_opt (o : option string) : Json :=
  match o with
  | Some s => JString s
  | None => JNull
  end.

(** ** The catalog store: table [website_media]

    Column defaults and constraints are those of the migrations: [name],
    [url], [type] and [mediatype] are NOT NULL, [mediatype] is checked to be
    'artwork' or 'video', [title], [description] and [type_detail] default
    to the empty string, [isexternallink] to false, and [storagepath],
    [video_thumbnail_url] and [video_thumbnail_path] to NULL.  [id] and
    [created_at] are assigned by the table on insert. *)

Definition blank_row (i : nat) (now : Z) : MediaItem :=
  {| id := i; name := ""; url := ""; type := ""; created_at := now;
     title := Some ""; description := Some ""; type_detail := Some "";
     mediatype := artwork; isexternallink := Some false;
     storagepath := None; video_thumbnail_url := None;
     video_thumbnail_path := None |}.

Definition parse_mediatype (s : string) : option MediaType :=
  if String.eqb s "artwork" then Some artwork
  else if String.eqb s "video" then Some video
  else None.

(** A text value for a nullable text column. *)
Definition as_text (v : Json) : option (option string) :=
  match v with
  | JNull => Some None
  | JString s => Some (Some s)
  | JBool _ => None
  end.

(** A value for a NOT NULL text column. *)
Definition as_required_text (v : Json) : option string :=
  match v with
  | JString s => Some s
  | _ => None
  end.

Definition as_boolean (v : Json) : option (option bool) :=
  match v with
  | JNull => Some None
  | JBool b => Some (Some b)
  | JString _ => None
  end.

(** Writing one column of a row; [None] when the table rejects the value
    or has no such writable column. *)
Definition set_col (r : MediaItem) (kv : string * Json) : option MediaItem :=
  let '(k, v) := kv in
  if String.eqb k "name" then
    s ← as_required_text v;
    Some (mkMediaItem (id r) s (url r) (type r) (created_at r) (title r)
            (description r) (type_detail r) (mediatype r) (isexternallink r)
            (storagepath r) (video_thumbnail_url r) (video_thumbnail_path r))
  else if String.eqb k "url" then
    s ← as_required_text v;
    Some (mkMediaItem (id r) (name r) s (type r) (created_at r) (title r)
            (description r) (type_detail r) (mediatype r) (isexternallink r)
            (storagepath r) (video_thumbnail_url r) (video_thumbnail_path r))
  else if String.eqb k "type" then
    s ← as_required_text v;
    Some (mkMediaItem (id r) (name r) (url r) s (created_at r) (title r)
            (description r) (type_detail r) (mediatype r) (isexternallink r)
            (storagepath r) (video_thumbnail_url r) (video_thumbnail_path r))
  else if String.eqb k "title" then
    o ← as_text v;
    Some (mkMediaItem (id r) (name r) (url r) (type r) (created_at r) o
            (description r) (type_detail r) (mediatype r) (isexternallink r)
            (storagepath r) (video_thumbnail_url r) (video_thumbnail_path r))
  else if String.eqb k "description" then
    o ← as_text v;
    Some (mkMediaItem (id r) (name r) (url r) (type r) (created_at r) (title r)
            o (type_detail r) (mediatype r) (isexternallink r)
            (storagepath r) (video_thumbnail_url r) (video_thumbnail_path r))
  else if String.eqb k "type_detail" then
    o ← as_text v;
    Some (mkMediaItem (id r) (name r) (url r) (type r) (created_at r) (title r)
            (description r) o (mediatype r) (isexternallink r)
            (storagepath r) (video_thumbnail_url r) (video_thumbnail_path r))
  else if String.eqb k "mediatype" then
    s ← as_required_text v;
    m ← parse_mediatype s;
    Some (mkMediaItem (id r) (name r) (url r) (type r) (created_at r) (title r)
            (description r) (type_detail r) m (isexternallink r)
            (storagepath r) (video_thumbnail_url r) (video_thumbnail_path r))
  else if String.eqb k "isexternallink" then
    b ← as_boolean v;
    Some (mkMediaItem (id r) (name r) (url r) (type r) (created_at r) (title r)
            (description r) (type_detail r) (mediatype r) b
            (storagepath r) (video_thumbnail_url r) (video_thumbnail_path r))
  else if String.eqb k "storagepath" then
    o ← as_text v;
    Some (mkMediaItem (id r) (name r) (url r) (type r) (created_at r) (title r)
            (description r) (type_detail r) (mediatype r) (isexternallink r)
            o (video_thumbnail_url r) (video_thumbnail_path r))
  else if String.eqb k "video_thumbnail_url" then
    o ← as_text v;
    Some (mkMediaItem (id r) (name r) (url r) (type r) (created_at r) (title r)
            (description r) (type_detail r) (mediatype r) (isexternallink r)
            (storagepath r) o (video_thumbnail_path r))
  else if String.eqb k "video_thumbnail_path" then
    o ← as_text v;
    Some (mkMediaItem (id r) (name r) (url r) (type r) (created_at r) (title r)
            (description r) (type_detail r) (mediatype r) (isexternallink r)
            (storagepath r) (video_thumbnail_url r) o)
  else None.

(** Writing all the fields of a document, in order. *)
Fixpoint apply_doc (d : Doc) (r : MediaItem) : option MediaItem :=
  match d with
  | [] => Some r
  | kv :: d' => r' ← set_col r kv; apply_doc d' r'
  end.

Definition has_key (k : string) (d : Doc) : bool :=
  match doc_get k d with
  | Some _ => true
  | None => false
  end.

(** The NOT NULL columns without a default must be given on insert. *)
Definition required_present (d : Doc) : bool :=
  (has_key "name" d && has_key "url" d && has_key "type" d
   && has_key "mediatype" d)%bool.

(** [insert([doc])]: the new row, or [None] when a constraint fails. *)
Definition new_row (i : nat) (now : Z) (d : Doc) : option MediaItem :=
  if required_present d then apply_doc d (blank_row i now) else None.

(** [update(doc).eq('id', i)] on the rows of the table. *)
Fixpoint update_rows (i : nat) (d : Doc) (rows : list MediaItem)
  : option (list MediaItem) :=
  match rows with
  | [] => Some []
  | r :: rows' =>
      r' ← (if Nat.eqb (id r) i then apply_doc d r else Some r);
      rest ← update_rows i d rows';
      Some (r' :: rest)
  end.

(** [delete().eq('id', i)] *)
Definition delete_rows (i : nat) (rows : list MediaItem) : list MediaItem :=
  List.filter (fun r => negb (Nat.eqb (id r) i)) rows.

(** ** Queries

    [from('website_media').select('*')] refined by [.eq('mediatype', k)],
    [.order('created_at', { ascending })] and [.limit(n)]. *)

Record Query := mkQuery {
  q_eq_mediatype : option MediaType;
  q_order_created_at : option bool;
  q_limit : option nat
}.

Definition matches (k : option MediaType) (r : MediaItem) : bool :=
  match k with
  | None => true
  | Some m => bool_decide (mediatype r = m)
  end.

Definition newest_first : relation MediaItem :=
  fun a b => (created_at b <= created_at a)%Z.

Definition oldest_first : relation MediaItem :=
  fun a b => (created_at a <= created_at b)%Z.

Global Instance newest_first_dec : RelDecision newest_first :=
  fun a b => decide (created_at b <= created_at a)%Z.

Global Instance oldest_first_dec : RelDecision oldest_first :=
  fun a b => decide (created_at a <= created_at b)%Z.

Definition order_rows (o : option bool) (rows : list MediaItem)
  : list MediaItem :=
  match o with
  | None => rows
  | Some true => merge_sort oldest_first rows
  | Some false => merge_sort newest_first rows
  end.

Definition limit_rows (n : option nat) (rows : list MediaItem)
  : list MediaItem :=
  match n with
  | None => rows
  | Some k => take k rows
  end.

Definition run_query (q : Query) (rows : list MediaItem) : list MediaItem :=
  limit_rows (q_limit q)
    (order_rows (q_order_created_at q)
       (List.filter (matches (q_eq_mediatype q)) rows)).

(** ** The world the handlers act on

    The table, the storage bucket [media], and what an observer can see of
    a handler: the remote calls it issued (oldest first), the lines written
    with [console.error], and the messages it showed. *)

Inductive Call :=
| StorageUpload (path : string) (f : File)
| StorageRemove (paths : list string)
| TableSelect (q : Query)
| TableInsert (d : Doc)
| TableUpdate (i : nat) (d : Doc)
| TableDelete (i : nat).

Inductive UploadStatus :=
| status_idle
| status_uploading
| status_success
| status_error.

Inductive UiEvent :=
| ShowNotification (ok : bool) (message : string)
| SetError (message : option string)
| SetUploadState (status : UploadStatus) (progress : nat) (message : string).

Record World := mkWorld {
  catalog : list MediaItem;
  next_id : nat;
  bucket : gmap string File;
  calls : list Call;
  console : list string;
  ui : list UiEvent
}.

Definition log_call (c : Call) (w : World) : World :=
  mkWorld (catalog w) (next_id w) (bucket w) (calls w ++ [c])%list (console w) (ui w).

Definition console_error (line : string) (w : World) : World :=
  mkWorld (catalog w) (next_id w) (bucket w) (calls w) (console w ++ [line])%list (ui w).

Definition show (e : UiEvent) (w : World) : World :=
  mkWorld (catalog w) (next_id w) (bucket w) (calls w) (console w) (ui w ++ [e])%list.

Definition with_catalog (rows : list MediaItem) (n : nat) (w : World) : World :=
  mkWorld rows n (bucket w) (calls w) (console w) (ui w).

Definition with_bucket (b : gmap string File) (w : World) : World :=
  mkWorld (catalog w) (next_id w) b (calls w) (console w) (ui w).

(** What the service answers to a call: the promise resolves without an
    [error], resolves with [{ error }], or is rejected (the [await] throws). *)
Inductive Reply :=
| Resolved
| Rejected (message : string)
| Thrown.

(** [storage.from('media').upload(path, file)], never with [upsert]: an
    existing object is not replaced, the bucket answers with an error. *)
Definition upload_answer (reply : Reply) (path : string) (b : gmap string File)
  : Reply :=
  match reply with
  | Resolved =>
      match b !! path with
      | Some _ => Rejected "The resource already exists"
      | None => Resolved
      end
  | r => r
  end.

Definition storage_upload (reply : Reply) (path : string) (f : File) (w : World)
  : Reply * World :=
  let w := log_call (StorageUpload path f) w in
  match upload_answer reply path (bucket w) with
  | Resolved => (Resolved, with_bucket (<[path := f]> (bucket w)) w)
  | r => (r, w)
  end.

(** [storage.from('media').remove(paths)] *)
Definition storage_remove (reply : Reply) (paths : list string) (w : World)
  : Reply * World :=
  let w := log_call (StorageRemove paths) w in
  match reply with
  | Resolved => (Resolved, with_bucket (foldr delete (bucket w) paths) w)
  | r => (r, w)
  end.

(** [from('website_media').insert([doc])] *)
Definition table_insert (reply : Reply) (now : Z) (d : Doc) (w : World)
  : Reply * World :=
  let w := log_call (TableInsert d) w in
  match reply with
  | Resolved =>
      match new_row (next_id w) now d with
      | Some r => (Resolved, with_catalog (catalog w ++ [r])%list (S (next_id w)) w)
      | None => (Rejected "new row violates the table constraints", w)
      end
  | r => (r, w)
  end.

(** [from('website_media').update(doc).eq('id', i)] *)
Definition table_update (reply : Reply) (i : nat) (d : Doc) (w : World)
  : Reply * World :=
  let w := log_call (TableUpdate i d) w in
  match reply with
  | Resolved =>
      match update_rows i d (catalog w) with
      | Some rows => (Resolved, with_catalog rows (next_id w) w)
      | None => (Rejected "updated row violates the table constraints", w)
      end
  | r => (r, w)
  end.

(** [from('website_media').delete().eq('id', i)] *)
Definition table_delete (reply : Reply) (i : nat) (w : World) : Reply * World :=
  let w := log_call (TableDelete i) w in
  match reply with
  | Resolved => (Resolved, with_catalog (delete_rows i (catalog w)) (next_id w) w)
  | r => (r, w)
  end.

(** Which [return] of a handler was reached.  [Invalid] is a refusal before
    any remote call, [UploadFailed] follows an [error] of the main upload,
    [PersistFailed] an [error] of a table write, [Caught] is the [catch]
    block, and [Uncaught] an exception outside every [try]. *)
Inductive Exit :=
| Completed
| Invalid (reason : string)
| UploadFailed (message : string)
| PersistFailed (message : string)
| Caught (message : string)
| Uncaught (what : string).

(** Replies and clock readings of one upload. *)
Record UploadEnv := mkUploadEnv {
  date_now : N;
  date_now_thumbnail : N;
  table_now : Z;
  upload_reply : Reply;
  thumbnail_reply : Reply;
  insert_reply : Reply
}.

(** The query of the admin list: every row, newest first. *)
Definition admin_query : Query := mkQuery None (Some false) None.

(** A condition on an optional string: [undefined], [null] and the empty
    string are falsy. *)
Definition truthy (o : option string) : option string :=
  match o with
  | Some s => if String.eqb s "" then None else Some s
  | None => None
  end.

(** ** AdminMediaManager, first component

    The handlers of the component whose upload form carries [mediatype] and
    [isExternalLink].  View-only state (spinners, form resets) is left out;
    a trailing [fetchMediaItems()] is recorded as the select call it issues. *)

Module AdminMediaManager.

Record UploadForm := mkUploadForm {
  form_file : option File;
  form_thumbnailFile : option File;
  form_title : string;
  form_description : string;
  form_type_detail : string;
  form_mediatype : MediaType;
  form_isExternalLink : bool;
  form_externalUrl : string
}.

(** The fields of [editForm : Partial<MediaItem>] that [handleUpdate] reads;
    [None] is [undefined]. *)
Record EditForm := mkEditForm {
  edit_title : option string;
  edit_description : option string;
  edit_type_detail : option string;
  edit_name : option string
}.

(** [startEdit]: the edit form opened on an item. *)
Definition startEdit (item : MediaItem) : EditForm :=
  mkEditForm (Some (opt_or_else (title item) ""))
    (Some (opt_or_else (description item) ""))
    (Some (opt_or_else (type_detail item) ""))
    (Some (or_else (name item) "")).

Section Handlers.

Variable getPublicUrl : string -> string.

Definition showNotification (ok : bool) (message : string) (w : World) : World :=
  show (ShowNotification ok message) w.

Definition fetchMediaItems (w : World) : World :=
  log_call (TableSelect admin_query) w.

(** The object literal [updateData] of [handleUpdate]. *)
Definition updateData (editForm : EditForm) : Doc :=
  ((match edit_title editForm with Some s => [("title", JString s)] | None => [] end)
   ++ (match edit_description editForm with
       | Some s => [("description", JString s)] | None => [] end)
   ++ (match edit_type_detail editForm with
       | Some s => [("type_detail", JString s)] | None => [] end)
   ++ (match edit_name editForm with
       | Some s => [("name", JString s)] | None => [] end))%list.

Definition handleUpdate (i : nat) (editForm : EditForm) (reply : Reply)
    (w : World) : Exit * World :=
  match table_update reply i (updateData editForm) w with
  | (Thrown, w1) =>
      (Caught "Failed to update media item",
       showNotification false "Failed to update media item"
         (console_error "Error updating media item:" w1))
  | (Rejected msg, w1) =>
      (PersistFailed msg,
       showNotification false ("Failed to update: " +:+ msg)
         (console_error "Error updating media item:" w1))
  | (Resolved, w1) =>
      (Completed,
       fetchMediaItems (showNotification true "Media item updated successfully" w1))
  end.

Definition handleDelete (i : nat) (storagePath : option string)
    (storage_reply delete_reply : Reply) (w : World) : Exit * World :=
  let caught w' :=
    (Caught "Failed to delete media item",
     showNotification false "Failed to delete media item"
       (console_error "Error deleting media item:" w')) in
  let after_storage w1 :=
    match table_delete delete_reply i w1 with
    | (Thrown, w2) => caught w2
    | (Rejected msg, w2) =>
        (PersistFailed msg,
         showNotification false "Failed to delete media item"
           (console_error "Error deleting media item:" w2))
    | (Resolved, w2) =>
        (Completed,
         fetchMediaItems (showNotification true "Media item deleted successfully" w2))
    end in
  match truthy storagePath with
  | Some p =>
      match storage_remove storage_reply [p] w with
      | (Thrown, w1) => caught w1
      | (Rejected _, w1) =>
          after_storage (console_error "Error deleting from storage:" w1)
      | (Resolved, w1) => after_storage w1
      end
  | None => after_storage w
  end.

(** The object literal [mediaData] of [handleFileUpload]. *)
Definition mediaData (uploadForm : UploadForm) (f : File) (filePath : string)
    (thumbnailUrl thumbnailPath : option string) : Doc :=
  [ ("name", JString (fname f));
    ("url", JString (getPublicUrl filePath));
    ("type", JString (ftype f));
    ("title", JString (or_else (form_title uploadForm) (fname f)));
    ("description", JString (or_else (form_description uploadForm) ""));
    ("type_detail", JString (or_else (form_type_detail uploadForm) ""));
    ("mediatype", JString (mediatype_text (form_mediatype uploadForm)));
    ("isexternallink", JBool false);
    ("storagepath", JString filePath);
    ("video_thumbnail_url", json_opt thumbnailUrl);
    ("video_thumbnail_path", json_opt thumbnailPath) ].

Definition filePath_of (uploadForm : UploadForm) (f : File) (now : N) : string :=
  let fileName := pretty now +:+ "_" +:+ fname f in
  match form_mediatype uploadForm with
  | video => "videos/" +:+ fileName
  | artwork => "images/" +:+ fileName
  end.

Definition thumbnailFilePath_of (t : File) (now : N) : string :=
  "thumbnails/" +:+ (pretty now +:+ "_thumbnail_" +:+ fname t).

Definition handleFileUpload (uploadForm : UploadForm) (env : UploadEnv)
    (w : World) : Exit * World :=
  match form_file uploadForm with
  | None =>
      (Invalid "Please select a file to upload",
       showNotification false "Please select a file to upload" w)
  | Some f =>
      let caught w' :=
        (Caught "Upload failed",
         showNotification false "Upload failed"
           (console_error "Error during upload:" w')) in
      let save thumbnailUrl thumbnailPath w2 :=
        match table_insert (insert_reply env) (table_now env)
                (mediaData uploadForm f (filePath_of uploadForm f (date_now env))
                   thumbnailUrl thumbnailPath) w2 with
        | (Thrown, w3) => caught w3
        | (Rejected msg, w3) =>
            (PersistFailed msg,
             showNotification false ("Database error: " +:+ msg)
               (console_error "Error saving to database:" w3))
        | (Resolved, w3) =>
            (Completed,
             fetchMediaItems (showNotification true "File uploaded successfully" w3))
        end in
      let filePath := filePath_of uploadForm f (date_now env) in
      match storage_upload (upload_reply env) filePath f w with
      | (Thrown, w1) => caught w1
      | (Rejected msg, w1) =>
          (UploadFailed msg,
           showNotification false ("Upload failed: " +:+ msg)
             (console_error "Error uploading file:" w1))
      | (Resolved, w1) =>
          match form_mediatype uploadForm, form_thumbnailFile uploadForm with
          | video, Some t =>
              let thumbnailFilePath :=
                thumbnailFilePath_of t (date_now_thumbnail env) in
              match storage_upload (thumbnail_reply env) thumbnailFilePath t w1 with
              | (Thrown, w2) => caught w2
              | (Rejected msg, w2) =>
                  save None None
                    (showNotification false ("Thumbnail upload failed: " +:+ msg)
                       (console_error "Error uploading thumbnail:" w2))
              | (Resolved, w2) =>
                  save (Some (getPublicUrl thumbnailFilePath))
                    (Some thumbnailFilePath) w2
              end
          | _, _ => save None None w1
          end
      end
  end.

(** The object literal [mediaData] of [handleExternalLinkUpload]. *)
Definition linkData (uploadForm : UploadForm) : Doc :=
  [ ("name", JString (or_else (form_title uploadForm) "External Link"));
    ("url", JString (form_externalUrl uploadForm));
    ("type", JString (match form_mediatype uploadForm with
                      | video => "video-link"
                      | artwork => "image-link"
                      end));
    ("title", JString (or_else (form_title uploadForm) "External Link"));
    ("description", JString (or_else (form_description uploadForm) ""));
    ("type_detail", JString (or_else (form_type_detail uploadForm) ""));
    ("mediatype", JString (mediatype_text (form_mediatype uploadForm)));
    ("isexternallink", JBool true);
    ("storagepath", JNull) ].

Definition handleExternalLinkUpload (uploadForm : UploadForm) (now : Z)
    (reply : Reply) (w : World) : Exit * World :=
  if String.eqb (form_externalUrl uploadForm) "" then
    (Invalid "Please enter a valid URL",
     showNotification false "Please enter a valid URL" w)
  else
    match table_insert reply now (linkData uploadForm) w with
    | (Thrown, w1) =>
        (Caught "Failed to save external link",
         showNotification false "Failed to save external link"
           (console_error "Error saving external link:" w1))
    | (Rejected msg, w1) =>
        (PersistFailed msg,
         showNotification false ("Database error: " +:+ msg)
           (console_error "Error saving external link:" w1))
    | (Resolved, w1) =>
        (Completed,
         fetchMediaItems (showNotification true "External link added successfully" w1))
    end.

Definition handleUpload (uploadForm : UploadForm) (env : UploadEnv) (w : World)
  : Exit * World :=
  if form_isExternalLink uploadForm
  then handleExternalLinkUpload uploadForm (table_now env) (insert_reply env) w
  else handleFileUpload uploadForm env w.

End Handlers.

End AdminMediaManager.

(** ** AdminMediaManager, second component

    The handlers of the component with [activeTab], [newMedia] and
    [editingItem], which validates files before uploading them. *)

Module AdminMediaManager2.

Definition ALLOWED_IMAGE_TYPES : list string :=
  [ "image/jpeg"; "image/jpg"; "image/png"; "image/gif"; "image/webp";
    "image/svg+xml"; "image/bmp"; "image/tiff" ].

Definition ALLOWED_VIDEO_TYPES : list string :=
  [ "video/mp4"; "video/webm"; "video/ogg" ].

Definition ALL_ALLOWED_TYPES : list string :=
  (ALLOWED_IMAGE_TYPES ++ ALLOWED_VIDEO_TYPES)%list.

Definition MAX_IMAGE_SIZE : N := 10 * 1024 * 1024.
Definition MAX_VIDEO_SIZE : N := 100 * 1024 * 1024.
Definition MAX_THUMBNAIL_SIZE : N := 5 * 1024 * 1024.

Record Validation := mkValidation {
  isValid : bool;
  error : option string
}.

Definition valid : Validation := mkValidation true None.
Definition invalid (reason : string) : Validation := mkValidation false (Some reason).

Definition megabytes (n : N) : string := pretty (n / (1024 * 1024))%N.

Definition extension_mismatch : string :=
  "File extension does not match the video format. Please ensure the file is properly encoded.".

Definition validateFile (file : File) (isThumbail : bool) : Validation :=
  if isThumbail then
    if negb (includes ALLOWED_IMAGE_TYPES (ftype file)) then
      invalid "Thumbnail must be an image. Supported formats: JPG, PNG, GIF, WebP."
    else if (MAX_THUMBNAIL_SIZE <? fsize file)%N then
      invalid ("Thumbnail file too large. Maximum size is "
               +:+ megabytes MAX_THUMBNAIL_SIZE +:+ "MB.")
    else valid
  else if negb (includes ALL_ALLOWED_TYPES (ftype file)) then
    invalid ("Unsupported file type: " +:+ ftype file
             +:+ ". Please select a valid image or video file.")
  else
    let isImage := includes ALLOWED_IMAGE_TYPES (ftype file) in
    let isVideo := includes ALLOWED_VIDEO_TYPES (ftype file) in
    if (isImage && (MAX_IMAGE_SIZE <? fsize file)%N)%bool then
      invalid ("Image file too large. Maximum size is "
               +:+ megabytes MAX_IMAGE_SIZE +:+ "MB.")
    else if (isVideo && (MAX_VIDEO_SIZE <? fsize file)%N)%bool then
      invalid ("Video file too large. Maximum size is "
               +:+ megabytes MAX_VIDEO_SIZE +:+ "MB.")
    else if isVideo then
      let fileName := toLowerCase (fname file) in
      if (String.eqb (ftype file) "video/mp4"
          && negb (endsWith fileName ".mp4"))%bool then
        invalid extension_mismatch
      else if (String.eqb (ftype file) "video/webm"
               && negb (endsWith fileName ".webm"))%bool then
        invalid extension_mismatch
      else if (String.eqb (ftype file) "video/ogg"
               && negb (endsWith fileName ".ogg")
               && negb (endsWith fileName ".ogv"))%bool then
        invalid extension_mismatch
      else valid
    else valid.

Inductive LinkType := image_link_type | video_link_type.

Record NewMedia := mkNewMedia {
  new_title : string;
  new_description : string;
  new_type_detail : string;
  new_externalUrl : string;
  new_linkType : LinkType;
  new_file : option File;
  new_thumbnailFile : option File
}.

(** The initial value of the form, which is also what [resetForm] writes. *)
Definition initial_newMedia : NewMedia :=
  mkNewMedia "" "" "" "" image_link_type None None.

Definition resetUploadState : UiEvent := SetUploadState status_idle 0 "".

(** [handleFileSelect]: the first file of the input, if any, enters the
    form only when it is valid; the second component is what is shown. *)
Definition handleFileSelect (chosen : option File) (newMedia : NewMedia)
  : NewMedia * list UiEvent :=
  match chosen with
  | None => (newMedia, [])
  | Some file =>
      let validation := validateFile file false in
      if isValid validation then
        (mkNewMedia (new_title newMedia) (new_description newMedia)
           (new_type_detail newMedia) (new_externalUrl newMedia)
           (new_linkType newMedia) (Some file) (new_thumbnailFile newMedia),
         [SetError None; resetUploadState])
      else
        (newMedia, [SetError (Some (opt_or_else (error validation) "Invalid file"))])
  end.

Definition handleThumbnailSelect (chosen : option File) (newMedia : NewMedia)
  : NewMedia * list UiEvent :=
  match chosen with
  | None => (newMedia, [])
  | Some file =>
      let validation := validateFile file true in
      if isValid validation then
        (mkNewMedia (new_title newMedia) (new_description newMedia)
           (new_type_detail newMedia) (new_externalUrl newMedia)
           (new_linkType newMedia) (new_file newMedia) (Some file),
         [SetError None])
      else
        (newMedia,
         [SetError (Some (opt_or_else (error validation) "Invalid thumbnail file"))])
  end.

(** What the admin can do to the form of a new item. *)
Inductive FormEvent :=
| TypeTitle (value : string)
| TypeTypeDetail (value : string)
| TypeDescription (value : string)
| TypeExternalUrl (value : string)
| ChooseLinkType (linkType : LinkType)
| FileSelect (chosen : option File)
| ThumbnailSelect (chosen : option File)
| ResetForm.

Definition form_step (newMedia : NewMedia) (e : FormEvent) : NewMedia :=
  match e with
  | TypeTitle value =>
      mkNewMedia value (new_description newMedia) (new_type_detail newMedia)
        (new_externalUrl newMedia) (new_linkType newMedia) (new_file newMedia)
        (new_thumbnailFile newMedia)
  | TypeTypeDetail value =>
      mkNewMedia (new_title newMedia) (new_description newMedia) value
        (new_externalUrl newMedia) (new_linkType newMedia) (new_file newMedia)
        (new_thumbnailFile newMedia)
  | TypeDescription value =>
      mkNewMedia (new_title newMedia) value (new_type_detail newMedia)
        (new_externalUrl newMedia) (new_linkType newMedia) (new_file newMedia)
        (new_thumbnailFile newMedia)
  | TypeExternalUrl value =>
      mkNewMedia (new_title newMedia) (new_description newMedia)
        (new_type_detail newMedia) value (new_linkType newMedia)
        (new_file newMedia) (new_thumbnailFile newMedia)
  | ChooseLinkType linkType =>
      mkNewMedia (new_title newMedia) (new_description newMedia)
        (new_type_detail newMedia) (new_externalUrl newMedia) linkType
        (new_file newMedia) (new_thumbnailFile newMedia)
  | FileSelect chosen => fst (handleFileSelect chosen newMedia)
  | ThumbnailSelect chosen => fst (handleThumbnailSelect chosen newMedia)
  | ResetForm => initial_newMedia
  end.

Definition fill_form (evs : list FormEvent) : NewMedia :=
  foldl form_step initial_newMedia evs.

(** [filteredItems]: the items listed under the active tab. *)
Definition filteredItems (activeTab : MediaType) (mediaItems : list MediaItem)
  : list MediaItem :=
  List.filter (fun item => bool_decide (mediatype item = activeTab)) mediaItems.

Section Handlers.

Variable getPublicUrl : string -> string.

(** Whether [new URL(url)] returns rather than throws. *)
Variable URL_parses : string -> bool.

Definition validateUrl (url : string) : Validation :=
  if URL_parses url then valid else invalid "Please enter a valid URL".

Definition setError (message : option string) (w : World) : World :=
  show (SetError message) w.

Definition setUploadState (status : UploadStatus) (progress : nat)
    (message : string) (w : World) : World :=
  show (SetUploadState status progress message) w.

Definition refuse (reason : string) (w : World) : Exit * World :=
  (Invalid reason, setError (Some reason) w).

(** The storage path of the main file. *)
Definition fileName_of (activeTab : MediaType) (f : File) (timestamp : N) : string :=
  mediatype_text activeTab +:+ "s/" +:+ pretty timestamp +:+ "_" +:+ sanitize (fname f).

Definition thumbnailFileName_of (t : File) (timestamp : N) : string :=
  "thumbnails/" +:+ pretty timestamp +:+ "_" +:+ sanitize (fname t).

(** The object literal [mediaDoc] of [handleFileUpload]. *)
Definition mediaDoc (activeTab : MediaType) (newMedia : NewMedia) (f : File)
    (fileName : string) (thumbnailUrl thumbnailPath : option string) : Doc :=
  [ ("name", JString (sanitize (fname f)));
    ("url", JString (getPublicUrl fileName));
    ("type", JString (ftype f));
    ("title", JString (trim (new_title newMedia)));
    ("description", JString (trim (new_description newMedia)));
    ("type_detail", JString (match activeTab with
                             | artwork => trim (new_type_detail newMedia)
                             | video => ""
                             end));
    ("mediatype", JString (mediatype_text activeTab));
    ("isexternallink", JBool false);
    ("storagepath", JString fileName);
    ("video_thumbnail_url", json_opt thumbnailUrl);
    ("video_thumbnail_path", json_opt thumbnailPath) ].

(** The part of [handleFileUpload] inside [try], after validation. *)
Definition upload_validated (activeTab : MediaType) (newMedia : NewMedia)
    (f : File) (env : UploadEnv) (w : World) : Exit * World :=
  let caught w' :=
    (Caught "Failed to upload. Please try again.",
     setError (Some "Failed to upload. Please try again.")
       (setUploadState status_error 0
          "Failed to upload. Please check your connection and try again."
          (console_error "Upload error:" w'))) in
  let fileName := fileName_of activeTab f (date_now env) in
  let save thumbnailUrl thumbnailPath w2 :=
    let w2 := setUploadState status_uploading 90
                "Upload complete! Saving metadata..." w2 in
    match table_insert (insert_reply env) (table_now env)
            (mediaDoc activeTab newMedia f fileName thumbnailUrl thumbnailPath)
            w2 with
    | (Thrown, w3) => caught w3
    | (Rejected msg, w3) =>
        (PersistFailed msg,
         setError (Some "Failed to save media metadata. Please try again.")
           (setUploadState status_error 0
              "Upload completed but failed to save metadata. Please try again."
              (console_error "Database error:" w3)))
    | (Resolved, w3) =>
        (Completed, setUploadState status_success 100 "Media uploaded successfully!" w3)
    end in
  match storage_upload (upload_reply env) fileName f w with
  | (Thrown, w1) => caught w1
  | (Rejected msg, w1) =>
      (UploadFailed msg,
       setError (Some ("Upload failed: " +:+ msg))
         (setUploadState status_error 0 ("Upload failed: " +:+ msg)
            (console_error "Upload error:" w1)))
  | (Resolved, w1) =>
      match new_thumbnailFile newMedia, activeTab with
      | Some t, video =>
          let thumbnailFileName := thumbnailFileName_of t (date_now env) in
          match storage_upload (thumbnail_reply env) thumbnailFileName t
                  (setUploadState status_uploading 50 "Uploading thumbnail..." w1) with
          | (Thrown, w2) => caught w2
          | (Rejected _, w2) =>
              save None None (console_error "Thumbnail upload error:" w2)
          | (Resolved, w2) =>
              save (Some (getPublicUrl thumbnailFileName)) (Some thumbnailFileName) w2
          end
      | _, _ => save None None w1
      end
  end.

Definition handleFileUpload (activeTab : MediaType) (newMedia : NewMedia)
    (env : UploadEnv) (w : World) : Exit * World :=
  match new_file newMedia with
  | None => refuse "Please provide a title and select a file" w
  | Some f =>
      if String.eqb (trim (new_title newMedia)) "" then
        refuse "Please provide a title and select a file" w
      else
        let validation := validateFile f false in
        if negb (isValid validation) then
          refuse (opt_or_else (error validation) "Invalid file") w
        else
          let thumbnailValidation :=
            match new_thumbnailFile newMedia with
            | Some t => validateFile t true
            | None => valid
            end in
          if negb (isValid thumbnailValidation) then
            refuse (opt_or_else (error thumbnailValidation) "Invalid thumbnail file") w
          else
            upload_validated activeTab newMedia f env
              (setUploadState status_uploading 0 "Starting upload..."
                 (setError None w))
  end.

(** The object literal [mediaDoc] of [handleLinkSubmission]. *)
Definition linkDoc (activeTab : MediaType) (newMedia : NewMedia) : Doc :=
  let linkTypePrefix :=
    match new_linkType newMedia with
    | image_link_type => "image"
    | video_link_type => "video"
    end in
  [ ("name", JString (trim (new_title newMedia)));
    ("url", JString (trim (new_externalUrl newMedia)));
    ("type", JString (linkTypePrefix +:+ "-link"));
    ("title", JString (trim (new_title newMedia)));
    ("description", JString (trim (new_description newMedia)));
    ("type_detail", JString (match activeTab with
                             | artwork => trim (new_type_detail newMedia)
                             | video => ""
                             end));
    ("mediatype", JString (mediatype_text activeTab));
    ("isexternallink", JBool true) ].

Definition handleLinkSubmission (activeTab : MediaType) (newMedia : NewMedia)
    (now : Z) (reply : Reply) (w : World) : Exit * World :=
  if (String.eqb (trim (new_externalUrl newMedia)) ""
      || String.eqb (trim (new_title newMedia)) "")%bool then
    refuse "Please provide a title and URL" w
  else
    let validation := validateUrl (trim (new_externalUrl newMedia)) in
    if negb (isValid validation) then
      refuse (opt_or_else (error validation) "Invalid URL") w
    else
      let failed exit w' :=
        (exit,
         setError (Some "Failed to save link. Please try again.")
           (setUploadState status_error 0 "Failed to save link. Please try again." w')) in
      match table_insert reply now (linkDoc activeTab newMedia)
              (setUploadState status_uploading 0 "Saving link..." (setError None w)) with
      | (Thrown, w1) =>
          failed (Caught "Failed to save link. Please try again.")
            (console_error "Link submission error:" w1)
      | (Rejected msg, w1) =>
          failed (PersistFailed msg) (console_error "Database error:" w1)
      | (Resolved, w1) =>
          (Completed, setUploadState status_success 100 "Link saved successfully!" w1)
      end.

(** [!item.isexternallink]: [undefined], [null] and [false] pass. *)
Definition not_external (item : MediaItem) : bool :=
  match isexternallink item with
  | Some true => false
  | _ => true
  end.

(** The [onConfirm] callback installed by [handleDeleteMedia]. *)
Definition handleDeleteMedia (item : MediaItem)
    (delete_reply storage_reply thumbnail_reply : Reply) (w : World)
  : Exit * World :=
  let caught w' :=
    (Caught "Failed to delete media. Please try again.",
     setError (Some "Failed to delete media. Please try again.")
       (console_error "Error deleting media:" w')) in
  let delete_thumbnail w2 :=
    match truthy (video_thumbnail_path item) with
    | Some t =>
        match storage_remove thumbnail_reply [t] w2 with
        | (Thrown, w3) => caught w3
        | (Rejected _, w3) =>
            (Completed, console_error "Thumbnail deletion error:" w3)
        | (Resolved, w3) => (Completed, w3)
        end
    | None => (Completed, w2)
    end in
  match table_delete delete_reply (id item) (setError None w) with
  | (Thrown, w1) => caught w1
  | (Rejected msg, w1) =>
      (PersistFailed msg,
       setError (Some "Failed to delete media. Please try again.")
         (console_error "Database deletion error:" w1))
  | (Resolved, w1) =>
      match (if not_external item then truthy (storagepath item) else None) with
      | Some p =>
          match storage_remove storage_reply [p] w1 with
          | (Thrown, w2) => caught w2
          | (Rejected _, w2) =>
              delete_thumbnail (console_error "Storage deletion error:" w2)
          | (Resolved, w2) => delete_thumbnail w2
          end
      | None => delete_thumbnail w1
      end
  end.

(** [editingItem.field?.trim() || ''] *)
Definition trimmed_or_empty (o : option string) : string :=
  match o with
  | Some s => or_else (trim s) ""
  | None => ""
  end.

(** The object literal [updateData] of [handleUpdateMedia]. *)
Definition updateData (t : string) (editingItem : MediaItem) : Doc :=
  [ ("title", JString (trim t));
    ("description", JString (trimmed_or_empty (description editingItem)));
    ("type_detail", JString (trimmed_or_empty (type_detail editingItem))) ].

Definition handleUpdateMedia (editingItem : option MediaItem) (reply : Reply)
    (w : World) : Exit * World :=
  match editingItem with
  | None => refuse "Please provide a title" w
  | Some item =>
      match title item with
      | None => (Uncaught "TypeError: editingItem.title is not a string", w)
      | Some t =>
          if String.eqb (trim t) "" then refuse "Please provide a title" w
          else
            let failed exit w' :=
              (exit,
               setError (Some "Failed to update media. Please try again.")
                 (setUploadState status_error 0
                    "Failed to update media. Please try again." w')) in
            match table_update reply (id item) (updateData t item)
                    (setUploadState status_uploading 0 "Updating media..." w) with
            | (Thrown, w1) =>
                failed (Caught "Failed to update media. Please try again.")
                  (console_error "Error updating media:" w1)
            | (Rejected msg, w1) =>
                failed (PersistFailed msg) (console_error "Update error:" w1)
            | (Resolved, w1) =>
                (Completed,
                 setUploadState status_success 100 "Media updated successfully!" w1)
            end
      end
  end.

End Handlers.

End AdminMediaManager2.

(** ** Catalog client: the fetchers of the gallery pages *)

(** What [await supabase.from(...).select(...)...] hands to the fetcher:
    [{ data, error: null }] where [data] may be [null], [{ error }], or an
    exception. *)
Inductive Response :=
| Data (data : option (list MediaItem))
| Failure (message : string)
| Throws.

(** The select call against the table. *)
Definition table_select (reply : Reply) (q : Query) (rows : list MediaItem)
  : Response :=
  match reply with
  | Resolved => Data (Some (run_query q rows))
  | Rejected msg => Failure msg
  | Thrown => Throws
  end.

(** Component state of a gallery page. *)
Record Gallery := mkGallery {
  mediaItems : list MediaItem;
  loading : bool;
  load_error : option string
}.

Definition initial_gallery : Gallery := mkGallery [] true None.

(** [item.isexternallink && item.type === tag] *)
Definition external_with_tag (tag : string) (item : MediaItem) : bool :=
  match isexternallink item with
  | Some true => String.eqb (type item) tag
  | _ => false
  end.

(** ** Regular expressions

    The fragment of ECMAScript regular expressions that the site uses, with
    the backtracking order of the language: alternatives are tried from left
    to right and quantifiers are greedy.  The expressions have no [u] flag,
    so they read a text one code unit at a time: the matcher works on the
    list of units, and a character class is a test on one unit. *)

Inductive Regex :=
| Eps
| Chars (p : string -> bool)
| Seq (r1 r2 : Regex)
| Alt (r1 r2 : Regex)
| Star (r : Regex)
| Group (n : nat) (r : Regex)
| StartOfInput
| EndOfInput.

(** The units of the capture groups that took part in a match. *)
Definition Captures := nat -> option (list string).

Definition no_captures : Captures := fun _ => None.

Definition capture (n : nat) (text : list string) (caps : Captures) : Captures :=
  fun i => if Nat.eqb i n then Some text else caps i.

(** The part of [s] read before the rest [s'] was reached. *)
Definition consumed (s s' : list string) : list string :=
  take (length s - length s') s.

Definition Continuation := list string -> Captures -> option Captures.

(** [r*]: one more round of [body] first, which must read something, and
    the continuation when that fails. *)
Fixpoint iterate (body : list string -> Captures -> Continuation -> option Captures)
    (k : Continuation) (fuel : nat) (s : list string) (caps : Captures)
  : option Captures :=
  match fuel with
  | 0 => k s caps
  | S fuel' =>
      match body s caps
              (fun s' caps' =>
                 if Nat.ltb (length s') (length s)
                 then iterate body k fuel' s' caps'
                 else None) with
      | Some result => Some result
      | None => k s caps
      end
  end.

Section Matcher.

Variable input : list string.

(** The matcher: [backtrack r s caps k] matches [r] at the start of [s] and
    hands the rest of the text to the continuation [k]. *)
Fixpoint backtrack (r : Regex) (s : list string) (caps : Captures)
    (k : Continuation) : option Captures :=
  match r with
  | Eps => k s caps
  | Chars p =>
      match s with
      | u :: s' => if p u then k s' caps else None
      | [] => None
      end
  | Seq r1 r2 => backtrack r1 s caps (fun s' caps' => backtrack r2 s' caps' k)
  | Alt r1 r2 =>
      match backtrack r1 s caps k with
      | Some result => Some result
      | None => backtrack r2 s caps k
      end
  | Star r1 => iterate (backtrack r1) k (length s) s caps
  | Group n r1 =>
      backtrack r1 s caps (fun s' caps' => k s' (capture n (consumed s s') caps'))
  | StartOfInput =>
      if Nat.eqb (length s) (length input) then k s caps else None
  | EndOfInput =>
      match s with
      | [] => k s caps
      | _ :: _ => None
      end
  end.

End Matcher.

(** [r+] *)
Definition one_or_more (r : Regex) : Regex := Seq r (Star r).

(** A literal text, unit by unit. *)
Definition lit_units (l : list string) : Regex :=
  foldr (fun u r => Seq (Chars (String.eqb u)) r) Eps l.

Definition lit (text : string) : Regex := lit_units (units text).

Definition matched : Continuation := fun _ caps => Some caps.

Definition match_at (r : Regex) (input s : list string) : option Captures :=
  backtrack input r s no_captures matched.

(** The first position, from the left, at which the expression matches. *)
Fixpoint search_from (r : Regex) (input s : list string) : option Captures :=
  match match_at r input s with
  | Some caps => Some caps
  | None =>
      match s with
      | _ :: s' => search_from r input s'
      | [] => None
      end
  end.

(** [input.match(r)] for an expression without the [g] flag. *)
Definition regex_match (r : Regex) (input : string) : option Captures :=
  search_from r (units input) (units input).

(** [r.test(input)] *)
Definition regex_test (r : Regex) (input : string) : bool :=
  match regex_match r input with
  | Some _ => true
  | None => false
  end.

(** A literal text under the [i] flag: the letters A to Z and a to z match
    in either case, and a unit outside ASCII is never taken for a letter of
    ASCII. *)
Definition lit_i_units (l : list string) : Regex :=
  foldr (fun u r => Seq (Chars (fun x => String.eqb (toLowerCase x) (toLowerCase u))) r)
    Eps l.

Definition lit_i (text : string) : Regex := lit_i_units (units text).

(** The line terminators: LF, CR, U+2028 and U+2029. *)
Definition line_terminators : list string :=
  [ bytes [10]; bytes [13]; bytes [226; 128; 168]; bytes [226; 128; 169] ].

(** [.]: any unit but a line terminator. *)
Definition dot (u : string) : bool := negb (includes line_terminators u).

(** [\w] *)
Definition word (c : ascii) : bool :=
  let n := nat_of_ascii c in
  ((Nat.leb 97 n && Nat.leb n 122) || (Nat.leb 65 n && Nat.leb n 90)
   || (Nat.leb 48 n && Nat.leb n 57) || Nat.eqb n 95)%bool.

(** [\d] *)
Definition is_digit (c : ascii) : bool :=
  let n := nat_of_ascii c in (Nat.leb 48 n && Nat.leb n 57)%bool.

(** [[^#&?]] *)
Definition not_delimiter (u : string) : bool :=
  negb (String.eqb u "#" || String.eqb u "&" || String.eqb u "?").

(** [(youtu.be\/|v\/|u\/\w\/|embed\/|watch\?v=|&v=)] *)
Definition youtube_markers : Regex :=
  Alt (Seq (lit "youtu") (Seq (Chars dot) (lit "be/")))
    (Alt (lit "v/")
       (Alt (Seq (lit "u/") (Seq (Chars (in_class word)) (lit "/")))
          (Alt (lit "embed/")
             (Alt (lit "watch?v=")
                (lit "&v="))))).

(** The expression of [getYouTubeVideoId], in the gallery and in the modal:
    [^.*], then the group of the markers, the group [[^#&?]*] and [.*]. *)
Definition youtube_regExp : Regex :=
  Seq StartOfInput
    (Seq (Star (Chars dot))
       (Seq (Group 1 youtube_markers)
          (Seq (Group 2 (Star (Chars not_delimiter)))
             (Star (Chars dot))))).

(** [/(?:vimeo)\.com.*(?:videos|video|channels|)\/([\d]+)/i], the expression
    of [getVimeoVideoId]. *)
Definition vimeo_regExp : Regex :=
  Seq (lit_i "vimeo")
    (Seq (lit ".")
       (Seq (lit_i "com")
          (Seq (Star (Chars dot))
             (Seq (Alt (lit_i "videos")
                     (Alt (lit_i "video") (Alt (lit_i "channels") Eps)))
                (Seq (lit "/")
                   (Group 1 (one_or_more (Chars (in_class is_digit))))))))).

(** What a gallery page returns from its render. *)
Inductive View :=
| Spinner
| ErrorText (message : string)
| EmptyText (message : string)
| Grid (items : list MediaItem).

Module VideosPageGallery.

Definition query : Query := mkQuery (Some video) (Some false) None.

(** The continuation of [fetchMediaItems] after its [await]. *)
Definition fetchMediaItems_resume (resp : Response) (g : Gallery) : Gallery :=
  match resp with
  | Failure _ => mkGallery (mediaItems g) (loading g) (Some "Failed to load videos")
  | Data data => mkGallery (default [] data) false (load_error g)
  | Throws => mkGallery (mediaItems g) false (Some "Failed to load videos")
  end.

Definition videoItems (g : Gallery) : list MediaItem :=
  List.filter
    (fun item => (bool_decide (mediatype item = video)
                  || external_with_tag "video-link" item)%bool)
    (mediaItems g).

(** The [return] branches of the component, in the order they are tested. *)
Definition render (g : Gallery) : View :=
  if loading g then Spinner
  else
    match truthy (load_error g) with
    | Some message => ErrorText message
    | None =>
        match videoItems g with
        | [] => EmptyText "No videos available"
        | items => Grid items
        end
    end.

(** [getYouTubeVideoId]: the second group when it has eleven code units. *)
Definition getYouTubeVideoId (url : string) : option string :=
  match regex_match youtube_regExp url with
  | Some caps =>
      match caps 2 with
      | Some id => if Nat.eqb (length id) 11 then Some (join id) else None
      | None => None
      end
  | None => None
  end.

(** [getVimeoVideoId]: the first group. *)
Definition getVimeoVideoId (url : string) : option string :=
  match regex_match vimeo_regExp url with
  | Some caps => join <$> caps 1
  | None => None
  end.

(** [getYouTubeThumbnail]: the poster of the video, or the link itself. *)
Definition getYouTubeThumbnail (url : string) : string :=
  match truthy (getYouTubeVideoId url) with
  | Some videoId => "https://img.youtube.com/vi/" +:+ videoId +:+ "/maxresdefault.jpg"
  | None => url
  end.

End VideosPageGallery.

Module WorkPageGallery.

Definition query : Query := mkQuery (Some artwork) (Some false) None.

Definition fetchMediaItems_resume (resp : Response) (g : Gallery) : Gallery :=
  match resp with
  | Failure _ => mkGallery (mediaItems g) (loading g) (Some "Failed to load artworks")
  | Data data => mkGallery (default [] data) false (load_error g)
  | Throws => mkGallery (mediaItems g) false (Some "Failed to load artworks")
  end.

Definition artworkItems (g : Gallery) : list MediaItem :=
  List.filter
    (fun item => (bool_decide (mediatype item = artwork)
                  || external_with_tag "image-link" item)%bool)
    (mediaItems g).

Definition render (g : Gallery) : View :=
  if loading g then Spinner
  else
    match truthy (load_error g) with
    | Some message => ErrorText message
    | None =>
        match artworkItems g with
        | [] => EmptyText "No artworks available"
        | items => Grid items
        end
    end.

End WorkPageGallery.

(** The helpers of the video modal. *)
Module VideoDetailsModal.

Definition getYouTubeVideoId (url : string) : option string :=
  match regex_match youtube_regExp url with
  | Some caps =>
      match caps 2 with
      | Some id => if Nat.eqb (length id) 11 then Some (join id) else None
      | None => None
      end
  | None => None
  end.

Definition getVimeoVideoId (url : string) : option string :=
  match regex_match vimeo_regExp url with
  | Some caps => join <$> caps 1
  | None => None
  end.

Definition getEmbedUrl (url : string) : option string :=
  match truthy (getYouTubeVideoId url) with
  | Some youtubeId =>
      Some ("https://www.youtube.com/embed/" +:+ youtubeId
            +:+ "?autoplay=1&rel=0&modestbranding=1")
  | None =>
      match truthy (getVimeoVideoId url) with
      | Some vimeoId =>
          Some ("https://player.vimeo.com/video/" +:+ vimeoId
                +:+ "?autoplay=1&title=0&byline=0&portrait=0")
      | None => None
      end
  end.

End VideoDetailsModal.

(** The purchase inquiry form. *)
Module PurchaseEmailModal.

Record Props := mkProps {
  artworkTitle : string;
  artworkId : string;
  artworkDescription : string;
  artworkType : option string;
  artworkImage : string
}.

Record FormData := mkFormData {
  fd_name : string;
  fd_email : string;
  fd_comments : string
}.

Record EmailState := mkEmailState {
  isLoading : bool;
  isSuccess : bool;
  isError : bool;
  message : string
}.

(** The JSON body posted to the edge function. *)
Record Inquiry := mkInquiry {
  inquiry_artworkId : string;
  inquiry_artworkTitle : string;
  inquiry_artworkDescription : string;
  inquiry_artworkType : string;
  inquiry_artworkImage : string;
  customerName : string;
  customerEmail : string;
  customerComments : string;
  timestamp : string
}.

(** What the [fetch] and the reading of its body come to: a body with a
    truthy [success], a body without, a status that is not ok, or an
    exception of [fetch] or of [response.json()]. *)
Inductive FetchReply :=
| HttpSuccess
| HttpFailure (error : option string)
| HttpNotOk (status : nat)
| FetchThrows.

Record Outcome := mkOutcome {
  requests : list Inquiry;
  emailState : EmailState;
  closes : bool
}.

(** [[^\s@]] *)
Definition email_char (u : string) : bool :=
  negb (is_space u || String.eqb u "@").

(** [/^[^\s@]+@[^\s@]+\.[^\s@]+$/] *)
Definition emailRegex : Regex :=
  Seq StartOfInput
    (Seq (one_or_more (Chars email_char))
       (Seq (lit "@")
          (Seq (one_or_more (Chars email_char))
             (Seq (lit ".")
                (Seq (one_or_more (Chars email_char)) EndOfInput))))).

Definition handleSubmit (props : Props) (formData : FormData) (now : string)
    (reply : FetchReply) : Outcome :=
  if (String.eqb (trim (fd_name formData)) ""
      || String.eqb (trim (fd_email formData)) "")%bool then
    mkOutcome []
      (mkEmailState false false true "Please fill in your name and email address.")
      false
  else if negb (regex_test emailRegex (fd_email formData)) then
    mkOutcome []
      (mkEmailState false false true "Please enter a valid email address.")
      false
  else
    let inquiry :=
      mkInquiry (artworkId props) (artworkTitle props) (artworkDescription props)
        (match truthy (artworkType props) with
         | Some t => t
         | None => "Artwork"
         end)
        (artworkImage props) (fd_name formData) (fd_email formData)
        (fd_comments formData) now in
    match reply with
    | HttpSuccess =>
        mkOutcome [inquiry]
          (mkEmailState false true false
             "Your inquiry has been sent successfully! We'll get back to you soon.")
          true
    | _ =>
        mkOutcome [inquiry]
          (mkEmailState false false true
             "Failed to send inquiry. Please try again or contact us directly.")
          false
    end.

End PurchaseEmailModal.

(** The contact form, which opens the visitor's mail client. *)
Module ContactForm.

Definition is_unreserved (c : ascii) : bool :=
  let n := nat_of_ascii c in
  ((Nat.leb 97 n && Nat.leb n 122) || (Nat.leb 65 n && Nat.leb n 90)
   || (Nat.leb 48 n && Nat.leb n 57)
   || Ascii.eqb c "-" || Ascii.eqb c "_" || Ascii.eqb c "." || Ascii.eqb c "!"
   || Ascii.eqb c "~" || Ascii.eqb c "*" || Ascii.eqb c "'" || Ascii.eqb c "("
   || Ascii.eqb c ")")%bool.

Definition hex_digit (n : nat) : ascii :=
  match n with
  | 0 => "0" | 1 => "1" | 2 => "2" | 3 => "3" | 4 => "4" | 5 => "5" | 6 => "6"
  | 7 => "7" | 8 => "8" | 9 => "9" | 10 => "A" | 11 => "B" | 12 => "C"
  | 13 => "D" | 14 => "E" | _ => "F"
  end%char.

(** [encodeURIComponent] on the bytes of the UTF-8 text. *)
Fixpoint encodeURIComponent (s : string) : string :=
  match s with
  | EmptyString => EmptyString
  | String c s' =>
      if is_unreserved c then String c (encodeURIComponent s')
      else
        String "%" (String (hex_digit (nat_of_ascii c / 16))
                      (String (hex_digit (nat_of_ascii c mod 16))
                         (encodeURIComponent s')))
  end.

Definition newline : string := String "010" "".

Record FormData := mkFormData {
  fd_name : string;
  fd_email : string;
  fd_comments : string
}.

Definition emailSubject (artworkTitle : string) : string :=
  "Purchase Interest - " +:+ artworkTitle.

Definition emailBody (artworkTitle : string) (formData : FormData) : string :=
  newline +:+ "Name: " +:+ fd_name formData +:+ newline
  +:+ "Email: " +:+ fd_email formData +:+ newline
  +:+ newline
  +:+ "Comments:" +:+ newline
  +:+ fd_comments formData +:+ newline
  +:+ newline
  +:+ "Artwork: " +:+ artworkTitle +:+ newline
  +:+ "    ".

(** The link that [handleSubmit] opens. *)
Definition mailtoLink (artworkTitle : string) (formData : FormData) : string :=
  "mailto:seleccionatural.xyz@gmail.com?subject="
  +:+ encodeURIComponent (emailSubject artworkTitle)
  +:+ "&body=" +:+ encodeURIComponent (emailBody artworkTitle formData).

End ContactForm.

(** The list of the first admin component: [fetchMediaItems] after its
    [await] (errors go to a notification) and the per-tab filter. *)
Module AdminList.

Inductive Tab := images | videos.

Definition fetchMediaItems_resume (resp : Response) (g : Gallery) : Gallery :=
  match resp with
  | Failure _ => mkGallery (mediaItems g) (loading g) (Some "Failed to load media items")
  | Data data => mkGallery (default [] data) false (load_error g)
  | Throws => mkGallery (mediaItems g) false (Some "Failed to load media items")
  end.

Definition filteredMediaItems (activeTab : Tab) (g : Gallery) : list MediaItem :=
  List.filter
    (fun item =>
       match activeTab with
       | images => (bool_decide (mediatype item = artwork)
                    || external_with_tag "image-link" item)%bool
       | videos => (bool_decide (mediatype item = video)
                    || external_with_tag "video-link" item)%bool
       end)
    (mediaItems g).

End AdminList.

(** *** Fetches in flight

    A page calls [fetchMediaItems()] on mount and again on every change
    notification.  Each call issues its query at once and runs its
    continuation when the response arrives; responses may arrive in any
    order.  [shown_by] remembers which fetch wrote the current snapshot. *)

Record Client := mkClient {
  gallery : Gallery;
  issued : nat;
  in_flight : list (nat * Response);
  shown_by : option nat
}.

Definition initial_client : Client := mkClient initial_gallery 0 [] None.

Inductive Event :=
| Start (reply : Reply) (table : list MediaItem)
| Arrive (n : nat).

Fixpoint take_response (n : nat) (l : list (nat * Response))
  : option (Response * list (nat * Response)) :=
  match l with
  | [] => None
  | (m, resp) :: l' =>
      if Nat.eqb m n then Some (resp, l')
      else
        match take_response n l' with
        | Some (found, rest) => Some (found, (m, resp) :: rest)
        | None => None
        end
  end.

Definition writes_snapshot (resp : Response) : bool :=
  match resp with
  | Data _ => true
  | _ => false
  end.

Section Fetching.

Variable query : Query.
Variable resume : Response -> Gallery -> Gallery.

Definition step (c : Client) (e : Event) : Client :=
  match e with
  | Start reply table =>
      mkClient (gallery c) (S (issued c))
        (in_flight c ++ [(issued c, table_select reply query table)])%list
        (shown_by c)
  | Arrive n =>
      match take_response n (in_flight c) with
      | Some (resp, rest) =>
          mkClient (resume resp (gallery c)) (issued c) rest
            (if writes_snapshot resp then Some n else shown_by c)
      | None => c
      end
  end.

Definition run_client (c : Client) (evs : list Event) : Client :=
  foldl step c evs.

(** The step lets the response of fetch [n] replace a snapshot written by a
    fetch started after [n]. *)
Definition stale_overwrite (c : Client) (e : Event) : bool :=
  match e with
  | Start _ _ => false
  | Arrive n =>
      match take_response n (in_flight c), shown_by c with
      | Some (resp, _), Some m => (writes_snapshot resp && Nat.ltb n m)%bool
      | _, _ => false
      end
  end.

Fixpoint never_stale (c : Client) (evs : list Event) : Prop :=
  match evs with
  | [] => True
  | e :: evs' => stale_overwrite c e = false /\ never_stale (step c e) evs'
  end.

End Fetching.

(** The fetch numbers of the responses, in order of arrival. *)
Fixpoint arrivals (evs : list Event) : list nat :=
  match evs with
  | [] => []
  | Arrive n :: evs' => n :: arrivals evs'
  | Start _ _ :: evs' => arrivals evs'
  end.

(** The responses to the fetches that [evs] starts, in the order of their
    start: fetch [n] is the [n]-th of them. *)
Fixpoint responses (query : Query) (evs : list Event) : list Response :=
  match evs with
  | [] => []
  | Start reply table :: evs' => table_select reply query table :: responses query evs'
  | Arrive _ :: evs' => responses query evs'
  end.

(** The snapshots that the arrivals of [evs] deliver, in order of arrival,
    each with the number of its fetch: a response delivers one when it is
    in flight and carries data.  [issued] fetches were started before, and
    [flight] holds the responses that are still on their way. *)
Fixpoint deliveries (query : Query) (issued : nat) (flight : list (nat * Response))
    (evs : list Event) : list (nat * list MediaItem) :=
  match evs with
  | [] => []
  | Start reply table :: evs' =>
      deliveries query (S issued)
        (flight ++ [(issued, table_select reply query table)]) evs'
  | Arrive n :: evs' =>
      match take_response n flight with
      | Some (Data data, rest) => (n, default [] data) :: deliveries query issued rest evs'
      | Some (_, rest) => deliveries query issued rest evs'
      | None => deliveries query issued flight evs'
      end
  end.

(** The snapshot a page shows after the deliveries [ds]. *)
Definition last_delivered (ds : list (nat * list MediaItem)) : list MediaItem :=
  match last ds with
  | Some (_, data) => data
  | None => []
  end.



(** ** Sequences of admin operations *)

Inductive AdminOp :=
| Upload (uploadForm : AdminMediaManager.UploadForm) (env : UploadEnv)
| Update (i : nat) (editForm : AdminMediaManager.EditForm) (reply : Reply)
| Delete (i : nat) (storagePath : option string) (storage_reply delete_reply : Reply)
| FileUpload (activeTab : MediaType) (newMedia : AdminMediaManager2.NewMedia)
    (env : UploadEnv)
| LinkSubmission (activeTab : MediaType) (newMedia : AdminMediaManager2.NewMedia)
    (now : Z) (reply : Reply)
| DeleteMedia (item : MediaItem) (delete_reply storage_reply thumbnail_reply : Reply)
| UpdateMedia (editingItem : option MediaItem) (reply : Reply).

Section Operations.

Variable getPublicUrl : string -> string.
Variable URL_parses : string -> bool.

Definition perform (op : AdminOp) (w : World) : Exit * World :=
  match op with
  | Upload uploadForm env =>
      AdminMediaManager.handleUpload getPublicUrl uploadForm env w
  | Update i editForm reply => AdminMediaManager.handleUpdate i editForm reply w
  | Delete i storagePath storage_reply delete_reply =>
      AdminMediaManager.handleDelete i storagePath storage_reply delete_reply w
  | FileUpload activeTab newMedia env =>
      AdminMediaManager2.handleFileUpload getPublicUrl activeTab newMedia env w
  | LinkSubmission activeTab newMedia now reply =>
      AdminMediaManager2.handleLinkSubmission URL_parses activeTab newMedia now reply w
  | DeleteMedia item delete_reply storage_reply thumbnail_reply =>
      AdminMediaManager2.handleDeleteMedia item delete_reply storage_reply
        thumbnail_reply w
  | UpdateMedia editingItem reply =>
      AdminMediaManager2.handleUpdateMedia editingItem reply w
  end.

Definition run_ops (ops : list AdminOp) (w : World) : World :=
  foldl (fun w op => snd (perform op w)) w ops.

End Operations.

(** ** Vocabulary of the properties *)

(** Identifiers handed out so far are below the table's next one. *)
Definition ids_assigned (w : World) : Prop :=
  Forall (fun r => id r < next_id w) (catalog w).

(** The columns an edit may write. *)
Definition editable_columns : list string :=
  [ "title"; "description"; "type_detail"; "name" ].

(** Two versions of a row that agree outside the editable columns. *)
Definition same_location (r r' : MediaItem) : Prop :=
  id r' = id r /\ url r' = url r /\ type r' = type r
  /\ created_at r' = created_at r /\ mediatype r' = mediatype r
  /\ isexternallink r' = isexternallink r /\ storagepath r' = storagepath r
  /\ video_thumbnail_url r' = video_thumbnail_url r
  /\ video_thumbnail_path r' = video_thumbnail_path r.

Definition is_storage_remove (c : Call) : bool :=
  match c with
  | StorageRemove _ => true
  | _ => false
  end.

Definition is_table_insert (c : Call) : bool :=
  match c with
  | TableInsert _ => true
  | _ => false
  end.

(** The updates among the calls: the id each selects and the document it
    sends. *)
Fixpoint updates_sent (cs : list Call) : list (nat * Doc) :=
  match cs with
  | [] => []
  | TableUpdate i d :: cs' => (i, d) :: updates_sent cs'
  | _ :: cs' => updates_sent cs'
  end.

(** The specification's reading of file validation: an allow-list and a
    size ceiling chosen by the kind of record being created. *)
Definition kind_allow_list (kind : MediaType) : list string :=
  match kind with
  | artwork => AdminMediaManager2.ALLOWED_IMAGE_TYPES
  | video => AdminMediaManager2.ALLOWED_VIDEO_TYPES
  end.

Definition kind_ceiling (kind : MediaType) : N :=
  match kind with
  | artwork => (10 * 1024 * 1024)%N
  | video => (100 * 1024 * 1024)%N
  end.

(** The fields of an edit form that are present. *)
Definition present_fields (editForm : AdminMediaManager.EditForm) : list string :=
  ((match AdminMediaManager.edit_title editForm with
    | Some _ => ["title"] | None => [] end)
   ++ (match AdminMediaManager.edit_description editForm with
       | Some _ => ["description"] | None => [] end)
   ++ (match AdminMediaManager.edit_type_detail editForm with
       | Some _ => ["type_detail"] | None => [] end)
   ++ (match AdminMediaManager.edit_name editForm with
       | Some _ => ["name"] | None => [] end))%list.

Definition empty_world : World := mkWorld [] 0 ∅ [] [] [].

(** A fetch result that is the whole matching set, newest first. *)
Definition complete_newest_first (kindFilter : option MediaType)
    (rows result : list MediaItem) : Prop :=
  result ≡ₚ List.filter (matches kindFilter) rows
  /\ StronglySorted newest_first result.

(** The handler changed neither the table nor issued an insert. *)
Definition no_row_inserted (w w' : World) : Prop :=
  catalog w' = catalog w /\ next_id w' = next_id w
  /\ List.filter is_table_insert (calls w') = List.filter is_table_insert (calls w).

(** The form of the second component gets past every check made before
    the upload starts. *)
Definition passes_validation (newMedia : AdminMediaManager2.NewMedia) (f : File)
  : Prop :=
  AdminMediaManager2.new_file newMedia = Some f
  /\ trim (AdminMediaManager2.new_title newMedia) <> ""
  /\ AdminMediaManager2.isValid (AdminMediaManager2.validateFile f false) = true
  /\ match AdminMediaManager2.new_thumbnailFile newMedia with
     | Some t => AdminMediaManager2.isValid (AdminMediaManager2.validateFile t true) = true
     | None => True
     end.

(** How the table may change between two worlds: rows keep their location
    columns, rows may disappear, and new rows take fresh identifiers. *)
Definition evolves (rows : list MediaItem) (n : nat)
    (rows' : list MediaItem) (n' : nat) : Prop :=
  n <= n'
  /\ Forall (fun r' => (n <= id r' < n')
                       \/ exists r, r ∈ rows /\ same_location r r') rows'.

Definition catalog_evolves (w w' : World) : Prop :=
  evolves (catalog w) (next_id w) (catalog w') (next_id w').

(** The operations that add an external link. *)
Definition is_link_creation (op : AdminOp) : bool :=
  match op with
  | Upload uploadForm _ => AdminMediaManager.form_isExternalLink uploadForm
  | LinkSubmission _ _ _ _ => true
  | _ => false
  end.

(** ** Sample data *)

Definition sample_video : MediaItem :=
  mkMediaItem 0 "clip.mp4" "https://cdn.example/videos/1_clip.mp4" "video/mp4"
    1000 (Some "Clip") (Some "") (Some "") video (Some false)
    (Some "videos/1_clip.mp4") None None.

Definition sample_cdn (path : string) : string := "https://cdn.example/" +:+ path.

Definition sample_png : File := mkFile "a.png" "image/png" (2 * 1024 * 1024).

Definition sample_artwork : MediaItem :=
  mkMediaItem 0 "a.png" "https://cdn.example/images/17_a.png" "image/png"
    1500 (Some "Dunes") (Some "") (Some "painting") artwork (Some false)
    (Some "images/17_a.png") None None.

(** One uploaded artwork: its row and its blob. *)
Definition sample_delete_world : World :=
  mkWorld [sample_artwork] 1 {[ "images/17_a.png" := sample_png ]} [] [] [].

(** The row of the artwork is gone, its blob is still in the bucket. *)
Definition sample_orphan_world : World :=
  mkWorld [] 1 {[ "images/17_a.png" := sample_png ]} [] [] [].

Definition sample_clip : File := mkFile "clip.mp4" "video/mp4" (50 * 1024 * 1024).

Definition sample_big_clip : File :=
  mkFile "long.mp4" "video/mp4" (150 * 1024 * 1024).

Definition sample_thumbnail : File := mkFile "cover.png" "image/png" (1024 * 1024).

Definition sample_env : UploadEnv :=
  mkUploadEnv 1700000000000 1700000000001 3000 Resolved Resolved Resolved.

(** The artwork tab of the second component with a video file selected. *)
Definition sample_clip_as_artwork : AdminMediaManager2.NewMedia :=
  AdminMediaManager2.mkNewMedia "Clip" "" "" ""
    AdminMediaManager2.image_link_type (Some sample_clip) None.

Definition sample_big_video : AdminMediaManager2.NewMedia :=
  AdminMediaManager2.mkNewMedia "Long" "" "" ""
    AdminMediaManager2.image_link_type (Some sample_big_clip) None.

(** The bucket refuses the main file. *)
Definition sample_upload_refused : UploadEnv :=
  mkUploadEnv 1700000000000 1700000000001 3000 (Rejected "quota exceeded")
    Resolved Resolved.

(** The bucket takes the main file and refuses the thumbnail. *)
Definition sample_thumbnail_refused : UploadEnv :=
  mkUploadEnv 1700000000000 1700000000001 3000 Resolved
    (Rejected "quota exceeded") Resolved.

(** The bucket takes the main file, and the upload of the thumbnail throws. *)
Definition sample_thumbnail_thrown : UploadEnv :=
  mkUploadEnv 1700000000000 1700000000001 3000 Resolved Thrown Resolved.

Definition sample_artwork_form : AdminMediaManager.UploadForm :=
  AdminMediaManager.mkUploadForm (Some sample_png) None "Dunes" "" "painting"
    artwork false "".

Definition sample_video_form : AdminMediaManager.UploadForm :=
  AdminMediaManager.mkUploadForm (Some sample_clip) (Some sample_thumbnail)
    "Clip" "" "" video false "".

Definition sample_new_artwork : AdminMediaManager2.NewMedia :=
  AdminMediaManager2.mkNewMedia "Dunes" "" "painting" ""
    AdminMediaManager2.image_link_type (Some sample_png) None.

Definition sample_new_video : AdminMediaManager2.NewMedia :=
  AdminMediaManager2.mkNewMedia "Clip" "" "" ""
    AdminMediaManager2.image_link_type (Some sample_clip) (Some sample_thumbnail).

(** A stand-in for the URL constructor: absolute https URLs parse. *)
Definition sample_URL_parses (url : string) : bool := String.prefix "https://" url.

Definition sample_link : AdminMediaManager2.NewMedia :=
  AdminMediaManager2.mkNewMedia "Talk" "" ""
    "https://youtube.com/watch?v=abc12345678"
    AdminMediaManager2.image_link_type None None.

Definition sample_link_op : AdminOp := LinkSubmission video sample_link 4000 Resolved.

(** What the admin does after adding the link: retitle it, upload a video
    with its thumbnail, delete the artwork. *)
Definition sample_followup : list AdminOp :=
  [ UpdateMedia
      (Some (mkMediaItem 1 "Talk" "https://youtube.com/watch?v=abc12345678"
               "image-link" 4000 (Some "Talk (2024)") (Some "recorded") (Some "")
               video (Some true) None None None))
      Resolved;
    FileUpload video sample_new_video sample_env;
    Delete 0 (Some "images/17_a.png") Resolved Resolved ].

(** A row after the fields present in an edit form have been written. *)
Definition with_edit (editForm : AdminMediaManager.EditForm) (r : MediaItem)
  : MediaItem :=
  mkMediaItem (id r)
    (default (name r) (AdminMediaManager.edit_name editForm))
    (url r) (type r) (created_at r)
    (match AdminMediaManager.edit_title editForm with
     | Some s => Some s | None => title r end)
    (match AdminMediaManager.edit_description editForm with
     | Some s => Some s | None => description r end)
    (match AdminMediaManager.edit_type_detail editForm with
     | Some s => Some s | None => type_detail r end)
    (mediatype r) (isexternallink r) (storagepath r)
    (video_thumbnail_url r) (video_thumbnail_path r).

(** A row after [handleUpdateMedia] has saved the item being edited. *)
Definition with_item_texts (t : string) (item r : MediaItem) : MediaItem :=
  mkMediaItem (id r) (name r) (url r) (type r) (created_at r)
    (Some (trim t))
    (Some (AdminMediaManager2.trimmed_or_empty (description item)))
    (Some (AdminMediaManager2.trimmed_or_empty (type_detail item)))
    (mediatype r) (isexternallink r) (storagepath r)
    (video_thumbnail_url r) (video_thumbnail_path r).

(** Applying [f] to the rows with identifier [i]. *)
Definition map_row (i : nat) (f : MediaItem -> MediaItem) (rows : list MediaItem)
  : list MediaItem :=
  map (fun r => if Nat.eqb (id r) i then f r else r) rows.

Definition ids_unique (w : World) : Prop := NoDup (map id (catalog w)).

Definition texts_present (r : MediaItem) : Prop :=
  is_Some (title r) /\ is_Some (description r) /\ is_Some (type_detail r).

Definition sample_titled_video : MediaItem :=
  mkMediaItem 7 "clip.mp4" "https://cdn.example/videos/5_clip.mp4" "video/mp4"
    5000 (Some "  Harbour ") (Some " at dawn ") (Some "") video (Some false)
    (Some "videos/5_clip.mp4") None None.

Definition sample_two_rows : World :=
  mkWorld [sample_artwork; sample_titled_video] 8
    {[ "images/17_a.png" := sample_png ]} [] [] [].

(** The invariants of the data model on one row: the texts are not NULL; an
    external link has no storage path and no thumbnail; an uploaded file has
    a storage path, and a thumbnail path only together with a thumbnail URL
    and only on a video. *)
Definition record_invariant (r : MediaItem) : Prop :=
  texts_present r
  /\ match isexternallink r with
     | Some true =>
         storagepath r = None /\ video_thumbnail_url r = None
         /\ video_thumbnail_path r = None
     | Some false =>
         is_Some (storagepath r)
         /\ (is_Some (video_thumbnail_path r) ->
             is_Some (video_thumbnail_url r) /\ mediatype r = video)
     | None => False
     end.

(** An edited row: same location columns, and texts that were not NULL are
    still not NULL. *)
Definition edited (r r' : MediaItem) : Prop :=
  same_location r r' /\ (texts_present r -> texts_present r').

(** The three ways in which the handlers change the table. *)
Inductive table_step : list MediaItem * nat -> list MediaItem * nat -> Prop :=
| step_insert (rows : list MediaItem) (n : nat) (r : MediaItem) :
    id r = n -> record_invariant r ->
    table_step (rows, n) ((rows ++ [r])%list, S n)
| step_edit (rows rows' : list MediaItem) (n : nat) :
    Forall2 edited rows rows' -> table_step (rows, n) (rows', n)
| step_delete (rows : list MediaItem) (n i : nat) :
    table_step (rows, n) (delete_rows i rows, n).

Definition acts_on_table (w w' : World) : Prop :=
  rtc table_step (catalog w, next_id w) (catalog w', next_id w').

(** The table of a world is well formed: identifiers are unique and below
    the next one, and every row keeps the invariants of the data model. *)
Definition table_ok (rows : list MediaItem) (n : nat) : Prop :=
  Forall (fun r => id r < n) rows /\ NoDup (map id rows)
  /\ Forall record_invariant rows.

Definition world_ok (w : World) : Prop := table_ok (catalog w) (next_id w).

(** The row inserted by [handleFileUpload] of the second component for the
    file [f] stored at [fileName], with or without a stored thumbnail. *)
Definition uploaded_row (getPublicUrl : string -> string) (activeTab : MediaType)
    (newMedia : AdminMediaManager2.NewMedia) (f : File) (i : nat) (now : Z)
    (fileName : string) (thumbnail : option string) : MediaItem :=
  mkMediaItem i (sanitize (fname f)) (getPublicUrl fileName) (ftype f) now
    (Some (trim (AdminMediaManager2.new_title newMedia)))
    (Some (trim (AdminMediaManager2.new_description newMedia)))
    (Some (match activeTab with
           | artwork => trim (AdminMediaManager2.new_type_detail newMedia)
           | video => ""
           end))
    activeTab (Some false) (Some fileName)
    (option_map getPublicUrl thumbnail) thumbnail.

(** The bucket after the main file and, possibly, a thumbnail were stored. *)
Definition bucket_with (b : gmap string File) (fileName : string) (f : File)
    (thumbnail : option (string * File)) : gmap string File :=
  match thumbnail with
  | Some (p, t) => <[p := t]> (<[fileName := f]> b)
  | None => <[fileName := f]> b
  end.

(** The bucket refuses nothing, the table refuses the row. *)
Definition sample_insert_refused : UploadEnv :=
  mkUploadEnv 1700000000000 1700000000001 3000 Resolved Resolved
    (Rejected "row-level security").

(** The bucket once [handleDeleteMedia] has removed the blobs of an item:
    the main file unless the item is an external link, and the thumbnail. *)
Definition without_blobs (item : MediaItem) (b : gmap string File)
  : gmap string File :=
  let b1 := match (if AdminMediaManager2.not_external item
                   then truthy (storagepath item) else None) with
            | Some p => delete p b
            | None => b
            end in
  match truthy (video_thumbnail_path item) with
  | Some t => delete t b1
  | None => b1
  end.

(** The line a refused removal leaves on the console: none when there is
    nothing to remove or the bucket answers without an error. *)
Definition refusal_line (line : string) (path : option string) (reply : Reply)
  : list string :=
  match path, reply with
  | Some _, Rejected _ => [line]
  | _, _ => []
  end.

(** A video uploaded with its thumbnail through the first component. *)
Definition sample_video_with_thumbnail : MediaItem :=
  mkMediaItem 0 "clip.mp4" "https://cdn.example/videos/1700000000000_clip.mp4"
    "video/mp4" 3000 (Some "Clip") (Some "") (Some "") video (Some false)
    (Some "videos/1700000000000_clip.mp4")
    (Some "https://cdn.example/thumbnails/1700000000001_thumbnail_cover.png")
    (Some "thumbnails/1700000000001_thumbnail_cover.png").

Definition sample_link_row : MediaItem :=
  mkMediaItem 1 "Talk" "https://youtube.com/watch?v=abc12345678" "video-link"
    4000 (Some "Talk") (Some "") (Some "") video (Some true) None None None.

Definition sample_huge_thumbnail : File :=
  mkFile "cover.png" "image/png" (6 * 1024 * 1024).

(** An artwork selected together with a thumbnail that is too large. *)
Definition sample_artwork_with_thumbnail : AdminMediaManager2.NewMedia :=
  AdminMediaManager2.mkNewMedia "Dunes" "" "painting" ""
    AdminMediaManager2.image_link_type (Some sample_png) (Some sample_huge_thumbnail).

Definition sample_bad_link : AdminMediaManager2.NewMedia :=
  AdminMediaManager2.mkNewMedia "Talk" "" "" "youtube.com/watch?v=abc12345678"
    AdminMediaManager2.video_link_type None None.

Definition sample_raw_link_form : AdminMediaManager.UploadForm :=
  AdminMediaManager.mkUploadForm None None "" "" "" video true "  not a url ".

(** A character the sanitiser lets through, or the underscore it writes. *)
Definition is_path_char (c : ascii) : bool :=
  (is_safe_char c || Ascii.eqb c "_")%bool.

Fixpoint string_forall (p : ascii -> bool) (s : string) : bool :=
  match s with
  | EmptyString => true
  | String c s' => (p c && string_forall p s')%bool
  end.

(** The operations that may store a file, and those that may remove one. *)
Definition is_file_upload (op : AdminOp) : bool :=
  match op with
  | Upload uploadForm _ => negb (AdminMediaManager.form_isExternalLink uploadForm)
  | FileUpload _ _ _ => true
  | _ => false
  end.

Definition is_delete (op : AdminOp) : bool :=
  match op with
  | Delete _ _ _ _ | DeleteMedia _ _ _ _ => true
  | _ => false
  end.

(** An external link whose tag names the other kind than its [mediatype]. *)
Definition mistagged (item : MediaItem) : bool :=
  (bool_decide (mediatype item = artwork) && external_with_tag "video-link" item
   || bool_decide (mediatype item = video) && external_with_tag "image-link" item)%bool.

(** Whether a view shows rows of the catalog. *)
Definition shows_rows (v : View) : bool :=
  match v with
  | Grid _ | EmptyText _ => true
  | _ => false
  end.

Definition sample_spaced_png : File := mkFile "a b.png" "image/png" 2048.

Definition sample_underscored_png : File := mkFile "a_b.png" "image/png" 4096.

Definition sample_uploads : list AdminOp :=
  [ sample_link_op; FileUpload video sample_new_video sample_env ].

Definition sample_deletes : list AdminOp :=
  [ sample_link_op; Delete 0 (Some "images/17_a.png") Resolved Resolved ].

Definition sample_failed_client : Client :=
  mkClient (mkGallery [] true (Some "Failed to load videos")) 1 [] None.

(** Every row held by the client, on screen or in a response still under
    way, is of kind [k]. *)
Definition rows_of_kind (k : MediaType) (rows : list MediaItem) : Prop :=
  Forall (fun r => mediatype r = k) rows.

Definition response_of_kind (k : MediaType) (resp : Response) : Prop :=
  match resp with
  | Data (Some rows) => rows_of_kind k rows
  | _ => True
  end.

Definition client_of_kind (k : MediaType) (c : Client) : Prop :=
  rows_of_kind k (mediaItems (gallery c))
  /\ Forall (fun nr => response_of_kind k (snd nr)) (in_flight c).

(** The table answers the fetch started by the event, if any, with an error. *)
Definition answered_with_error (e : Event) : bool :=
  match e with
  | Start (Rejected _) _ => true
  | Start _ _ => false
  | Arrive _ => true
  end.

Definition is_failure (resp : Response) : bool :=
  match resp with
  | Failure _ => true
  | _ => false
  end.

Definition sample_refused_fetches : list Event :=
  [ Start (Rejected "timeout") [sample_video]; Arrive 0;
    Start (Rejected "timeout") [sample_video]; Arrive 1 ].

(** The files held by the form pass [validateFile]. *)
Definition form_files_valid (newMedia : AdminMediaManager2.NewMedia) : Prop :=
  match AdminMediaManager2.new_file newMedia with
  | Some f => AdminMediaManager2.isValid (AdminMediaManager2.validateFile f false) = true
  | None => True
  end
  /\ match AdminMediaManager2.new_thumbnailFile newMedia with
     | Some t => AdminMediaManager2.isValid (AdminMediaManager2.validateFile t true) = true
     | None => True
     end.

Definition sample_form_events : list AdminMediaManager2.FormEvent :=
  [ AdminMediaManager2.FileSelect (Some sample_big_clip);
    AdminMediaManager2.ThumbnailSelect (Some sample_huge_thumbnail);
    AdminMediaManager2.TypeTitle "Harbour" ].

(** The bytes of ASCII, and a text that does not start inside a character. *)
Definition is_ascii (c : ascii) : bool := Nat.leb (nat_of_ascii c) 127.

Definition starts_plain (s : string) : bool :=
  match s with
  | String c _ => negb (is_continuation c)
  | EmptyString => true
  end.

(** The first unit of a text ([String a s1]), or its first two when they
    are one character, and the text after them. *)
Definition head_units (a : ascii) (s1 : string) : list string * string :=
  match s1 with
  | String b s2 =>
      if (is_lead2 a && is_continuation b)%bool then ([String a (String b "")], s2)
      else
        match s2 with
        | String c s3 =>
            if (is_lead3 a && is_continuation b && is_continuation c)%bool then
              ([String a (String b (String c ""))], s3)
            else
              match s3 with
              | String d s4 =>
                  if (is_lead4 a && is_continuation b && is_continuation c
                      && is_continuation d)%bool then
                    ([String a (String b ""); String c (String d "")], s4)
                  else ([String a ""], s1)
              | EmptyString => ([String a ""], s1)
              end
        | EmptyString => ([String a ""], s1)
        end
  | EmptyString => ([String a ""], s1)
  end.

(** A unit is one byte, or bytes that are not ASCII. *)
Definition unit_shape (u : string) : Prop :=
  match u with
  | EmptyString => False
  | String c EmptyString => True
  | String c _ => is_ascii c = false
  end.

(** The texts matched by an expression without groups and anchors. *)
Inductive star_of (L : list string -> Prop) : list string -> Prop :=
| star_nil : star_of L []
| star_app (s1 s2 : list string) :
    s1 <> [] -> L s1 -> star_of L s2 -> star_of L (s1 ++ s2).

Fixpoint lang (r : Regex) (s : list string) : Prop :=
  match r with
  | Eps => s = []
  | Chars p => exists u, s = [u] /\ p u = true
  | Seq r1 r2 => exists s1 s2, s = (s1 ++ s2)%list /\ lang r1 s1 /\ lang r2 s2
  | Alt r1 r2 => lang r1 s \/ lang r2 s
  | Star r1 => star_of (lang r1) s
  | Group _ r1 => lang r1 s
  | StartOfInput | EndOfInput => False
  end.

Fixpoint plain (r : Regex) : bool :=
  match r with
  | Eps | Chars _ => true
  | Seq r1 r2 | Alt r1 r2 => plain r1 && plain r2
  | Star r1 => plain r1
  | Group _ _ | StartOfInput | EndOfInput => false
  end.

(** What [p*] does before the continuation [k]: the longest run first. *)
Fixpoint greedy (p : string -> bool) (k : Continuation) (s : list string)
    (caps : Captures) : option Captures :=
  match s with
  | u :: s' =>
      if p u then
        match greedy p k s' caps with
        | Some result => Some result
        | None => k s caps
        end
      else k s caps
  | [] => k s caps
  end.

Fixpoint take_while (p : string -> bool) (s : list string) : list string :=
  match s with
  | u :: s' => if p u then u :: take_while p s' else []
  | [] => []
  end.

Fixpoint drop_while (p : string -> bool) (s : list string) : list string :=
  match s with
  | u :: s' => if p u then drop_while p s' else s
  | [] => []
  end.

(** The texts of the first group of [youtube_regExp], as units. *)
Definition is_youtube_marker (marker : list string) : Prop :=
  (exists u, dot u = true /\ marker = (units "youtu" ++ [u] ++ units "be/")%list)
  \/ marker = units "v/"
  \/ (exists u, in_class word u = true /\ marker = (units "u/" ++ [u] ++ units "/")%list)
  \/ marker = units "embed/"
  \/ marker = units "watch?v="
  \/ marker = units "&v=".

(** A marker starts the text, starts somewhere in it, starts after its
    first unit. *)
Definition marker_at (t : list string) : bool :=
  match match_at youtube_markers [] t with
  | Some _ => true
  | None => false
  end.

Fixpoint marker_within (t : list string) : bool :=
  (marker_at t
   || match t with
      | _ :: t' => marker_within t'
      | [] => false
      end)%bool.

Definition later_marker (t : list string) : bool :=
  match t with
  | _ :: t' => marker_within t'
  | [] => false
  end.

(** [local@domain.tld] without blanks and without a further [@], as the
    units of the address. *)
Definition well_formed_email (email : string) : Prop :=
  exists local domain tld,
    units email = (local ++ ["@"] ++ domain ++ ["."] ++ tld)%list
    /\ local <> [] /\ domain <> [] /\ tld <> []
    /\ forallb PurchaseEmailModal.email_char local = true
    /\ forallb PurchaseEmailModal.email_char domain = true
    /\ forallb PurchaseEmailModal.email_char tld = true.

(** The characters [encodeURIComponent] can produce. *)
Definition is_component_char (c : ascii) : bool :=
  (ContactForm.is_unreserved c || Ascii.eqb c "%")%bool.

Definition sample_watch_url : string :=
  "https://www.youtube.com/watch?v=dQw4w9WgXcQ&t=42s".

Definition sample_vimeo_url : string := "https://vimeo.com/channels/staffpicks/76979871".

(** U+00A0, the no-break space, and U+00E9, a letter outside ASCII. *)
Definition nbsp : string := bytes [194; 160].

Definition e_acute : string := bytes [195; 169].

(** An item being edited whose title was replaced by a no-break space. *)
Definition sample_nbsp_titled : MediaItem :=
  mkMediaItem 7 "clip.mp4" "https://cdn.example/videos/5_clip.mp4" "video/mp4"
    5000 (Some nbsp) (Some "") (Some "") video (Some false)
    (Some "videos/5_clip.mp4") None None.

(** A link whose title is a no-break space. *)
Definition sample_nbsp_link : AdminMediaManager2.NewMedia :=
  AdminMediaManager2.mkNewMedia nbsp "" "" "https://youtube.com/watch?v=abc12345678"
    AdminMediaManager2.video_link_type None None.

Definition sample_accented_png : File := mkFile (e_acute +:+ ".png") "image/png" 2048.

Definition sample_blank_png : File := mkFile "_.png" "image/png" 4096.

(** A link whose id is eleven times U+00E9: eleven code units, twenty-two
    bytes. *)
Definition sample_accented_id : string := join (replicate 11 e_acute).

Definition sample_accented_url : string := "https://youtu.be/" +:+ sample_accented_id.

Definition sample_props : PurchaseEmailModal.Props :=
  PurchaseEmailModal.mkProps "Dunes" "3" "Oil on canvas" None
    "https://cdn.example/artworks/2_a.png".

(** * Properties *)

(** ** Texts and their code units *)

Lemma append_nil_r (s : string) : s +:+ "" = s.
Proof. induction s as [|c s IH]; [done|]. cbv [String.append]. fold String.append. by rewrite IH. Qed.

Lemma append_cons (c : ascii) (s t : string) : String c s +:+ t = String c (s +:+ t).
Proof. reflexivity. Qed.

Lemma append_assoc (s t u : string) : (s +:+ t) +:+ u = s +:+ t +:+ u.
Proof. induction s as [|c s IH]; [done|]. by rewrite !append_cons, IH. Qed.

Lemma join_cons (u : string) (l : list string) : join (u :: l) = u +:+ join l.
Proof. reflexivity. Qed.

Lemma join_app (l1 l2 : list string) : join (l1 ++ l2)%list = join l1 +:+ join l2.
Proof.
  induction l1 as [|u l1 IH]; [done|]. cbn [join foldr app].
  fold (join (l1 ++ l2)%list). fold (join l1). by rewrite IH, append_assoc.
Qed.

(** Induction over the text, one step of [units] at a time. *)
Lemma units_ind (P : string -> Prop) :
  P "" ->
  (forall a s, (forall t, String.length t <= String.length s -> P t) -> P (String a s)) ->
  forall s, P s.
Proof.
  intros Hnil Hcons s.
  assert (forall n t, String.length t <= n -> P t) as H.
  { induction n as [|n IH]; intros [|a t] Hlen; try done; [cbn in Hlen; lia|].
    apply Hcons. intros t' Ht'. apply IH. cbn in Hlen. lia. }
  by apply (H (String.length s)).
Qed.


Lemma units_cons (a : ascii) (s1 : string) :
  units (String a s1) = ((head_units a s1).1 ++ units (head_units a s1).2)%list.
Proof.
  destruct s1 as [|b [|c [|d s4]]]; try reflexivity; unfold head_units;
    change (units (String a (String b ""))) with
      (if (is_lead2 a && is_continuation b)%bool then [String a (String b "")]
       else String a "" :: units (String b "")) ||
    change (units (String a (String b (String c "")))) with
      (if (is_lead2 a && is_continuation b)%bool
       then String a (String b "") :: units (String c "")
       else if (is_lead3 a && is_continuation b && is_continuation c)%bool
            then [String a (String b (String c ""))]
            else String a "" :: units (String b (String c ""))) ||
    change (units (String a (String b (String c (String d s4))))) with
      (if (is_lead2 a && is_continuation b)%bool
       then String a (String b "") :: units (String c (String d s4))
       else if (is_lead3 a && is_continuation b && is_continuation c)%bool
            then String a (String b (String c "")) :: units (String d s4)
            else if (is_lead4 a && is_continuation b && is_continuation c
                     && is_continuation d)%bool
                 then String a (String b "") :: String c (String d "") :: units s4
                 else String a "" :: units (String b (String c (String d s4))));
    repeat match goal with |- context [if ?b then _ else _] => destruct b end;
    reflexivity.
Qed.

Lemma head_units_join (a : ascii) (s1 : string) :
  String a s1 = join (head_units a s1).1 +:+ (head_units a s1).2.
Proof.
  destruct s1 as [|b [|c [|d s4]]]; unfold head_units;
    repeat match goal with |- context [if ?b then _ else _] => destruct b end;
    reflexivity.
Qed.

Lemma head_units_length (a : ascii) (s1 : string) :
  String.length (head_units a s1).2 <= String.length s1.
Proof.
  destruct s1 as [|b [|c [|d s4]]]; unfold head_units;
    repeat match goal with |- context [if ?b then _ else _] => destruct b end;
    cbn; lia.
Qed.

Lemma join_units (s : string) : join (units s) = s.
Proof.
  induction s as [|a s IH] using units_ind; [done|].
  rewrite units_cons, join_app, IH by apply head_units_length.
  symmetry. apply head_units_join.
Qed.

Lemma head_units_app (a : ascii) (s1 t : string) :
  starts_plain t = true ->
  head_units a (s1 +:+ t) = ((head_units a s1).1, (head_units a s1).2 +:+ t).
Proof.
  intros Ht. destruct t as [|e t].
  { rewrite !append_nil_r. by destruct (head_units a s1). }
  cbn [starts_plain] in Ht. apply negb_true_iff in Ht.
  destruct s1 as [|b [|c [|d s4]]]; rewrite ?append_cons;
    change ("" +:+ String e t) with (String e t); unfold head_units;
    rewrite ?Ht, ?andb_false_r;
    repeat match goal with |- context [if ?b then _ else _] => destruct b end;
    try reflexivity; by destruct t as [|f [|g t]].
Qed.

Lemma units_app (s t : string) :
  starts_plain t = true -> units (s +:+ t) = (units s ++ units t)%list.
Proof.
  intros Ht. induction s as [|a s IH] using units_ind; [done|].
  rewrite append_cons, !units_cons, head_units_app by done. cbn [fst snd].
  rewrite IH by apply head_units_length. by rewrite app_assoc.
Qed.

Lemma units_ascii (c : ascii) (s : string) :
  is_ascii c = true -> units (String c s) = String c "" :: units s.
Proof.
  intros Hc. rewrite units_cons.
  assert (is_lead2 c = false /\ is_lead3 c = false /\ is_lead4 c = false)
    as (H2 & H3 & H4).
  { unfold is_ascii, is_lead2, is_lead3, is_lead4 in *.
    apply Nat.leb_le in Hc. repeat split; rewrite ?andb_false_iff, ?Nat.leb_gt; lia. }
  destruct s as [|b [|c' [|d s4]]]; unfold head_units; rewrite ?H2, ?H3, ?H4; reflexivity.
Qed.

Lemma units_shape (s : string) : Forall unit_shape (units s).
Proof.
  induction s as [|a s IH] using units_ind; [constructor|].
  rewrite units_cons. apply Forall_app. split; [|apply IH, head_units_length].
  assert (forall c, is_continuation c = true -> is_ascii c = false) as Hcont.
  { intros c. unfold is_continuation, is_ascii.
    rewrite andb_true_iff, !Nat.leb_le, Nat.leb_gt. lia. }
  destruct s as [|b [|c [|d s4]]]; unfold head_units;
    repeat match goal with
      | |- context [if ?b then _ else _] => destruct b eqn:?
      end;
    repeat (apply Forall_cons; split); try apply Forall_nil; cbn; try done;
    repeat match goal with
      | H : (_ && _)%bool = true |- _ => apply andb_true_iff in H as [? ?]
      end;
    try (by apply Hcont);
    unfold is_lead2, is_lead3, is_lead4, is_ascii in *;
    repeat match goal with
      | H : (_ && _)%bool = true |- _ => apply andb_true_iff in H as [? ?]
      | H : Nat.leb _ _ = true |- _ => apply Nat.leb_le in H
      end; rewrite Nat.leb_gt; lia.
Qed.

(** The cuts at work: a letter of two bytes is one unit, a character of four
    bytes is two, a no-break space is trimmed, and the sanitiser writes one
    underscore for a letter outside ASCII and two for a surrogate pair. *)
Example units_by_example :
  units ("a" +:+ e_acute +:+ "b") = ["a"; e_acute; "b"]
  /\ length (units sample_accented_id) = 11
  /\ String.length sample_accented_id = 22
  /\ length (units (bytes [240; 159; 142; 168])) = 2
  /\ trim (nbsp +:+ " Dunes" +:+ nbsp) = "Dunes"
  /\ trim nbsp = ""
  /\ sanitize (e_acute +:+ ".png") = "_.png"
  /\ sanitize (bytes [240; 159; 142; 168] +:+ ".png") = "__.png".
Proof. repeat split; vm_compute; reflexivity. Qed.

(** ** JavaScript helpers *)

Lemma includes_true (xs : list string) (x : string) :
  includes xs x = true <-> x ∈ xs.
Proof.
  unfold includes. rewrite existsb_exists. split.
  - intros (y & Hy & Heq). apply String.eqb_eq in Heq. subst y.
    by apply list_elem_of_In.
  - intros Hx. exists x. split; [by apply list_elem_of_In | apply String.eqb_refl].
Qed.

Lemma includes_false (xs : list string) (x : string) :
  includes xs x = false <-> x ∉ xs.
Proof.
  rewrite <- includes_true. destruct (includes xs x); split; congruence.
Qed.

(** ** The table *)

Lemma same_location_refl (r : MediaItem) : same_location r r.
Proof. repeat split. Qed.

Lemma same_location_trans (r1 r2 r3 : MediaItem) :
  same_location r1 r2 -> same_location r2 r3 -> same_location r1 r3.
Proof.
  unfold same_location. intros H12 H23.
  destruct_and!. repeat split; congruence.
Qed.

Lemma set_col_id (r r' : MediaItem) (kv : string * Json) :
  set_col r kv = Some r' -> id r' = id r.
Proof.
  destruct kv as [k v]. unfold set_col.
  repeat case_match; intros; simplify_option_eq; reflexivity.
Qed.

Lemma apply_doc_id (d : Doc) (r r' : MediaItem) :
  apply_doc d r = Some r' -> id r' = id r.
Proof.
  revert r. induction d as [|kv d IH]; intros r H; simpl in H.
  - by simplify_eq.
  - destruct (set_col r kv) as [r1|] eqn:E; simpl in H; [|done].
    rewrite (IH _ H). by eapply set_col_id.
Qed.

Lemma set_col_editable (r r' : MediaItem) (k : string) (v : Json) :
  k ∈ editable_columns -> set_col r (k, v) = Some r' -> same_location r r'.
Proof.
  unfold editable_columns. intros Hk H.
  repeat (apply elem_of_cons in Hk as [->|Hk]); [..|by apply elem_of_nil in Hk];
    simpl in H; destruct v; simplify_option_eq; repeat split.
Qed.

Lemma apply_doc_editable (d : Doc) (r r' : MediaItem) :
  Forall (fun k => k ∈ editable_columns) (keys d) ->
  apply_doc d r = Some r' -> same_location r r'.
Proof.
  revert r. induction d as [|[k v] d IH]; intros r Hk H; cbn [apply_doc] in H.
  - simplify_eq. apply same_location_refl.
  - cbn [keys map fst] in Hk. apply Forall_cons in Hk as [Hk Hd].
    destruct (set_col r (k, v)) as [r1|] eqn:E; cbn [mbind option_bind] in H; [|done].
    eapply same_location_trans; [by eapply set_col_editable | by apply IH].
Qed.

Lemma update_rows_editable (i : nat) (d : Doc) (rows rows' : list MediaItem) :
  Forall (fun k => k ∈ editable_columns) (keys d) ->
  update_rows i d rows = Some rows' -> Forall2 same_location rows rows'.
Proof.
  intros Hk. revert rows'.
  induction rows as [|r rows IH]; intros rows' H; simpl in H.
  - simplify_eq. constructor.
  - destruct (Nat.eqb (id r) i) eqn:Ei.
    + destruct (apply_doc d r) as [r1|] eqn:E; simpl in H; [|done].
      destruct (update_rows i d rows) as [rest|]; simpl in H; [|done].
      simplify_eq. constructor; [by eapply apply_doc_editable | by apply IH].
    + simpl in H.
      destruct (update_rows i d rows) as [rest|]; simpl in H; [|done].
      simplify_eq. constructor; [apply same_location_refl | by apply IH].
Qed.

Lemma Forall2_same_location_refl (rows : list MediaItem) :
  Forall2 same_location rows rows.
Proof. induction rows; constructor; [apply same_location_refl | done]. Qed.

Lemma updates_sent_app (cs cs' : list Call) :
  updates_sent (cs ++ cs') = (updates_sent cs ++ updates_sent cs')%list.
Proof.
  induction cs as [|[] cs IH]; cbn [app updates_sent]; by rewrite ?IH.
Qed.

Lemma or_else_empty (s : string) : or_else s "" = s.
Proof. unfold or_else. by destruct (String.eqb_spec s "") as [->|]. Qed.

Lemma run_query_subset (q : Query) (rows : list MediaItem) (r : MediaItem) :
  r ∈ run_query q rows -> r ∈ rows.
Proof.
  unfold run_query, limit_rows, order_rows. intros H.
  assert (r ∈ List.filter (matches (q_eq_mediatype q)) rows) as Hf.
  { destruct (q_limit q) as [k|]; [apply elem_of_take in H as (j & H & _);
      apply list_elem_of_lookup_2 in H|];
      destruct (q_order_created_at q) as [[]|]; try done;
      by rewrite merge_sort_Permutation in H. }
  apply list_elem_of_In, filter_In in Hf as [Hf _]. by apply list_elem_of_In.
Qed.

(** ** Catalog client *)

Global Instance newest_first_trans : Transitive newest_first.
Proof. unfold newest_first. intros a b c. lia. Qed.

Global Instance newest_first_total : Total newest_first.
Proof. unfold newest_first. intros a b. lia. Qed.

Lemma run_query_unlimited (k : option MediaType) (rows : list MediaItem) :
  complete_newest_first k rows (run_query (mkQuery k (Some false) None) rows).
Proof.
  unfold complete_newest_first, run_query. simpl. split.
  - apply merge_sort_Permutation.
  - apply StronglySorted_merge_sort; apply _.
Qed.

(** C5. Every fetch of a gallery page and of the admin list, when the table
    answers, delivers all the rows of the requested kind (every row for the
    admin list), newest first: the queries carry no limit, and the delivered
    snapshot is the answer itself. *)
Theorem fetchAll_complete_newest_first (rows : list MediaItem) (g : Gallery) :
  let videos := run_query VideosPageGallery.query rows in
  let artworks := run_query WorkPageGallery.query rows in
  let all := run_query admin_query rows in
  (complete_newest_first (Some video) rows videos
   /\ q_limit VideosPageGallery.query = None
   /\ mediaItems (VideosPageGallery.fetchMediaItems_resume
                    (table_select Resolved VideosPageGallery.query rows) g) = videos)
  /\ (complete_newest_first (Some artwork) rows artworks
      /\ q_limit WorkPageGallery.query = None
      /\ mediaItems (WorkPageGallery.fetchMediaItems_resume
                       (table_select Resolved WorkPageGallery.query rows) g) = artworks)
  /\ (all ≡ₚ rows /\ StronglySorted newest_first all
      /\ q_limit admin_query = None
      /\ mediaItems (AdminList.fetchMediaItems_resume
                       (table_select Resolved admin_query rows) g) = all).
Proof.
  intros videos artworks all.
  pose proof (run_query_unlimited (Some video) rows) as Hv.
  pose proof (run_query_unlimited (Some artwork) rows) as Ha.
  pose proof (run_query_unlimited None rows) as [Hperm Hsorted].
  repeat split; try done; try apply Hv; try apply Ha.
  unfold all, admin_query. rewrite Hperm. simpl.
  clear. induction rows as [|r rows IH]; [done|]. simpl. by rewrite IH.
Qed.

Section Snapshot.

Variable query : Query.
Variable resume : Response -> Gallery -> Gallery.

Hypothesis resume_data :
  forall data g, mediaItems (resume (Data data) g) = default [] data.
Hypothesis resume_failure :
  forall resp g, writes_snapshot resp = false ->
                 mediaItems (resume resp g) = mediaItems g.

Lemma run_client_snapshot (evs : list Event) (c : Client) :
  mediaItems (gallery (run_client query resume c evs))
  = match last (deliveries query (issued c) (in_flight c) evs) with
    | Some (_, data) => data
    | None => mediaItems (gallery c)
    end.
Proof.
  revert c. induction evs as [|[reply table|n] evs IH]; intros c; [done| |].
  - change (run_client query resume c (Start reply table :: evs))
      with (run_client query resume (step query resume c (Start reply table)) evs).
    by rewrite IH.
  - change (run_client query resume c (Arrive n :: evs))
      with (run_client query resume (step query resume c (Arrive n)) evs).
    rewrite IH. cbn [step deliveries].
    destruct (take_response n (in_flight c)) as [[resp rest]|]; [|done].
    cbn [issued in_flight gallery].
    destruct resp as [data| |]; cbn [writes_snapshot];
      rewrite ?resume_failure by done; [|done..].
    rewrite last_cons. destruct (last (deliveries _ _ _ _)) as [[]|]; [done|].
    by rewrite resume_data.
Qed.

End Snapshot.

(** [shown_by] names the fetch of the last delivery. *)
Lemma run_client_shown_by (query : Query) (resume : Response -> Gallery -> Gallery)
    (evs : list Event) (c : Client) :
  shown_by (run_client query resume c evs)
  = match last (deliveries query (issued c) (in_flight c) evs) with
    | Some (n, _) => Some n
    | None => shown_by c
    end.
Proof.
  revert c. induction evs as [|[reply table|n] evs IH]; intros c; [done| |].
  - change (run_client query resume c (Start reply table :: evs))
      with (run_client query resume (step query resume c (Start reply table)) evs).
    by rewrite IH.
  - change (run_client query resume c (Arrive n :: evs))
      with (run_client query resume (step query resume c (Arrive n)) evs).
    rewrite IH. cbn [step deliveries].
    destruct (take_response n (in_flight c)) as [[resp rest]|]; [|done].
    cbn [issued in_flight shown_by].
    destruct resp as [data| |]; cbn [writes_snapshot]; [|done..].
    rewrite last_cons. by destruct (last (deliveries _ _ _ _)) as [[]|].
Qed.

Lemma take_response_Some (n : nat) (l : list (nat * Response)) (resp : Response)
    (rest : list (nat * Response)) :
  take_response n l = Some (resp, rest) ->
  (n, resp) ∈ l /\ forall x, x ∈ rest -> x ∈ l.
Proof.
  revert rest. induction l as [|[m r] l IH]; intros rest; [done|]. cbn [take_response].
  destruct (Nat.eqb_spec m n) as [->|Hne].
  - intros [= -> ->]. split; [apply elem_of_cons; left; reflexivity|].
    intros x Hx. apply elem_of_cons. right. exact Hx.
  - destruct (take_response n l) as [[found rest']|]; [|done].
    intros [= -> <-]. destruct (IH rest' eq_refl) as [Hin Hrest].
    split; [apply elem_of_cons; right; exact Hin|].
    intros x [->|Hx]%elem_of_cons; apply elem_of_cons;
      [left; reflexivity | right; exact (Hrest x Hx)].
Qed.

(** A delivery is the data of a response: of one in flight at the start, or
    of a fetch that [evs] starts. *)
Lemma deliveries_from (query : Query) (evs : list Event) :
  forall issued flight n data,
    (n, data) ∈ deliveries query issued flight evs ->
    (exists d, (n, Data d) ∈ flight /\ data = default [] d)
    \/ (exists d, issued <= n
                  /\ responses query evs !! (n - issued) = Some (Data d)
                  /\ data = default [] d).
Proof.
  induction evs as [|[reply table|m] evs IH]; intros issued flight n data;
    cbn [deliveries responses].
  - by intros ?%elem_of_nil.
  - intros [(d & Hin & ->)|(d & Hle & Hd & ->)]%IH.
    + apply elem_of_app in Hin as [Hin|Hin%list_elem_of_singleton]; [left; eauto|].
      injection Hin as -> Hd. right. exists d. rewrite Nat.sub_diag.
      split; [lia|]. split; [|done]. cbn. by rewrite Hd.
    + right. exists d. split; [lia|]. split; [|done].
      replace (n - issued) with (S (n - S issued)) by lia. done.
  - destruct (take_response m flight) as [[resp rest]|] eqn:E.
    + apply take_response_Some in E as [Hm Hrest].
      assert ((n, data) ∈ deliveries query issued rest evs ->
              (exists d, (n, Data d) ∈ flight /\ data = default [] d)
              \/ (exists d, issued <= n
                            /\ responses query evs !! (n - issued) = Some (Data d)
                            /\ data = default [] d)) as Hrec.
      { intros [(d & Hin & ->)|H]%IH; [left; exists d; split; [by apply Hrest|done]|].
        by right. }
      destruct resp as [d| |]; [|done..].
      intros [[= -> ->]|Hin]%elem_of_cons; [left; eauto | by apply Hrec].
    + apply IH.
Qed.

Lemma deliveries_arrive (query : Query) (evs : list Event) :
  forall issued flight n,
    n ∈ (deliveries query issued flight evs).*1 -> n ∈ arrivals evs.
Proof.
  induction evs as [|[reply table|m] evs IH]; intros issued flight n;
    cbn [deliveries arrivals]; [done|apply IH|].
  destruct (take_response m flight) as [[[d| |] rest]|];
    rewrite ?fmap_cons, ?elem_of_cons; cbn [fst];
    try (intros H%IH; by right).
  intros [->|H%IH]; [by left | by right].
Qed.

Lemma deliveries_in_order (query : Query) (evs : list Event) :
  forall issued flight,
    StronglySorted lt (arrivals evs) ->
    StronglySorted lt (deliveries query issued flight evs).*1.
Proof.
  induction evs as [|[reply table|m] evs IH]; intros issued flight;
    cbn [deliveries arrivals]; [constructor|apply IH|].
  intros [Hm Hsorted]%StronglySorted_cons.
  destruct (take_response m flight) as [[[d| |] rest]|]; try by apply IH.
  rewrite fmap_cons. apply StronglySorted_cons. split; [|by apply IH].
  apply Forall_forall. intros n Hn%deliveries_arrive.
  by eapply Forall_forall in Hm.
Qed.

(** C3, as the fetchers behave.  The three fetchers ([fetchMediaItems] of
    the video gallery, of the artwork gallery and of the admin list) write
    every response that carries data into the snapshot as it arrives, with
    no regard to when its fetch was started: after any sequence of fetches
    and arrivals the snapshot is the data of the response that arrived
    last (empty before the first).  Each such response is the answer to the
    fetch whose number it bears.  So when the responses arrive in the order
    in which their fetches were started, every write comes from a fetch
    started after all the fetches written before it, and the snapshot is
    never overwritten by the response of an earlier fetch. *)
Theorem snapshot_follows_arrival_order (evs : list Event) :
  let shown query resume :=
    mediaItems (gallery (run_client query resume initial_client evs)) in
  let delivered query := deliveries query 0 [] evs in
  shown VideosPageGallery.query VideosPageGallery.fetchMediaItems_resume
  = last_delivered (delivered VideosPageGallery.query)
  /\ shown WorkPageGallery.query WorkPageGallery.fetchMediaItems_resume
     = last_delivered (delivered WorkPageGallery.query)
  /\ shown admin_query AdminList.fetchMediaItems_resume
     = last_delivered (delivered admin_query)
  /\ (forall query n data,
         (n, data) ∈ delivered query ->
         exists d, responses query evs !! n = Some (Data d) /\ data = default [] d)
  /\ (StronglySorted lt (arrivals evs) ->
      forall query, StronglySorted lt (delivered query).*1).
Proof.
  cbv zeta. unfold last_delivered.
  split; [|split; [|split; [|split]]].
  - rewrite run_client_snapshot; [done|done|]. by intros [] g.
  - rewrite run_client_snapshot; [done|done|]. by intros [] g.
  - rewrite run_client_snapshot; [done|done|]. by intros [] g.
  - intros query n data [(d & []%elem_of_nil & _)|(d & _ & Hd & ->)]%deliveries_from.
    rewrite Nat.sub_0_r in Hd. by exists d.
  - intros Hsorted query. by apply deliveries_in_order.
Qed.

Lemma snapshot_follows_arrival_order_witness :
  let evs := [Start Resolved []; Start Resolved [sample_video]; Arrive 0; Arrive 1] in
  StronglySorted lt (arrivals evs)
  /\ deliveries VideosPageGallery.query 0 [] evs = [(0, []); (1, [sample_video])]
  /\ StronglySorted lt (deliveries VideosPageGallery.query 0 [] evs).*1
  /\ mediaItems (gallery (run_client VideosPageGallery.query
                            VideosPageGallery.fetchMediaItems_resume
                            initial_client evs))
     = [sample_video].
Proof.
  cbv zeta.
  assert (StronglySorted lt (arrivals [Start Resolved []; Start Resolved [sample_video];
                                       Arrive 0; Arrive 1])) as Hsorted.
  { cbn [arrivals]. repeat constructor. }
  pose proof (snapshot_follows_arrival_order
                [Start Resolved []; Start Resolved [sample_video]; Arrive 0; Arrive 1])
    as (Hshown & _ & _ & _ & Horder).
  split; [exact Hsorted|]. split; [reflexivity|].
  split; [exact (Horder Hsorted VideosPageGallery.query)|].
  rewrite Hshown. reflexivity.
Defined.

(** C3, as stated, fails.  The page is mounted on an empty table (fetch 0);
    a video is inserted and the change notification starts fetch 1; the
    answer of fetch 1 arrives first and shows the video; the answer of fetch
    0 arrives afterwards and replaces the snapshot with the empty list. *)
Lemma stale_fetch_overwrites_snapshot :
  let evs := [Start Resolved []; Start Resolved [sample_video]; Arrive 1; Arrive 0] in
  let run := run_client VideosPageGallery.query VideosPageGallery.fetchMediaItems_resume in
  mediaItems (gallery (run initial_client (take 3 evs))) = [sample_video]
  /\ shown_by (run initial_client (take 3 evs)) = Some 1
  /\ mediaItems (gallery (run initial_client evs)) = []
  /\ shown_by (run initial_client evs) = Some 0
  /\ ~ never_stale VideosPageGallery.query VideosPageGallery.fetchMediaItems_resume
         initial_client evs.
Proof.
  repeat split; try reflexivity.
  intros H. simpl in H. destruct H as (_ & _ & _ & H & _).
  vm_compute in H. discriminate H.
Qed.

(** ** Edits *)

Lemma keys_updateData (editForm : AdminMediaManager.EditForm) :
  keys (AdminMediaManager.updateData editForm) = present_fields editForm.
Proof.
  unfold AdminMediaManager.updateData, present_fields, keys.
  destruct editForm as [[?|] [?|] [?|] [?|]]; reflexivity.
Qed.

Lemma present_fields_editable (editForm : AdminMediaManager.EditForm) :
  Forall (fun k => k ∈ editable_columns) (present_fields editForm).
Proof.
  unfold present_fields, editable_columns.
  destruct editForm as [[?|] [?|] [?|] [?|]]; simpl;
    repeat constructor; set_solver.
Qed.

Lemma table_update_editable (reply : Reply) (i : nat) (d : Doc) (w : World) :
  Forall (fun k => k ∈ editable_columns) (keys d) ->
  let w' := snd (table_update reply i d w) in
  Forall2 same_location (catalog w) (catalog w')
  /\ next_id w' = next_id w /\ bucket w' = bucket w
  /\ calls w' = (calls w ++ [TableUpdate i d])%list.
Proof.
  intros Hk. unfold table_update. simpl.
  destruct reply; simpl; try (repeat split; apply Forall2_same_location_refl).
  destruct (update_rows i d (catalog w)) as [rows|] eqn:E; simpl.
  - repeat split. by eapply update_rows_editable.
  - repeat split. apply Forall2_same_location_refl.
Qed.

(** C8.  An edit sends only fields of its input, among title, description,
    type_detail and name, and leaves every other field of every record as
    it was.  [handleUpdate] sends one update that holds exactly the fields
    of the edit form that are not [undefined].  [handleUpdateMedia] edits a
    row object, which carries every column: it sends nothing when it
    refuses the edit (no item, or a title that is NULL or blank), and
    otherwise one update with the title, the description and the
    type_detail of that object, trimmed, the empty string for a NULL one;
    it never sends the name.  Whatever the table answers, every row keeps
    its id, url, type, creation time, mediatype, isexternallink, storage
    path and thumbnail fields, no row is added or removed, and the bucket
    is untouched. *)
Theorem edit_writes_editable_columns_only (w : World) :
  (forall i editForm reply,
      let w' := snd (AdminMediaManager.handleUpdate i editForm reply w) in
      updates_sent (calls w')
      = (updates_sent (calls w) ++ [(i, AdminMediaManager.updateData editForm)])%list
      /\ keys (AdminMediaManager.updateData editForm) = present_fields editForm
      /\ Forall (fun k => k ∈ editable_columns) (present_fields editForm)
      /\ Forall2 same_location (catalog w) (catalog w')
      /\ bucket w' = bucket w)
  /\ (forall editingItem reply,
         let w' := snd (AdminMediaManager2.handleUpdateMedia editingItem reply w) in
         (editingItem = None
          \/ (exists item,
                 editingItem = Some item
                 /\ (title item = None \/ exists t, title item = Some t /\ trim t = ""))
          -> calls w' = calls w)
         /\ (forall item t,
                editingItem = Some item -> title item = Some t -> trim t <> "" ->
                updates_sent (calls w')
                = (updates_sent (calls w)
                   ++ [(id item,
                        [ ("title", JString (trim t));
                          ("description",
                           JString (default "" (trim <$> description item)));
                          ("type_detail",
                           JString (default "" (trim <$> type_detail item))) ])])%list)
         /\ Forall2 same_location (catalog w) (catalog w')
         /\ bucket w' = bucket w).
Proof.
  split.
  - intros i editForm reply.
    pose proof (table_update_editable reply i (AdminMediaManager.updateData editForm) w)
      as H.
    rewrite keys_updateData in H. specialize (H (present_fields_editable _)).
    split; [|split; [apply keys_updateData|split; [apply present_fields_editable|]]].
    + unfold AdminMediaManager.handleUpdate.
      destruct (table_update reply i (AdminMediaManager.updateData editForm) w)
        as [[| |] w1]; cbn in *; destruct H as (_ & _ & _ & Hc);
        rewrite Hc, ?updates_sent_app; cbn; by rewrite ?app_nil_r.
    + unfold AdminMediaManager.handleUpdate.
      destruct (table_update reply i (AdminMediaManager.updateData editForm) w)
        as [[| |] w1]; cbn in *; by destruct H as (Hrows & _ & Hb & _).
  - intros editingItem reply. cbv zeta. split; [|split].
    + intros [->|(item & -> & [Ht|(t & Ht & Hblank)])]; [done| |];
        unfold AdminMediaManager2.handleUpdateMedia; rewrite Ht; [done|].
      by rewrite Hblank.
    + intros item t -> Ht Htitle. unfold AdminMediaManager2.handleUpdateMedia.
      rewrite Ht. apply String.eqb_neq in Htitle. rewrite Htitle.
      unfold AdminMediaManager2.updateData, AdminMediaManager2.trimmed_or_empty.
      assert (forall o : option string,
                 match o with Some s => or_else (trim s) "" | None => "" end
                 = default "" (trim <$> o)) as Hdefault
        by (intros [s|]; [apply or_else_empty | done]).
      rewrite !Hdefault.
      destruct (table_update reply _ _ _) as [[| |] w1] eqn:E;
        apply (f_equal snd) in E; cbn [snd] in E;
        pose proof (table_update_editable reply (id item)
                      [ ("title", JString (trim t));
                        ("description", JString (default "" (trim <$> description item)));
                        ("type_detail", JString (default "" (trim <$> type_detail item))) ]
                      (AdminMediaManager2.setUploadState status_uploading 0
                         "Updating media..." w)) as H;
        rewrite E in H; destruct H as (_ & _ & _ & Hc);
        try (unfold editable_columns; cbn; repeat constructor; set_solver);
        cbn; rewrite Hc, updates_sent_app; done.
    + destruct editingItem as [item|]; cbn;
        [|split; [apply Forall2_same_location_refl | done]].
      destruct (title item) as [t|]; cbn;
        [|split; [apply Forall2_same_location_refl | done]].
      destruct (String.eqb (trim t) ""); cbn;
        [split; [apply Forall2_same_location_refl | done]|].
      assert (Forall (fun k => k ∈ editable_columns)
                (keys (AdminMediaManager2.updateData t item))) as Hk.
      { unfold editable_columns. cbn. repeat constructor; set_solver. }
      pose proof (table_update_editable reply (id item)
                    (AdminMediaManager2.updateData t item)
                    (AdminMediaManager2.setUploadState status_uploading 0
                       "Updating media..." w) Hk) as H.
      destruct (table_update reply (id item) (AdminMediaManager2.updateData t item) _)
        as [[| |] w1]; cbn in *; by destruct H as (Hrows & _ & Hb & _).
Qed.

(** ** Deletion *)

(** [handleDeleteMedia] deletes the row first: when the table does not
    delete it, no blob is removed and nothing changes in either store. *)
Lemma handleDeleteMedia_row_first (item : MediaItem)
    (delete_reply storage_reply thumbnail_reply : Reply) (w : World) :
  delete_reply <> Resolved ->
  let result := AdminMediaManager2.handleDeleteMedia item delete_reply
                  storage_reply thumbnail_reply w in
  (exists msg, fst result = PersistFailed msg \/ fst result = Caught msg)
  /\ calls (snd result) = (calls w ++ [TableDelete (id item)])%list
  /\ List.filter is_storage_remove (calls (snd result))
     = List.filter is_storage_remove (calls w)
  /\ bucket (snd result) = bucket w
  /\ catalog (snd result) = catalog w.
Proof.
  intros Hr. unfold AdminMediaManager2.handleDeleteMedia, table_delete.
  destruct delete_reply as [|msg|]; [done| |]; simpl;
    rewrite List.filter_app, app_nil_r; eauto 10.
Qed.

(** After the row is deleted, [handleDeleteMedia] reports success whatever
    happens to the blobs, unless a removal throws. *)
Lemma handleDeleteMedia_best_effort (item : MediaItem)
    (storage_reply thumbnail_reply : Reply) (w : World) :
  storage_reply <> Thrown -> thumbnail_reply <> Thrown ->
  let result := AdminMediaManager2.handleDeleteMedia item Resolved
                  storage_reply thumbnail_reply w in
  fst result = Completed
  /\ catalog (snd result) = delete_rows (id item) (catalog w).
Proof.
  intros H1 H2. unfold AdminMediaManager2.handleDeleteMedia, table_delete,
    storage_remove. simpl.
  destruct (AdminMediaManager2.not_external item), (truthy (storagepath item)),
    (truthy (video_thumbnail_path item)), storage_reply, thumbnail_reply;
    simpl; done.
Qed.

(** [handleDelete] issues the blob removal before it touches the table. *)
Lemma handleDelete_storage_first (i : nat) (p : string)
    (storage_reply delete_reply : Reply) (w : World) :
  p <> "" ->
  exists rest,
    calls (snd (AdminMediaManager.handleDelete i (Some p) storage_reply
                  delete_reply w))
    = (calls w ++ StorageRemove [p] :: rest)%list.
Proof.
  intros Hp. unfold AdminMediaManager.handleDelete, truthy.
  apply String.eqb_neq in Hp. rewrite Hp.
  unfold storage_remove, table_delete.
  destruct storage_reply, delete_reply; simpl;
    rewrite <- ?app_assoc; simpl; eauto.
Qed.

(** C1 at a failing input.  [handleDelete] is asked to delete an uploaded
    artwork and the table refuses the row deletion: the blob has already
    been removed, the row stays, and the handler reports the failure. *)
Theorem handleDelete_removes_blob_before_row :
  let result := AdminMediaManager.handleDelete 0 (Some "images/17_a.png")
                  Resolved (Rejected "permission denied") sample_delete_world in
  fst result = PersistFailed "permission denied"
  /\ calls (snd result) = [StorageRemove ["images/17_a.png"]; TableDelete 0]
  /\ bucket sample_delete_world !! "images/17_a.png" = Some sample_png
  /\ bucket (snd result) !! "images/17_a.png" = None
  /\ catalog (snd result) = [sample_artwork].
Proof. repeat split; reflexivity. Qed.

(** C9 at a failing input.  [handleDelete] is called with an id the table
    does not hold and the path of a blob the bucket still holds.  The blob
    is removed before the table is asked: when the table answers with an
    error the failure is reported but the bucket has changed, and when it
    answers without one (no row matched) the deletion is reported as
    successful. *)
Theorem handleDelete_unknown_id_changes_bucket :
  let refused := AdminMediaManager.handleDelete 42 (Some "images/17_a.png")
                   Resolved (Rejected "no such row") sample_orphan_world in
  let accepted := AdminMediaManager.handleDelete 42 (Some "images/17_a.png")
                    Resolved Resolved sample_orphan_world in
  Forall (fun r => id r <> 42) (catalog sample_orphan_world)
  /\ bucket sample_orphan_world !! "images/17_a.png" = Some sample_png
  /\ fst refused = PersistFailed "no such row"
  /\ bucket (snd refused) !! "images/17_a.png" = None
  /\ catalog (snd refused) = catalog sample_orphan_world
  /\ fst accepted = Completed
  /\ bucket (snd accepted) !! "images/17_a.png" = None.
Proof. repeat split; try reflexivity. constructor. Qed.

(** ** Uploads *)

Lemma validateFile_rejects (f : File) :
  ftype f ∉ AdminMediaManager2.ALL_ALLOWED_TYPES
  \/ (ftype f ∈ AdminMediaManager2.ALLOWED_IMAGE_TYPES
      /\ (AdminMediaManager2.MAX_IMAGE_SIZE < fsize f)%N)
  \/ (ftype f ∈ AdminMediaManager2.ALLOWED_VIDEO_TYPES
      /\ (AdminMediaManager2.MAX_VIDEO_SIZE < fsize f)%N) ->
  AdminMediaManager2.isValid (AdminMediaManager2.validateFile f false) = false.
Proof.
  intros H. unfold AdminMediaManager2.validateFile. cbv zeta.
  destruct (includes AdminMediaManager2.ALL_ALLOWED_TYPES (ftype f)) eqn:Eall;
    cbn [negb]; [|reflexivity].
  destruct H as [H|[[Hi Hs]|[Hv Hs]]].
  - apply includes_false in H. congruence.
  - apply includes_true in Hi. apply N.ltb_lt in Hs. rewrite Hi, Hs. reflexivity.
  - apply includes_true in Hv. apply N.ltb_lt in Hs. rewrite Hv, Hs.
    destruct (includes AdminMediaManager2.ALLOWED_IMAGE_TYPES (ftype f)
              && (AdminMediaManager2.MAX_IMAGE_SIZE <? fsize f)%N)%bool;
      reflexivity.
Qed.

(** C2, as the second component behaves.  A file whose type is in neither
    allow-list, or an image over 10 MB, or a video over 100 MB, is refused
    before any remote call: no blob is written and no row is inserted.  The
    allow-list and the ceiling follow the type of the file, not the tab that
    chooses the kind of the record. *)
Theorem handleFileUpload_refuses_before_network (getPublicUrl : string -> string)
    (activeTab : MediaType) (newMedia : AdminMediaManager2.NewMedia)
    (env : UploadEnv) (w : World) (f : File) :
  AdminMediaManager2.new_file newMedia = Some f ->
  ftype f ∉ AdminMediaManager2.ALL_ALLOWED_TYPES
  \/ (ftype f ∈ AdminMediaManager2.ALLOWED_IMAGE_TYPES /\ (10 * 1024 * 1024 < fsize f)%N)
  \/ (ftype f ∈ AdminMediaManager2.ALLOWED_VIDEO_TYPES /\ (100 * 1024 * 1024 < fsize f)%N) ->
  let result := AdminMediaManager2.handleFileUpload getPublicUrl activeTab
                  newMedia env w in
  (exists reason, fst result = Invalid reason)
  /\ calls (snd result) = calls w
  /\ bucket (snd result) = bucket w
  /\ catalog (snd result) = catalog w.
Proof.
  intros Hf Hbad. apply validateFile_rejects in Hbad.
  unfold AdminMediaManager2.handleFileUpload. rewrite Hf.
  destruct (String.eqb (trim (AdminMediaManager2.new_title newMedia)) "");
    [simpl; eauto|].
  rewrite Hbad. simpl. eauto.
Qed.

Lemma handleFileUpload_refuses_before_network_witness :
  let result := AdminMediaManager2.handleFileUpload sample_cdn video
                  sample_big_video sample_env empty_world in
  (exists reason, fst result = Invalid reason)
  /\ calls (snd result) = calls empty_world
  /\ bucket (snd result) = bucket empty_world
  /\ catalog (snd result) = catalog empty_world.
Proof.
  apply (handleFileUpload_refuses_before_network sample_cdn video
           sample_big_video sample_env empty_world sample_big_clip).
  - reflexivity.
  - right. right. split.
    + apply includes_true. reflexivity.
    + reflexivity.
Defined.

(** C2, as stated, fails.  On the artwork tab a 50 MB video/mp4 file is not
    in the image allow-list and is over the 10 MB ceiling of artworks, yet it
    passes validation: the blob is written and an artwork row is inserted. *)
Lemma artwork_upload_accepts_video_file :
  let result := AdminMediaManager2.handleFileUpload sample_cdn artwork
                  sample_clip_as_artwork sample_env empty_world in
  (ftype sample_clip ∉ kind_allow_list artwork)
  /\ (kind_ceiling artwork < fsize sample_clip)%N
  /\ fst result = Completed
  /\ bucket (snd result) !! "artworks/1700000000000_clip.mp4" = Some sample_clip
  /\ map (fun r => (mediatype r, type r, storagepath r)) (catalog (snd result))
     = [(artwork, "video/mp4", Some "artworks/1700000000000_clip.mp4")]
  /\ map is_table_insert (calls (snd result)) = [false; true].
Proof.
  repeat split; try reflexivity.
  apply includes_false. reflexivity.
Qed.

(** The first component uploads without validating: a 150 MB video is
    written to the bucket and its row inserted. *)
Lemma first_component_uploads_unvalidated :
  let uploadForm := AdminMediaManager.mkUploadForm (Some sample_big_clip) None
                      "Long" "" "" video false "" in
  let result := AdminMediaManager.handleFileUpload sample_cdn uploadForm
                  sample_env empty_world in
  fst result = Completed
  /\ bucket (snd result) !! "videos/1700000000000_long.mp4" = Some sample_big_clip
  /\ length (catalog (snd result)) = 1.
Proof. repeat split; reflexivity. Qed.

Lemma new_row_mediaData (getPublicUrl : string -> string)
    (uploadForm : AdminMediaManager.UploadForm) (f : File) (filePath : string)
    (thumbnailUrl thumbnailPath : option string) (i : nat) (now : Z) :
  new_row i now (AdminMediaManager.mediaData getPublicUrl uploadForm f filePath
                   thumbnailUrl thumbnailPath)
  = Some (mkMediaItem i (fname f) (getPublicUrl filePath) (ftype f) now
            (Some (or_else (AdminMediaManager.form_title uploadForm) (fname f)))
            (Some (or_else (AdminMediaManager.form_description uploadForm) ""))
            (Some (or_else (AdminMediaManager.form_type_detail uploadForm) ""))
            (AdminMediaManager.form_mediatype uploadForm) (Some false)
            (Some filePath) thumbnailUrl thumbnailPath).
Proof.
  destruct uploadForm as [? ? ? ? ? [] ? ?], thumbnailUrl, thumbnailPath;
    reflexivity.
Qed.

Lemma new_row_mediaDoc (getPublicUrl : string -> string) (activeTab : MediaType)
    (newMedia : AdminMediaManager2.NewMedia) (f : File) (fileName : string)
    (thumbnailUrl thumbnailPath : option string) (i : nat) (now : Z) :
  new_row i now (AdminMediaManager2.mediaDoc getPublicUrl activeTab newMedia f
                   fileName thumbnailUrl thumbnailPath)
  = Some (mkMediaItem i (sanitize (fname f)) (getPublicUrl fileName) (ftype f) now
            (Some (trim (AdminMediaManager2.new_title newMedia)))
            (Some (trim (AdminMediaManager2.new_description newMedia)))
            (Some (match activeTab with
                   | artwork => trim (AdminMediaManager2.new_type_detail newMedia)
                   | video => ""
                   end))
            activeTab (Some false) (Some fileName) thumbnailUrl thumbnailPath).
Proof. destruct activeTab, thumbnailUrl, thumbnailPath; reflexivity. Qed.

Lemma new_row_linkData (uploadForm : AdminMediaManager.UploadForm)
    (i : nat) (now : Z) :
  new_row i now (AdminMediaManager.linkData uploadForm)
  = Some (mkMediaItem i
            (or_else (AdminMediaManager.form_title uploadForm) "External Link")
            (AdminMediaManager.form_externalUrl uploadForm)
            (match AdminMediaManager.form_mediatype uploadForm with
             | video => "video-link"
             | artwork => "image-link"
             end) now
            (Some (or_else (AdminMediaManager.form_title uploadForm) "External Link"))
            (Some (or_else (AdminMediaManager.form_description uploadForm) ""))
            (Some (or_else (AdminMediaManager.form_type_detail uploadForm) ""))
            (AdminMediaManager.form_mediatype uploadForm) (Some true)
            None None None).
Proof. destruct uploadForm as [? ? ? ? ? [] ? ?]; reflexivity. Qed.

Lemma new_row_linkDoc (activeTab : MediaType)
    (newMedia : AdminMediaManager2.NewMedia) (i : nat) (now : Z) :
  new_row i now (AdminMediaManager2.linkDoc activeTab newMedia)
  = Some (mkMediaItem i (trim (AdminMediaManager2.new_title newMedia))
            (trim (AdminMediaManager2.new_externalUrl newMedia))
            (match AdminMediaManager2.new_linkType newMedia with
             | AdminMediaManager2.image_link_type => "image-link"
             | AdminMediaManager2.video_link_type => "video-link"
             end) now
            (Some (trim (AdminMediaManager2.new_title newMedia)))
            (Some (trim (AdminMediaManager2.new_description newMedia)))
            (Some (match activeTab with
                   | artwork => trim (AdminMediaManager2.new_type_detail newMedia)
                   | video => ""
                   end))
            activeTab (Some true) None None None).
Proof.
  destruct activeTab, newMedia as [? ? ? ? [] ? ?]; reflexivity.
Qed.

Lemma filter_insert_app (cs : list Call) (c : Call) :
  is_table_insert c = false ->
  List.filter is_table_insert (cs ++ [c]) = List.filter is_table_insert cs.
Proof.
  intros Hc. rewrite List.filter_app. simpl. rewrite Hc. apply app_nil_r.
Qed.

(** C6. When the bucket does not take the main file, the upload stops: the
    handler reports the error of the bucket ([UploadFailed], or the [catch]
    block when the call throws), the table is unchanged and no insert is
    issued.  This holds for [handleFileUpload] of both components. *)
Theorem failed_main_upload_inserts_nothing (getPublicUrl : string -> string)
    (env : UploadEnv) (w : World) (f : File) :
  (forall uploadForm,
      AdminMediaManager.form_file uploadForm = Some f ->
      let answer := upload_answer (upload_reply env)
                      (AdminMediaManager.filePath_of uploadForm f (date_now env))
                      (bucket w) in
      answer <> Resolved ->
      let result := AdminMediaManager.handleFileUpload getPublicUrl uploadForm env w in
      (forall msg, answer = Rejected msg -> fst result = UploadFailed msg)
      /\ (answer = Thrown -> fst result = Caught "Upload failed")
      /\ no_row_inserted w (snd result)
      /\ bucket (snd result) = bucket w)
  /\ (forall activeTab newMedia,
         passes_validation newMedia f ->
         let answer := upload_answer (upload_reply env)
                         (AdminMediaManager2.fileName_of activeTab f (date_now env))
                         (bucket w) in
         answer <> Resolved ->
         let result := AdminMediaManager2.handleFileUpload getPublicUrl activeTab
                         newMedia env w in
         (forall msg, answer = Rejected msg -> fst result = UploadFailed msg)
         /\ (answer = Thrown -> fst result = Caught "Failed to upload. Please try again.")
         /\ no_row_inserted w (snd result)
         /\ bucket (snd result) = bucket w).
Proof.
  split.
  - intros uploadForm Hf answer Ha result. subst result.
    unfold AdminMediaManager.handleFileUpload. rewrite Hf.
    unfold storage_upload. cbn [bucket log_call]. fold answer.
    destruct answer as [|m|]; [done| |]; cbn; unfold no_row_inserted; cbn;
      rewrite filter_insert_app by done; repeat split; try done;
      intros; by simplify_eq.
  - intros activeTab newMedia (Hf & Ht & Hv & Hth) answer Ha result. subst result.
    unfold AdminMediaManager2.handleFileUpload. rewrite Hf.
    apply String.eqb_neq in Ht. rewrite Ht, Hv. cbn [negb].
    assert (AdminMediaManager2.isValid
              match AdminMediaManager2.new_thumbnailFile newMedia with
              | Some t => AdminMediaManager2.validateFile t true
              | None => AdminMediaManager2.valid
              end = true) as ->.
    { destruct (AdminMediaManager2.new_thumbnailFile newMedia); done. }
    cbn [negb]. unfold AdminMediaManager2.upload_validated, storage_upload.
    cbn [bucket log_call AdminMediaManager2.setUploadState
           AdminMediaManager2.setError show]. fold answer.
    destruct answer as [|m|]; [done| |]; cbn; unfold no_row_inserted; cbn;
      rewrite filter_insert_app by done; repeat split; try done;
      intros; by simplify_eq.
Qed.

Lemma failed_main_upload_inserts_nothing_witness :
  (fst (AdminMediaManager.handleFileUpload sample_cdn sample_artwork_form
          sample_upload_refused empty_world) = UploadFailed "quota exceeded"
   /\ no_row_inserted empty_world
        (snd (AdminMediaManager.handleFileUpload sample_cdn sample_artwork_form
                sample_upload_refused empty_world)))
  /\ (fst (AdminMediaManager2.handleFileUpload sample_cdn artwork sample_new_artwork
             sample_upload_refused empty_world) = UploadFailed "quota exceeded"
      /\ no_row_inserted empty_world
           (snd (AdminMediaManager2.handleFileUpload sample_cdn artwork
                   sample_new_artwork sample_upload_refused empty_world))).
Proof.
  destruct (failed_main_upload_inserts_nothing sample_cdn sample_upload_refused
              empty_world sample_png) as [H1 H2].
  split.
  - destruct (H1 sample_artwork_form eq_refl) as (Hm & _ & Hn & _).
    + vm_compute. discriminate.
    + split; [apply Hm; reflexivity | exact Hn].
  - assert (passes_validation sample_new_artwork sample_png) as Hp.
    { repeat split; try reflexivity. vm_compute. discriminate. }
    destruct (H2 artwork sample_new_artwork Hp) as (Hm & _ & Hn & _).
    + vm_compute. discriminate.
    + split; [apply Hm; reflexivity | exact Hn].
Defined.

(** C7, as the handlers behave.  A video is uploaded with a thumbnail and
    the bucket has taken the video.  When the bucket answers the thumbnail
    upload with an error, the handler writes the error to the console and
    goes on: it inserts the row of the video with a NULL thumbnail URL and
    a NULL thumbnail path, and completes.  When the thumbnail upload throws
    instead, the [catch] of the handler runs: the exception is written to
    the console, no row is inserted and no insert is attempted, and the
    video stays in the bucket.  This holds for [handleFileUpload] of both
    components. *)
Theorem failed_thumbnail_upload_is_not_fatal (getPublicUrl : string -> string)
    (env : UploadEnv) (w : World) (f t : File) :
  insert_reply env = Resolved ->
  (forall uploadForm,
      AdminMediaManager.form_file uploadForm = Some f ->
      AdminMediaManager.form_thumbnailFile uploadForm = Some t ->
      AdminMediaManager.form_mediatype uploadForm = video ->
      let filePath := AdminMediaManager.filePath_of uploadForm f (date_now env) in
      upload_answer (upload_reply env) filePath (bucket w) = Resolved ->
      let answer :=
        upload_answer (thumbnail_reply env)
          (AdminMediaManager.thumbnailFilePath_of t (date_now_thumbnail env))
          (<[filePath := f]> (bucket w)) in
      let result := AdminMediaManager.handleFileUpload getPublicUrl uploadForm env w in
      (forall msg,
          answer = Rejected msg ->
          fst result = Completed
          /\ (exists r, catalog (snd result) = (catalog w ++ [r])%list
                        /\ mediatype r = video /\ storagepath r = Some filePath
                        /\ video_thumbnail_url r = None
                        /\ video_thumbnail_path r = None)
          /\ console (snd result) = (console w ++ ["Error uploading thumbnail:"])%list
          /\ bucket (snd result) = <[filePath := f]> (bucket w))
      /\ (answer = Thrown ->
          fst result = Caught "Upload failed"
          /\ catalog (snd result) = catalog w
          /\ List.filter is_table_insert (calls (snd result))
             = List.filter is_table_insert (calls w)
          /\ console (snd result) = (console w ++ ["Error during upload:"])%list
          /\ bucket (snd result) = <[filePath := f]> (bucket w)))
  /\ (forall newMedia,
         passes_validation newMedia f ->
         AdminMediaManager2.new_thumbnailFile newMedia = Some t ->
         let fileName := AdminMediaManager2.fileName_of video f (date_now env) in
         upload_answer (upload_reply env) fileName (bucket w) = Resolved ->
         let answer :=
           upload_answer (thumbnail_reply env)
             (AdminMediaManager2.thumbnailFileName_of t (date_now env))
             (<[fileName := f]> (bucket w)) in
         let result := AdminMediaManager2.handleFileUpload getPublicUrl video
                         newMedia env w in
         (forall msg,
             answer = Rejected msg ->
             fst result = Completed
             /\ (exists r, catalog (snd result) = (catalog w ++ [r])%list
                           /\ mediatype r = video /\ storagepath r = Some fileName
                           /\ video_thumbnail_url r = None
                           /\ video_thumbnail_path r = None)
             /\ console (snd result) = (console w ++ ["Thumbnail upload error:"])%list
             /\ bucket (snd result) = <[fileName := f]> (bucket w))
         /\ (answer = Thrown ->
             fst result = Caught "Failed to upload. Please try again."
             /\ catalog (snd result) = catalog w
             /\ List.filter is_table_insert (calls (snd result))
                = List.filter is_table_insert (calls w)
             /\ console (snd result) = (console w ++ ["Upload error:"])%list
             /\ bucket (snd result) = <[fileName := f]> (bucket w))).
Proof.
  intros Hins. split.
  - intros uploadForm Hf Ht Hm filePath Hmain answer result. subst answer result.
    unfold AdminMediaManager.handleFileUpload. rewrite Hf, Ht, Hm.
    fold filePath. unfold storage_upload.
    cbn [bucket log_call]. rewrite Hmain.
    cbn [bucket log_call with_bucket]. split.
    + intros msg Hthumb. rewrite Hthumb.
      unfold table_insert. rewrite Hins.
      cbn [next_id log_call AdminMediaManager.showNotification show console_error
             with_bucket].
      rewrite new_row_mediaData. cbn. rewrite Hm. eauto 10.
    + intros Hthumb. rewrite Hthumb. cbn.
      rewrite !List.filter_app. cbn. by rewrite !app_nil_r.
  - intros newMedia (Hf & Htitle & Hv & Hth) Ht fileName Hmain answer result.
    subst answer result. unfold AdminMediaManager2.handleFileUpload. rewrite Hf.
    apply String.eqb_neq in Htitle. rewrite Htitle, Hv. rewrite Ht in Hth |- *.
    rewrite Hth. cbn [negb].
    unfold AdminMediaManager2.upload_validated. rewrite Ht. fold fileName.
    unfold storage_upload.
    cbn [bucket log_call AdminMediaManager2.setUploadState
           AdminMediaManager2.setError show].
    rewrite Hmain.
    cbn [bucket log_call with_bucket AdminMediaManager2.setUploadState show]. split.
    + intros msg Hthumb. rewrite Hthumb.
      unfold table_insert. rewrite Hins.
      cbn [next_id log_call AdminMediaManager2.setUploadState show console_error
             with_bucket].
      rewrite new_row_mediaDoc. cbn. eauto 10.
    + intros Hthumb. rewrite Hthumb. cbn.
      rewrite !List.filter_app. cbn. by rewrite !app_nil_r.
Qed.

Lemma failed_thumbnail_upload_is_not_fatal_witness :
  (fst (AdminMediaManager.handleFileUpload sample_cdn sample_video_form
          sample_thumbnail_refused empty_world) = Completed
   /\ map video_thumbnail_path
        (catalog (snd (AdminMediaManager.handleFileUpload sample_cdn
                         sample_video_form sample_thumbnail_refused empty_world)))
      = [None])
  /\ (fst (AdminMediaManager2.handleFileUpload sample_cdn video sample_new_video
             sample_thumbnail_refused empty_world) = Completed
      /\ map video_thumbnail_path
           (catalog (snd (AdminMediaManager2.handleFileUpload sample_cdn video
                            sample_new_video sample_thumbnail_refused empty_world)))
         = [None]).
Proof.
  destruct (failed_thumbnail_upload_is_not_fatal sample_cdn sample_thumbnail_refused
              empty_world sample_clip sample_thumbnail eq_refl)
    as [H1 H2].
  split.
  - destruct (H1 sample_video_form eq_refl eq_refl eq_refl eq_refl) as [H _].
    destruct (H "quota exceeded" eq_refl) as (He & (r & Hc & _ & _ & _ & Hp) & _).
    split; [exact He|]. rewrite Hc. simpl. rewrite Hp. reflexivity.
  - assert (passes_validation sample_new_video sample_clip) as Hp.
    { repeat split; try reflexivity. vm_compute. discriminate. }
    destruct (H2 sample_new_video Hp eq_refl eq_refl) as [H _].
    destruct (H "quota exceeded" eq_refl) as (He & (r & Hc & _ & _ & _ & Hn) & _).
    split; [exact He|]. rewrite Hc. simpl. rewrite Hn. reflexivity.
Defined.

(** C7, as stated, fails when the thumbnail upload fails by throwing.  A
    video and its thumbnail are uploaded to an empty site; the bucket takes
    the video and the upload of the thumbnail throws.  Neither component
    completes: the handler ends in its [catch], the table stays empty, and
    the video is left in the bucket with no row. *)
Lemma thrown_thumbnail_upload_aborts :
  let first := AdminMediaManager.handleFileUpload sample_cdn sample_video_form
                 sample_thumbnail_thrown empty_world in
  let second := AdminMediaManager2.handleFileUpload sample_cdn video sample_new_video
                  sample_thumbnail_thrown empty_world in
  AdminMediaManager.form_thumbnailFile sample_video_form = Some sample_thumbnail
  /\ AdminMediaManager2.new_thumbnailFile sample_new_video = Some sample_thumbnail
  /\ fst first = Caught "Upload failed"
  /\ catalog (snd first) = []
  /\ calls (snd first)
     = [ StorageUpload "videos/1700000000000_clip.mp4" sample_clip;
         StorageUpload "thumbnails/1700000000001_thumbnail_cover.png" sample_thumbnail ]
  /\ bucket (snd first) = {[ "videos/1700000000000_clip.mp4" := sample_clip ]}
  /\ fst second = Caught "Failed to upload. Please try again."
  /\ catalog (snd second) = []
  /\ calls (snd second)
     = [ StorageUpload "videos/1700000000000_clip.mp4" sample_clip;
         StorageUpload "thumbnails/1700000000000_cover.png" sample_thumbnail ]
  /\ bucket (snd second) = {[ "videos/1700000000000_clip.mp4" := sample_clip ]}.
Proof. cbv zeta. repeat split; vm_compute; reflexivity. Qed.

(** ** What the admin operations do to the table *)

Lemma evolves_same (rows : list MediaItem) (n : nat) : evolves rows n rows n.
Proof.
  split; [done|]. apply Forall_forall. intros r Hr. right. exists r.
  split; [done | apply same_location_refl].
Qed.

Lemma evolves_trans (rows1 rows2 rows3 : list MediaItem) (n1 n2 n3 : nat) :
  evolves rows1 n1 rows2 n2 -> evolves rows2 n2 rows3 n3 ->
  evolves rows1 n1 rows3 n3.
Proof.
  intros [Hn12 H12] [Hn23 H23]. split; [lia|].
  rewrite Forall_forall in H12, H23. apply Forall_forall. intros r3 H3.
  destruct (H23 r3 H3) as [Hfresh|(r2 & H2 & Hloc23)]; [left; lia|].
  destruct (H12 r2 H2) as [Hfresh|(r1 & H1 & Hloc12)].
  - left. destruct Hloc23 as (Hid & _). lia.
  - right. exists r1. split; [done|]. by eapply same_location_trans.
Qed.

Lemma evolves_Forall2 (rows rows' : list MediaItem) (n : nat) :
  Forall2 same_location rows rows' -> evolves rows n rows' n.
Proof.
  intros H. split; [done|]. apply Forall_forall. intros r' Hr'.
  apply list_elem_of_lookup in Hr' as [j Hj].
  destruct (Forall2_lookup_r _ _ _ _ _ H Hj) as (r & Hr & Hloc).
  right. exists r. split; [by eapply list_elem_of_lookup_2 | done].
Qed.

Lemma evolves_insert (rows : list MediaItem) (n : nat) (r : MediaItem) :
  id r = n -> evolves rows n (rows ++ [r]) (S n).
Proof.
  intros Hid. split; [lia|]. apply Forall_app. split.
  - apply Forall_forall. intros r' Hr'. right. exists r'.
    split; [done | apply same_location_refl].
  - constructor; [left; lia | constructor].
Qed.

Lemma evolves_delete (rows : list MediaItem) (n i : nat) :
  evolves rows n (delete_rows i rows) n.
Proof.
  split; [done|]. apply Forall_forall. intros r Hr. right. exists r.
  split; [|apply same_location_refl].
  apply list_elem_of_In, filter_In in Hr as [Hr _]. by apply list_elem_of_In.
Qed.

Lemma new_row_id (i : nat) (now : Z) (d : Doc) (r : MediaItem) :
  new_row i now d = Some r -> id r = i.
Proof.
  unfold new_row. destruct (required_present d); [|done].
  intros H. by apply apply_doc_id in H.
Qed.

Lemma storage_upload_evolves (reply : Reply) (p : string) (f : File) (w : World) :
  catalog_evolves w (snd (storage_upload reply p f w)).
Proof.
  unfold storage_upload, catalog_evolves.
  destruct (upload_answer _ _ _); apply evolves_same.
Qed.

Lemma storage_remove_evolves (reply : Reply) (ps : list string) (w : World) :
  catalog_evolves w (snd (storage_remove reply ps w)).
Proof.
  unfold storage_remove, catalog_evolves. destruct reply; apply evolves_same.
Qed.

Lemma table_insert_evolves (reply : Reply) (now : Z) (d : Doc) (w : World) :
  catalog_evolves w (snd (table_insert reply now d w)).
Proof.
  unfold table_insert, catalog_evolves.
  destruct reply; try apply evolves_same. cbn [next_id log_call].
  destruct (new_row (next_id w) now d) as [r|] eqn:E; [|apply evolves_same].
  apply evolves_insert. by eapply new_row_id.
Qed.

Lemma table_delete_evolves (reply : Reply) (i : nat) (w : World) :
  catalog_evolves w (snd (table_delete reply i w)).
Proof.
  unfold table_delete, catalog_evolves.
  destruct reply; try apply evolves_same. apply evolves_delete.
Qed.

Lemma table_update_evolves (reply : Reply) (i : nat) (d : Doc) (w : World) :
  Forall (fun k => k ∈ editable_columns) (keys d) ->
  catalog_evolves w (snd (table_update reply i d w)).
Proof.
  intros Hk. destruct (table_update_editable reply i d w Hk) as (H & Hn & _).
  unfold catalog_evolves. rewrite Hn. by apply evolves_Forall2.
Qed.

Ltac unwrap_worlds :=
  unfold catalog_evolves in *;
  cbn [fst snd catalog next_id show console_error log_call
         AdminMediaManager.showNotification AdminMediaManager.fetchMediaItems
         AdminMediaManager2.setError AdminMediaManager2.setUploadState
         AdminMediaManager2.refuse] in *.

Ltac call_step :=
  match goal with
  | |- context [storage_upload ?r ?p ?f ?w] =>
      let H := fresh "Hev" in
      pose proof (storage_upload_evolves r p f w) as H;
      destruct (storage_upload r p f w) as [[| |] ?]
  | |- context [storage_remove ?r ?ps ?w] =>
      let H := fresh "Hev" in
      pose proof (storage_remove_evolves r ps w) as H;
      destruct (storage_remove r ps w) as [[| |] ?]
  | |- context [table_insert ?r ?now ?d ?w] =>
      let H := fresh "Hev" in
      pose proof (table_insert_evolves r now d w) as H;
      destruct (table_insert r now d w) as [[| |] ?]
  | |- context [table_delete ?r ?i ?w] =>
      let H := fresh "Hev" in
      pose proof (table_delete_evolves r i w) as H;
      destruct (table_delete r i w) as [[| |] ?]
  end; unwrap_worlds.

Ltac evolve := repeat call_step; eauto using evolves_trans, evolves_same.

Lemma handleUpdate_evolves (i : nat) (editForm : AdminMediaManager.EditForm)
    (reply : Reply) (w : World) :
  catalog_evolves w (snd (AdminMediaManager.handleUpdate i editForm reply w)).
Proof.
  unfold AdminMediaManager.handleUpdate.
  pose proof (table_update_evolves reply i (AdminMediaManager.updateData editForm) w)
    as H.
  rewrite keys_updateData in H. specialize (H (present_fields_editable _)).
  destruct (table_update _ _ _ _) as [[| |] ?]; unwrap_worlds; done.
Qed.

Lemma handleUpdateMedia_evolves (editingItem : option MediaItem) (reply : Reply)
    (w : World) :
  catalog_evolves w (snd (AdminMediaManager2.handleUpdateMedia editingItem reply w)).
Proof.
  unfold AdminMediaManager2.handleUpdateMedia.
  destruct editingItem as [item|]; [|unwrap_worlds; apply evolves_same].
  destruct (title item) as [t|]; [|unwrap_worlds; apply evolves_same].
  destruct (String.eqb (trim t) ""); [unwrap_worlds; apply evolves_same|].
  match goal with
  | |- context [table_update ?r ?i ?d ?w0] =>
      pose proof (table_update_evolves r i d w0) as H;
      destruct (table_update r i d w0) as [[| |] ?]
  end; unwrap_worlds; apply H; unfold editable_columns; simpl;
    repeat constructor; set_solver.
Qed.

Lemma handleDelete_evolves (i : nat) (storagePath : option string)
    (storage_reply delete_reply : Reply) (w : World) :
  catalog_evolves w (snd (AdminMediaManager.handleDelete i storagePath
                            storage_reply delete_reply w)).
Proof.
  unfold AdminMediaManager.handleDelete.
  destruct (truthy storagePath); evolve.
Qed.

Lemma handleDeleteMedia_evolves (item : MediaItem)
    (delete_reply storage_reply thumbnail_reply : Reply) (w : World) :
  catalog_evolves w (snd (AdminMediaManager2.handleDeleteMedia item delete_reply
                            storage_reply thumbnail_reply w)).
Proof.
  unfold AdminMediaManager2.handleDeleteMedia.
  destruct (AdminMediaManager2.not_external item), (truthy (storagepath item)),
    (truthy (video_thumbnail_path item)); evolve.
Qed.

Lemma handleExternalLinkUpload_evolves (uploadForm : AdminMediaManager.UploadForm)
    (now : Z) (reply : Reply) (w : World) :
  catalog_evolves w (snd (AdminMediaManager.handleExternalLinkUpload uploadForm
                            now reply w)).
Proof.
  unfold AdminMediaManager.handleExternalLinkUpload.
  destruct (String.eqb _ _); [unwrap_worlds; apply evolves_same|]. evolve.
Qed.

Lemma handleFileUpload1_evolves (getPublicUrl : string -> string)
    (uploadForm : AdminMediaManager.UploadForm) (env : UploadEnv) (w : World) :
  catalog_evolves w (snd (AdminMediaManager.handleFileUpload getPublicUrl
                            uploadForm env w)).
Proof.
  unfold AdminMediaManager.handleFileUpload.
  destruct (AdminMediaManager.form_file uploadForm) as [f|];
    [|unwrap_worlds; apply evolves_same].
  destruct (AdminMediaManager.form_mediatype uploadForm),
    (AdminMediaManager.form_thumbnailFile uploadForm); evolve.
Qed.

Lemma handleFileUpload2_evolves (getPublicUrl : string -> string)
    (activeTab : MediaType) (newMedia : AdminMediaManager2.NewMedia)
    (env : UploadEnv) (w : World) :
  catalog_evolves w (snd (AdminMediaManager2.handleFileUpload getPublicUrl
                            activeTab newMedia env w)).
Proof.
  unfold AdminMediaManager2.handleFileUpload.
  destruct (AdminMediaManager2.new_file newMedia) as [f|];
    [|unwrap_worlds; apply evolves_same].
  destruct (String.eqb _ _); [unwrap_worlds; apply evolves_same|].
  destruct (negb _); [unwrap_worlds; apply evolves_same|].
  destruct (negb _); [unwrap_worlds; apply evolves_same|].
  unfold AdminMediaManager2.upload_validated.
  destruct (AdminMediaManager2.new_thumbnailFile newMedia), activeTab; evolve.
Qed.

Lemma handleLinkSubmission_evolves (URL_parses : string -> bool)
    (activeTab : MediaType) (newMedia : AdminMediaManager2.NewMedia) (now : Z)
    (reply : Reply) (w : World) :
  catalog_evolves w (snd (AdminMediaManager2.handleLinkSubmission URL_parses
                            activeTab newMedia now reply w)).
Proof.
  unfold AdminMediaManager2.handleLinkSubmission.
  destruct (_ || _)%bool; [unwrap_worlds; apply evolves_same|].
  destruct (negb _); [unwrap_worlds; apply evolves_same|]. evolve.
Qed.

Lemma perform_evolves (getPublicUrl : string -> string)
    (URL_parses : string -> bool) (op : AdminOp) (w : World) :
  catalog_evolves w (snd (perform getPublicUrl URL_parses op w)).
Proof.
  destruct op; simpl.
  - unfold AdminMediaManager.handleUpload.
    destruct (AdminMediaManager.form_isExternalLink uploadForm);
      [apply handleExternalLinkUpload_evolves | apply handleFileUpload1_evolves].
  - apply handleUpdate_evolves.
  - apply handleDelete_evolves.
  - apply handleFileUpload2_evolves.
  - apply handleLinkSubmission_evolves.
  - apply handleDeleteMedia_evolves.
  - apply handleUpdateMedia_evolves.
Qed.

Lemma run_ops_evolves (getPublicUrl : string -> string)
    (URL_parses : string -> bool) (ops : list AdminOp) (w : World) :
  catalog_evolves w (run_ops getPublicUrl URL_parses ops w).
Proof.
  revert w. induction ops as [|op ops IH]; intros w; simpl.
  - apply evolves_same.
  - eapply evolves_trans; [apply perform_evolves | apply IH].
Qed.

Lemma evolves_ids_assigned (w w' : World) :
  catalog_evolves w w' -> ids_assigned w -> ids_assigned w'.
Proof.
  unfold ids_assigned. intros [Hn Hev] Hids.
  rewrite Forall_forall in Hev, Hids. apply Forall_forall. intros r' Hr'.
  destruct (Hev r' Hr') as [Hfresh|(r & Hr & Hid & _)]; [lia|].
  specialize (Hids r Hr). lia.
Qed.

(** Every admin operation keeps the identifiers below the next one. *)
Lemma perform_ids_assigned (getPublicUrl : string -> string)
    (URL_parses : string -> bool) (op : AdminOp) (w : World) :
  ids_assigned w -> ids_assigned (snd (perform getPublicUrl URL_parses op w)).
Proof. apply evolves_ids_assigned, perform_evolves. Qed.

(** ** External links *)

Lemma link_creation_appends (getPublicUrl : string -> string)
    (URL_parses : string -> bool) (link : AdminOp) (w : World) :
  is_link_creation link = true ->
  fst (perform getPublicUrl URL_parses link w) = Completed ->
  exists r0,
    catalog (snd (perform getPublicUrl URL_parses link w)) = (catalog w ++ [r0])%list
    /\ next_id (snd (perform getPublicUrl URL_parses link w)) = S (next_id w)
    /\ id r0 = next_id w /\ isexternallink r0 = Some true
    /\ storagepath r0 = None /\ video_thumbnail_url r0 = None
    /\ video_thumbnail_path r0 = None.
Proof.
  destruct link; try discriminate; cbn [is_link_creation perform].
  - intros Hext. unfold AdminMediaManager.handleUpload. rewrite Hext.
    unfold AdminMediaManager.handleExternalLinkUpload.
    destruct (String.eqb _ _); [discriminate|].
    unfold table_insert. cbn [next_id log_call].
    rewrite new_row_linkData.
    destruct (insert_reply env); try discriminate. intros _. cbn. eauto 10.
  - intros _. unfold AdminMediaManager2.handleLinkSubmission.
    destruct (_ || _)%bool; [discriminate|].
    destruct (negb _); [discriminate|].
    unfold table_insert.
    cbn [next_id log_call AdminMediaManager2.setUploadState
           AdminMediaManager2.setError show].
    rewrite new_row_linkDoc.
    destruct reply; try discriminate. intros _. cbn. eauto 10.
Qed.

(** C4. A record added through either external-link handler is stored with
    isexternallink set and with NULL storage path and NULL thumbnail path;
    whatever admin operations follow, every fetch that returns the record
    returns it with both paths NULL. *)
Theorem external_link_rows_keep_null_paths (getPublicUrl : string -> string)
    (URL_parses : string -> bool) (w : World) (link : AdminOp) :
  ids_assigned w ->
  is_link_creation link = true ->
  fst (perform getPublicUrl URL_parses link w) = Completed ->
  exists r0,
    catalog (snd (perform getPublicUrl URL_parses link w)) = (catalog w ++ [r0])%list
    /\ isexternallink r0 = Some true
    /\ storagepath r0 = None /\ video_thumbnail_path r0 = None
    /\ forall ops q r,
        r ∈ run_query q
              (catalog (run_ops getPublicUrl URL_parses ops
                          (snd (perform getPublicUrl URL_parses link w)))) ->
        id r = id r0 ->
        isexternallink r = Some true
        /\ storagepath r = None /\ video_thumbnail_path r = None.
Proof.
  intros Hids Hlink Hdone.
  destruct (link_creation_appends getPublicUrl URL_parses link w Hlink Hdone)
    as (r0 & Hcat & Hnext & Hid0 & Hext & Hsp & _ & Htp).
  exists r0. repeat split; try done.
  all: intros; match goal with
       | H : _ ∈ run_query _ _ |- _ => apply run_query_subset in H; rename H into Hr
       end.
  all: destruct (run_ops_evolves getPublicUrl URL_parses ops
                   (snd (perform getPublicUrl URL_parses link w))) as [_ Hev].
  all: rewrite Forall_forall in Hev; specialize (Hev r Hr).
  all: rewrite Hnext, Hcat in Hev.
  all: destruct Hev as [Hfresh|(r1 & Hr1 & Hloc)]; [lia|].
  all: destruct Hloc as (Hid & _ & _ & _ & _ & Hx & Hs & _ & Ht).
  all: apply elem_of_app in Hr1 as [Hold|Hnew].
  all: try (unfold ids_assigned in Hids; rewrite Forall_forall in Hids;
            specialize (Hids r1 Hold); lia).
  all: apply list_elem_of_singleton in Hnew; subst r1; congruence.
Qed.

Lemma external_link_rows_keep_null_paths_witness :
  exists r0,
    catalog (snd (perform sample_cdn sample_URL_parses sample_link_op
                    sample_delete_world))
    = (catalog sample_delete_world ++ [r0])%list
    /\ isexternallink r0 = Some true
    /\ storagepath r0 = None /\ video_thumbnail_path r0 = None
    /\ forall ops q r,
        r ∈ run_query q
              (catalog (run_ops sample_cdn sample_URL_parses ops
                          (snd (perform sample_cdn sample_URL_parses sample_link_op
                                  sample_delete_world)))) ->
        id r = id r0 ->
        isexternallink r = Some true
        /\ storagepath r = None /\ video_thumbnail_path r = None.
Proof.
  apply (external_link_rows_keep_null_paths sample_cdn sample_URL_parses
           sample_delete_world sample_link_op).
  - repeat constructor.
  - reflexivity.
  - reflexivity.
Defined.

(** The link of the witness is still fetched after the follow-up
    operations, retitled and with both paths NULL. *)
Lemma sample_link_survives_followup :
  map (fun r => (id r, title r, storagepath r, video_thumbnail_path r))
    (run_query VideosPageGallery.query
       (catalog (run_ops sample_cdn sample_URL_parses sample_followup
                   (snd (perform sample_cdn sample_URL_parses sample_link_op
                           sample_delete_world)))))
  = [ (1, Some "Talk (2024)", None, None);
      (2, Some "Clip", Some "videos/1700000000000_clip.mp4",
       Some "thumbnails/1700000000000_cover.png") ].
Proof. reflexivity. Qed.

(** C10. On the video tab, with the link type left at its initial value
    'image', [handleLinkSubmission] stores a record of kind video tagged
    'image-link'.  The tag comes from [linkType], the kind from the active
    tab, and nothing compares them, although the lists test external links
    for the exact tag: the record fails the 'video-link' test of the video
    lists and passes the 'image-link' test of the artwork lists, so the
    first component lists it under both of its tabs. *)
Theorem link_tag_may_disagree_with_kind (URL_parses : string -> bool)
    (externalUrl : string) (now : Z) (w : World) :
  trim externalUrl <> "" ->
  URL_parses (trim externalUrl) = true ->
  exists newMedia r,
    let result := AdminMediaManager2.handleLinkSubmission URL_parses video
                    newMedia now Resolved w in
    AdminMediaManager2.new_linkType newMedia = AdminMediaManager2.image_link_type
    /\ fst result = Completed
    /\ catalog (snd result) = (catalog w ++ [r])%list
    /\ url r = trim externalUrl
    /\ mediatype r = video /\ type r = "image-link"
    /\ isexternallink r = Some true
    /\ external_with_tag "video-link" r = false
    /\ external_with_tag "image-link" r = true
    /\ VideosPageGallery.videoItems (mkGallery [r] false None) = [r]
    /\ AdminList.filteredMediaItems AdminList.images (mkGallery [r] false None) = [r]
    /\ AdminList.filteredMediaItems AdminList.videos (mkGallery [r] false None) = [r].
Proof.
  intros Hurl Hparses.
  exists (AdminMediaManager2.mkNewMedia "Talk" "" "" externalUrl
            AdminMediaManager2.image_link_type None None).
  eexists. cbv zeta.
  unfold AdminMediaManager2.handleLinkSubmission.
  cbn [AdminMediaManager2.new_externalUrl AdminMediaManager2.new_title
         AdminMediaManager2.new_linkType].
  apply String.eqb_neq in Hurl. rewrite Hurl.
  change (trim "Talk") with "Talk". cbn [String.eqb Ascii.eqb Bool.eqb orb].
  unfold AdminMediaManager2.validateUrl. rewrite Hparses.
  cbn [AdminMediaManager2.isValid AdminMediaManager2.valid negb].
  unfold table_insert.
  cbn [next_id log_call AdminMediaManager2.setUploadState
         AdminMediaManager2.setError show].
  rewrite new_row_linkDoc. cbn. repeat split; reflexivity.
Qed.

Lemma link_tag_may_disagree_with_kind_witness :
  exists newMedia r,
    let result := AdminMediaManager2.handleLinkSubmission sample_URL_parses video
                    newMedia 4000 Resolved empty_world in
    AdminMediaManager2.new_linkType newMedia = AdminMediaManager2.image_link_type
    /\ fst result = Completed
    /\ catalog (snd result) = (catalog empty_world ++ [r])%list
    /\ url r = trim "https://youtube.com/watch?v=abc12345678"
    /\ mediatype r = video /\ type r = "image-link"
    /\ isexternallink r = Some true
    /\ external_with_tag "video-link" r = false
    /\ external_with_tag "image-link" r = true
    /\ VideosPageGallery.videoItems (mkGallery [r] false None) = [r]
    /\ AdminList.filteredMediaItems AdminList.images (mkGallery [r] false None) = [r]
    /\ AdminList.filteredMediaItems AdminList.videos (mkGallery [r] false None) = [r].
Proof.
  apply (link_tag_may_disagree_with_kind sample_URL_parses
           "https://youtube.com/watch?v=abc12345678" 4000 empty_world).
  - vm_compute. discriminate.
  - reflexivity.
Defined.

(** The first component derives the tag from the kind: its links agree. *)
Lemma handleExternalLinkUpload_tag_agrees (uploadForm : AdminMediaManager.UploadForm)
    (i : nat) (now : Z) (r : MediaItem) :
  new_row i now (AdminMediaManager.linkData uploadForm) = Some r ->
  type r = match mediatype r with
           | video => "video-link"
           | artwork => "image-link"
           end.
Proof. rewrite new_row_linkData. intros H. by simplify_eq. Qed.

(** * Further properties of the handlers *)

(** ** Edits, row by row *)

Lemma apply_doc_updateData (editForm : AdminMediaManager.EditForm) (r : MediaItem) :
  apply_doc (AdminMediaManager.updateData editForm) r = Some (with_edit editForm r).
Proof.
  destruct r, editForm as [[?|] [?|] [?|] [?|]]; reflexivity.
Qed.

Lemma update_rows_map (i : nat) (d : Doc) (f : MediaItem -> MediaItem)
    (rows : list MediaItem) :
  (forall r, apply_doc d r = Some (f r)) ->
  update_rows i d rows = Some (map_row i f rows).
Proof.
  intros Hf. unfold map_row. induction rows as [|r rows IH]; [done|].
  cbn [update_rows map]. rewrite IH, Hf. by destruct (Nat.eqb (id r) i).
Qed.

Lemma handleUpdate_resolved (i : nat) (editForm : AdminMediaManager.EditForm)
    (w : World) :
  let result := AdminMediaManager.handleUpdate i editForm Resolved w in
  fst result = Completed
  /\ catalog (snd result) = map_row i (with_edit editForm) (catalog w).
Proof.
  unfold AdminMediaManager.handleUpdate, table_update. cbn [catalog log_call].
  rewrite (update_rows_map i _ (with_edit editForm)) by apply apply_doc_updateData.
  by split.
Qed.

(** X1. A saved edit of the first component rewrites, in the rows with the
    given id, exactly the fields present in the form; every other row and
    every other field stays as it was.  When the table answers with an
    error nothing changes. *)
Theorem handleUpdate_rewrites_one_row (i : nat)
    (editForm : AdminMediaManager.EditForm) (w : World) :
  (let result := AdminMediaManager.handleUpdate i editForm Resolved w in
   fst result = Completed
   /\ catalog (snd result) = map_row i (with_edit editForm) (catalog w))
  /\ (forall msg,
         let result := AdminMediaManager.handleUpdate i editForm (Rejected msg) w in
         fst result = PersistFailed msg /\ catalog (snd result) = catalog w).
Proof.
  split; [apply handleUpdate_resolved|].
  intros msg. unfold AdminMediaManager.handleUpdate, table_update. by split.
Qed.

Lemma map_row_id (i : nat) (f : MediaItem -> MediaItem) (rows : list MediaItem) :
  (forall r, r ∈ rows -> id r = i -> f r = r) -> map_row i f rows = rows.
Proof.
  intros Hf. unfold map_row. induction rows as [|r rows IH]; [done|].
  cbn [map]. rewrite IH by (intros; apply Hf; [by right | done]).
  destruct (Nat.eqb (id r) i) eqn:E; [|done].
  apply Nat.eqb_eq in E. rewrite Hf; [done | by left | done].
Qed.

Lemma NoDup_id_eq (rows : list MediaItem) (r1 r2 : MediaItem) :
  NoDup (map id rows) -> r1 ∈ rows -> r2 ∈ rows -> id r1 = id r2 -> r1 = r2.
Proof.
  induction rows as [|r rows IH]; intros Hnd H1 H2 Hid; [by apply elem_of_nil in H1|].
  cbn [map] in Hnd. apply NoDup_cons in Hnd as [Hr Hnd].
  apply elem_of_cons in H1 as [->|H1], H2 as [->|H2]; try done.
  - exfalso. apply Hr. rewrite Hid. apply list_elem_of_In, in_map, list_elem_of_In, H2.
  - exfalso. apply Hr. rewrite <- Hid. apply list_elem_of_In, in_map, list_elem_of_In, H1.
  - by apply IH.
Qed.

(** X2. Opening the edit form of the first component on a listed item and
    saving it untouched leaves the table as it was, provided the item's
    title, description and type detail are not NULL and ids are unique. *)
Theorem startEdit_save_untouched (item : MediaItem) (w : World) :
  ids_unique w -> item ∈ catalog w -> texts_present item ->
  let result := AdminMediaManager.handleUpdate (id item)
                  (AdminMediaManager.startEdit item) Resolved w in
  fst result = Completed /\ catalog (snd result) = catalog w.
Proof.
  intros Hnd Hin ([t Ht] & [d Hd] & [td Htd]).
  destruct (handleUpdate_resolved (id item)
              (AdminMediaManager.startEdit item) w) as [He Hc].
  split; [exact He|]. rewrite Hc. apply map_row_id. intros r Hr Hid.
  assert (r = item) as -> by (by eapply NoDup_id_eq).
  unfold with_edit, AdminMediaManager.startEdit. cbn.
  rewrite Ht, Hd, Htd. cbn. rewrite !or_else_empty. by destruct item; simplify_eq/=.
Qed.

Lemma startEdit_save_untouched_witness :
  let result := AdminMediaManager.handleUpdate (id sample_artwork)
                  (AdminMediaManager.startEdit sample_artwork) Resolved
                  sample_two_rows in
  fst result = Completed /\ catalog (snd result) = catalog sample_two_rows.
Proof.
  apply (startEdit_save_untouched sample_artwork sample_two_rows).
  - unfold ids_unique. simpl.
    repeat (constructor; [rewrite list_elem_of_In; simpl; intuition discriminate|]).
    constructor.
  - simpl. apply list_elem_of_In. simpl. auto.
  - repeat split; simpl; eauto.
Defined.

Lemma apply_doc_updateData2 (t : string) (item r : MediaItem) :
  apply_doc (AdminMediaManager2.updateData t item) r = Some (with_item_texts t item r).
Proof. destruct r; reflexivity. Qed.

(** X3. [handleUpdateMedia] refuses an edit without an item, or with a
    title that is empty once trimmed (white space only, a no-break space
    included), before any call is made; an item whose title is NULL makes
    it throw outside the [try], with nothing sent and nothing shown.  A saved
    edit writes the trimmed title, and the trimmed description and type
    detail of the item being edited (the empty string when absent or
    blank), into the rows with the item's id, and changes nothing else. *)
Theorem handleUpdateMedia_rewrites_texts (reply : Reply) (w : World) :
  (AdminMediaManager2.handleUpdateMedia None reply w
   = (Invalid "Please provide a title",
      AdminMediaManager2.setError (Some "Please provide a title") w))
  /\ (forall item,
         title item = None ->
         exists what, AdminMediaManager2.handleUpdateMedia (Some item) reply w
                      = (Uncaught what, w))
  /\ (forall item t,
         title item = Some t -> trim t = "" ->
         AdminMediaManager2.handleUpdateMedia (Some item) reply w
         = (Invalid "Please provide a title",
            AdminMediaManager2.setError (Some "Please provide a title") w))
  /\ (forall item t,
         title item = Some t -> trim t <> "" ->
         let result := AdminMediaManager2.handleUpdateMedia (Some item) Resolved w in
         fst result = Completed
         /\ catalog (snd result)
            = map_row (id item) (with_item_texts t item) (catalog w)
         /\ bucket (snd result) = bucket w).
Proof.
  split; [reflexivity|]. split; [|split].
  - intros item Ht. unfold AdminMediaManager2.handleUpdateMedia. rewrite Ht. eauto.
  - intros item t Ht Hblank. unfold AdminMediaManager2.handleUpdateMedia.
    rewrite Ht, Hblank. reflexivity.
  - intros item t Ht Htitle. unfold AdminMediaManager2.handleUpdateMedia.
    rewrite Ht. apply String.eqb_neq in Htitle. rewrite Htitle.
    unfold table_update.
    cbn [catalog log_call AdminMediaManager2.setUploadState show].
    rewrite (update_rows_map _ _ (with_item_texts t item))
      by apply apply_doc_updateData2.
    by repeat split.
Qed.

Lemma handleUpdateMedia_rewrites_texts_witness :
  let result := AdminMediaManager2.handleUpdateMedia (Some sample_titled_video)
                  Resolved sample_two_rows in
  let refused := AdminMediaManager2.handleUpdateMedia (Some sample_nbsp_titled)
                   Resolved sample_two_rows in
  fst result = Completed
  /\ map (fun r => (title r, description r, type_detail r)) (catalog (snd result))
     = [ (Some "Dunes", Some "", Some "painting");
         (Some "Harbour", Some "at dawn", Some "") ]
  /\ fst refused = Invalid "Please provide a title"
  /\ calls (snd refused) = [].
Proof.
  destruct (handleUpdateMedia_rewrites_texts Resolved sample_two_rows)
    as (_ & _ & Hblank & H).
  destruct (H sample_titled_video "  Harbour " eq_refl) as (He & Hc & _).
  - vm_compute. discriminate.
  - cbv zeta. rewrite (Hblank sample_nbsp_titled nbsp eq_refl eq_refl).
    split; [exact He|]. rewrite Hc. repeat split; reflexivity.
Defined.

(** ** The table under sequences of operations *)

Lemma edited_refl (r : MediaItem) : edited r r.
Proof. split; [apply same_location_refl | done]. Qed.

Lemma update_rows_edited (i : nat) (d : Doc) (rows rows' : list MediaItem) :
  (forall r r', apply_doc d r = Some r' -> edited r r') ->
  update_rows i d rows = Some rows' -> Forall2 edited rows rows'.
Proof.
  intros Hd. revert rows'.
  induction rows as [|r rows IH]; intros rows' H; cbn [update_rows] in H.
  - simplify_eq. constructor.
  - destruct (Nat.eqb (id r) i).
    + destruct (apply_doc d r) as [r1|] eqn:E; cbn in H; [|done].
      destruct (update_rows i d rows) as [rest|]; cbn in H; [|done].
      simplify_eq. constructor; [by apply Hd | by apply IH].
    + cbn in H. destruct (update_rows i d rows) as [rest|]; cbn in H; [|done].
      simplify_eq. constructor; [apply edited_refl | by apply IH].
Qed.

Lemma record_invariant_edited (r r' : MediaItem) :
  edited r r' -> record_invariant r -> record_invariant r'.
Proof.
  intros [(_ & _ & _ & _ & Hm & Hx & Hs & Hu & Hp) Ht] [Htexts Hloc].
  split; [by apply Ht|]. rewrite Hx, Hs, Hu, Hp, Hm. exact Hloc.
Qed.

Lemma table_step_ok (rows rows' : list MediaItem) (n n' : nat) :
  table_step (rows, n) (rows', n') -> table_ok rows n -> table_ok rows' n'.
Proof.
  intros Hstep (Hids & Hnd & Hinv).
  inversion Hstep as [rows0 n0 r Hid Hr | rows0 rows0' n0 Hed | rows0 n0 i];
    subst; clear Hstep.
  - split; [|split].
    + apply Forall_app. split.
      * eapply Forall_impl; [exact Hids|]. simpl. lia.
      * constructor; [lia | constructor].
    + rewrite map_app. apply NoDup_app. split; [done|]. split; [|by apply NoDup_singleton].
      intros i Hi Hn. apply list_elem_of_singleton in Hn. subst i.
      apply list_elem_of_In, in_map_iff in Hi as (r0 & Hr0 & Hin).
      rewrite Forall_forall in Hids. apply list_elem_of_In, Hids in Hin. lia.
    + apply Forall_app. split; [done|]. constructor; [done | constructor].
  - assert (map id rows' = map id rows) as Hmap.
    { clear -Hed. induction Hed as [|r r' ? ? [(Hid & _) _]]; [done|].
      cbn. by f_equal. }
    split; [|split].
    + apply Forall_forall. intros r' Hr'.
      apply list_elem_of_lookup in Hr' as [j Hj].
      destruct (Forall2_lookup_r _ _ _ _ _ Hed Hj) as (r & Hr & [(Hid & _) _]).
      rewrite Hid. rewrite Forall_forall in Hids.
      apply Hids. by eapply list_elem_of_lookup_2.
    + by rewrite Hmap.
    + apply Forall_forall. intros r' Hr'.
      apply list_elem_of_lookup in Hr' as [j Hj].
      destruct (Forall2_lookup_r _ _ _ _ _ Hed Hj) as (r & Hr & Hedr).
      eapply record_invariant_edited; [exact Hedr|].
      rewrite Forall_forall in Hinv. apply Hinv. by eapply list_elem_of_lookup_2.
  - unfold delete_rows. split; [|split].
    + apply Forall_forall. intros r Hr.
      apply list_elem_of_In, filter_In in Hr as [Hr _].
      rewrite Forall_forall in Hids. by apply Hids, list_elem_of_In.
    + clear -Hnd. induction rows as [|r rows IH]; [done|].
      cbn in *. apply NoDup_cons in Hnd as [Hr Hnd].
      destruct (negb (Nat.eqb (id r) i)); [|by apply IH].
      cbn. apply NoDup_cons. split; [|by apply IH].
      intros Hin. apply Hr.
      apply list_elem_of_In, in_map_iff in Hin as (r0 & Hr0 & Hin).
      apply filter_In in Hin as [Hin _].
      rewrite <- Hr0. by apply list_elem_of_In, in_map.
    + apply Forall_forall. intros r Hr.
      apply list_elem_of_In, filter_In in Hr as [Hr _].
      rewrite Forall_forall in Hinv. by apply Hinv, list_elem_of_In.
Qed.

Lemma table_steps_ok (a b : list MediaItem * nat) :
  rtc table_step a b -> table_ok (fst a) (snd a) -> table_ok (fst b) (snd b).
Proof.
  intros Hsteps.
  induction Hsteps as [[rows n]|[rows n] [rows1 n1] [rows2 n2] Hs _ IH]; [done|].
  intros Hok. apply IH. by eapply table_step_ok.
Qed.

Lemma acts_on_table_ok (w w' : World) :
  acts_on_table w w' -> world_ok w -> world_ok w'.
Proof. intros H. exact (table_steps_ok _ _ H). Qed.

Lemma steps_refl (rows : list MediaItem) (n : nat) :
  rtc table_step (rows, n) (rows, n).
Proof. apply rtc_refl. Qed.

Lemma steps_trans (a b c : list MediaItem * nat) :
  rtc table_step a b -> rtc table_step b c -> rtc table_step a c.
Proof. apply rtc_trans. Qed.

Lemma storage_upload_acts (reply : Reply) (p : string) (f : File) (w : World) :
  acts_on_table w (snd (storage_upload reply p f w)).
Proof.
  unfold storage_upload, acts_on_table.
  destruct (upload_answer _ _ _); apply rtc_refl.
Qed.

Lemma storage_remove_acts (reply : Reply) (ps : list string) (w : World) :
  acts_on_table w (snd (storage_remove reply ps w)).
Proof. unfold storage_remove, acts_on_table. destruct reply; apply rtc_refl. Qed.

Lemma table_insert_acts (reply : Reply) (now : Z) (d : Doc) (w : World) :
  (forall r, new_row (next_id w) now d = Some r -> record_invariant r) ->
  acts_on_table w (snd (table_insert reply now d w)).
Proof.
  intros Hd. unfold table_insert, acts_on_table.
  destruct reply; [|apply rtc_refl..]. cbn [next_id log_call].
  destruct (new_row (next_id w) now d) as [r|] eqn:E; [|apply rtc_refl].
  apply rtc_once. cbn. constructor; [by eapply new_row_id | by apply Hd].
Qed.

Lemma table_delete_acts (reply : Reply) (i : nat) (w : World) :
  acts_on_table w (snd (table_delete reply i w)).
Proof.
  unfold table_delete, acts_on_table.
  destruct reply; [|apply rtc_refl..].
  apply rtc_once. exact (step_delete (catalog w) (next_id w) i).
Qed.

Lemma table_update_acts (reply : Reply) (i : nat) (d : Doc) (w : World) :
  (forall r r', apply_doc d r = Some r' -> edited r r') ->
  acts_on_table w (snd (table_update reply i d w)).
Proof.
  intros Hd. unfold table_update, acts_on_table.
  destruct reply; [|apply rtc_refl..]. cbn [catalog log_call].
  destruct (update_rows i d (catalog w)) as [rows|] eqn:E; [|apply rtc_refl].
  apply rtc_once. cbn. constructor. by eapply update_rows_edited.
Qed.

Lemma created_by_upload1 (getPublicUrl : string -> string)
    (uploadForm : AdminMediaManager.UploadForm) (f : File) (filePath : string)
    (thumbnailUrl thumbnailPath : option string) (i : nat) (now : Z)
    (r : MediaItem) :
  (is_Some thumbnailPath ->
   is_Some thumbnailUrl /\ AdminMediaManager.form_mediatype uploadForm = video) ->
  new_row i now (AdminMediaManager.mediaData getPublicUrl uploadForm f filePath
                   thumbnailUrl thumbnailPath) = Some r ->
  record_invariant r.
Proof.
  intros Ht. rewrite new_row_mediaData. intros [= <-].
  unfold record_invariant, texts_present. cbn. eauto 10.
Qed.

Lemma created_by_upload2 (getPublicUrl : string -> string) (activeTab : MediaType)
    (newMedia : AdminMediaManager2.NewMedia) (f : File) (fileName : string)
    (thumbnailUrl thumbnailPath : option string) (i : nat) (now : Z)
    (r : MediaItem) :
  (is_Some thumbnailPath -> is_Some thumbnailUrl /\ activeTab = video) ->
  new_row i now (AdminMediaManager2.mediaDoc getPublicUrl activeTab newMedia f
                   fileName thumbnailUrl thumbnailPath) = Some r ->
  record_invariant r.
Proof.
  intros Ht. rewrite new_row_mediaDoc. intros [= <-].
  unfold record_invariant, texts_present. cbn. eauto 10.
Qed.

Lemma created_by_link1 (uploadForm : AdminMediaManager.UploadForm) (i : nat)
    (now : Z) (r : MediaItem) :
  new_row i now (AdminMediaManager.linkData uploadForm) = Some r ->
  record_invariant r.
Proof.
  rewrite new_row_linkData. intros [= <-].
  unfold record_invariant, texts_present. cbn. eauto 10.
Qed.

Lemma created_by_link2 (activeTab : MediaType)
    (newMedia : AdminMediaManager2.NewMedia) (i : nat) (now : Z) (r : MediaItem) :
  new_row i now (AdminMediaManager2.linkDoc activeTab newMedia) = Some r ->
  record_invariant r.
Proof.
  rewrite new_row_linkDoc. intros [= <-].
  unfold record_invariant, texts_present. cbn. eauto 10.
Qed.

Lemma edited_with_edit (editForm : AdminMediaManager.EditForm) (r : MediaItem) :
  edited r (with_edit editForm r).
Proof.
  split; [repeat split|]. unfold texts_present, with_edit.
  destruct editForm as [[?|] [?|] [?|] ?]; cbn; intros (? & ? & ?); eauto.
Qed.

Lemma edited_with_item_texts (t : string) (item r : MediaItem) :
  edited r (with_item_texts t item r).
Proof. split; [repeat split|]. intros _. repeat split; cbn; eauto. Qed.

Ltac unwrap_acts :=
  unfold acts_on_table in *;
  cbn [fst snd catalog next_id show console_error log_call
         AdminMediaManager.showNotification AdminMediaManager.fetchMediaItems
         AdminMediaManager2.setError AdminMediaManager2.setUploadState
         AdminMediaManager2.refuse] in *.

Ltac no_thumbnail := let H := fresh in intros [? H]; discriminate H.

Ltac created :=
  apply table_insert_acts; intros ?;
  lazymatch goal with
  | |- context [AdminMediaManager.linkData] => apply created_by_link1
  | |- context [AdminMediaManager2.linkDoc] => apply created_by_link2
  | |- context [AdminMediaManager.mediaData] =>
      apply created_by_upload1; first [no_thumbnail | intros _; split; eauto]
  | |- context [AdminMediaManager2.mediaDoc] =>
      apply created_by_upload2; first [no_thumbnail | intros _; split; eauto]
  end.

Ltac table_call :=
  match goal with
  | |- context [storage_upload ?r ?p ?f ?w] =>
      let H := fresh "Hact" in
      pose proof (storage_upload_acts r p f w) as H;
      destruct (storage_upload r p f w) as [[| |] ?]
  | |- context [storage_remove ?r ?ps ?w] =>
      let H := fresh "Hact" in
      pose proof (storage_remove_acts r ps w) as H;
      destruct (storage_remove r ps w) as [[| |] ?]
  | |- context [table_insert ?r ?now ?d ?w] =>
      let H := fresh "Hact" in
      assert (acts_on_table w (snd (table_insert r now d w))) as H by created;
      destruct (table_insert r now d w) as [[| |] ?]
  | |- context [table_delete ?r ?i ?w] =>
      let H := fresh "Hact" in
      pose proof (table_delete_acts r i w) as H;
      destruct (table_delete r i w) as [[| |] ?]
  end; unwrap_acts.

Ltac acts := repeat table_call; eauto using steps_trans, steps_refl.

Lemma handleUpdate_acts (i : nat) (editForm : AdminMediaManager.EditForm)
    (reply : Reply) (w : World) :
  acts_on_table w (snd (AdminMediaManager.handleUpdate i editForm reply w)).
Proof.
  unfold AdminMediaManager.handleUpdate.
  assert (acts_on_table w
            (snd (table_update reply i (AdminMediaManager.updateData editForm) w)))
    as H.
  { apply table_update_acts. intros r r'. rewrite apply_doc_updateData.
    intros [= <-]. apply edited_with_edit. }
  destruct (table_update _ _ _ _) as [[| |] ?]; unwrap_acts; done.
Qed.

Lemma handleUpdateMedia_acts (editingItem : option MediaItem) (reply : Reply)
    (w : World) :
  acts_on_table w (snd (AdminMediaManager2.handleUpdateMedia editingItem reply w)).
Proof.
  unfold AdminMediaManager2.handleUpdateMedia.
  destruct editingItem as [item|]; [|unwrap_acts; apply rtc_refl].
  destruct (title item) as [t|]; [|unwrap_acts; apply rtc_refl].
  destruct (String.eqb (trim t) ""); [unwrap_acts; apply rtc_refl|].
  match goal with
  | |- context [table_update ?r ?i ?d ?w0] =>
      assert (acts_on_table w0 (snd (table_update r i d w0))) as H
        by (apply table_update_acts; intros r0 r0';
            rewrite apply_doc_updateData2; intros [= <-];
            apply edited_with_item_texts);
      destruct (table_update r i d w0) as [[| |] ?]
  end; unwrap_acts; done.
Qed.

Lemma handleDelete_acts (i : nat) (storagePath : option string)
    (storage_reply delete_reply : Reply) (w : World) :
  acts_on_table w (snd (AdminMediaManager.handleDelete i storagePath
                          storage_reply delete_reply w)).
Proof.
  unfold AdminMediaManager.handleDelete. destruct (truthy storagePath); acts.
Qed.

Lemma handleDeleteMedia_acts (item : MediaItem)
    (delete_reply storage_reply thumbnail_reply : Reply) (w : World) :
  acts_on_table w (snd (AdminMediaManager2.handleDeleteMedia item delete_reply
                          storage_reply thumbnail_reply w)).
Proof.
  unfold AdminMediaManager2.handleDeleteMedia.
  destruct (AdminMediaManager2.not_external item), (truthy (storagepath item)),
    (truthy (video_thumbnail_path item)); acts.
Qed.

Lemma handleExternalLinkUpload_acts (uploadForm : AdminMediaManager.UploadForm)
    (now : Z) (reply : Reply) (w : World) :
  acts_on_table w (snd (AdminMediaManager.handleExternalLinkUpload uploadForm
                          now reply w)).
Proof.
  unfold AdminMediaManager.handleExternalLinkUpload.
  destruct (String.eqb _ _); [unwrap_acts; apply rtc_refl|]. acts.
Qed.

Lemma handleFileUpload1_acts (getPublicUrl : string -> string)
    (uploadForm : AdminMediaManager.UploadForm) (env : UploadEnv) (w : World) :
  acts_on_table w (snd (AdminMediaManager.handleFileUpload getPublicUrl
                          uploadForm env w)).
Proof.
  unfold AdminMediaManager.handleFileUpload.
  destruct (AdminMediaManager.form_file uploadForm) as [f|];
    [|unwrap_acts; apply rtc_refl].
  destruct (AdminMediaManager.form_mediatype uploadForm) eqn:Em,
    (AdminMediaManager.form_thumbnailFile uploadForm); acts.
Qed.

Lemma handleFileUpload2_acts (getPublicUrl : string -> string)
    (activeTab : MediaType) (newMedia : AdminMediaManager2.NewMedia)
    (env : UploadEnv) (w : World) :
  acts_on_table w (snd (AdminMediaManager2.handleFileUpload getPublicUrl
                          activeTab newMedia env w)).
Proof.
  unfold AdminMediaManager2.handleFileUpload.
  destruct (AdminMediaManager2.new_file newMedia) as [f|];
    [|unwrap_acts; apply rtc_refl].
  destruct (String.eqb _ _); [unwrap_acts; apply rtc_refl|].
  destruct (negb _); [unwrap_acts; apply rtc_refl|].
  destruct (negb _); [unwrap_acts; apply rtc_refl|].
  unfold AdminMediaManager2.upload_validated.
  destruct (AdminMediaManager2.new_thumbnailFile newMedia), activeTab; acts.
Qed.

Lemma handleLinkSubmission_acts (URL_parses : string -> bool)
    (activeTab : MediaType) (newMedia : AdminMediaManager2.NewMedia) (now : Z)
    (reply : Reply) (w : World) :
  acts_on_table w (snd (AdminMediaManager2.handleLinkSubmission URL_parses
                          activeTab newMedia now reply w)).
Proof.
  unfold AdminMediaManager2.handleLinkSubmission.
  destruct (_ || _)%bool; [unwrap_acts; apply rtc_refl|].
  destruct (negb _); [unwrap_acts; apply rtc_refl|]. acts.
Qed.

Lemma perform_acts (getPublicUrl : string -> string)
    (URL_parses : string -> bool) (op : AdminOp) (w : World) :
  acts_on_table w (snd (perform getPublicUrl URL_parses op w)).
Proof.
  destruct op; simpl.
  - unfold AdminMediaManager.handleUpload.
    destruct (AdminMediaManager.form_isExternalLink uploadForm);
      [apply handleExternalLinkUpload_acts | apply handleFileUpload1_acts].
  - apply handleUpdate_acts.
  - apply handleDelete_acts.
  - apply handleFileUpload2_acts.
  - apply handleLinkSubmission_acts.
  - apply handleDeleteMedia_acts.
  - apply handleUpdateMedia_acts.
Qed.

(** X4. Every admin operation of either component, whatever the services
    answer, changes the table only by inserting a well-formed row under a
    fresh id, by editing texts, or by deleting rows.  Hence a table whose
    ids are unique and whose rows satisfy the invariants of the data model
    (external links without storage paths, uploaded files with one, a
    thumbnail path only with a thumbnail URL and only on a video, texts not
    NULL) stays such a table after any sequence of operations. *)
Theorem admin_operations_keep_table_ok (getPublicUrl : string -> string)
    (URL_parses : string -> bool) (ops : list AdminOp) (w : World) :
  world_ok w -> world_ok (run_ops getPublicUrl URL_parses ops w).
Proof.
  revert w. induction ops as [|op ops IH]; intros w Hok; [done|].
  cbn. apply IH. eapply acts_on_table_ok; [apply perform_acts | done].
Qed.

Lemma admin_operations_keep_table_ok_witness :
  world_ok sample_two_rows
  /\ world_ok (run_ops sample_cdn sample_URL_parses (sample_link_op :: sample_followup)
                sample_two_rows).
Proof.
  assert (world_ok sample_two_rows) as Hok.
  { unfold world_ok, table_ok, record_invariant, texts_present. cbn.
    split; [|split].
    - repeat constructor; cbn; lia.
    - apply (bool_decide_unpack (NoDup [0; 7])). vm_compute. exact I.
    - repeat (apply List.Forall_cons); [..|apply List.Forall_nil]; cbn;
        (split; [by repeat split; eexists|]);
        (split; [by eexists|]); intros [? [=]]. }
  split; [exact Hok|].
  exact (admin_operations_keep_table_ok sample_cdn sample_URL_parses
           (sample_link_op :: sample_followup) sample_two_rows Hok).
Defined.

(** ** Uploads that go through *)

Lemma upload_answer_Resolved (reply : Reply) (p : string) (b : gmap string File) :
  upload_answer reply p b = Resolved <-> reply = Resolved /\ b !! p = None.
Proof.
  unfold upload_answer. destruct reply, (b !! p); split; try done;
    intros [? ?]; done.
Qed.

(** What a completed upload of the second component has done. *)
Lemma handleFileUpload2_completed (getPublicUrl : string -> string)
    (activeTab : MediaType) (newMedia : AdminMediaManager2.NewMedia)
    (env : UploadEnv) (w : World) :
  let result := AdminMediaManager2.handleFileUpload getPublicUrl activeTab
                  newMedia env w in
  fst result = Completed ->
  exists f thumbnail,
    let fileName := AdminMediaManager2.fileName_of activeTab f (date_now env) in
    passes_validation newMedia f
    /\ bucket w !! fileName = None
    /\ match thumbnail with
       | Some (p, t) =>
           activeTab = video
           /\ AdminMediaManager2.new_thumbnailFile newMedia = Some t
           /\ p = AdminMediaManager2.thumbnailFileName_of t (date_now env)
           /\ (<[fileName := f]> (bucket w)) !! p = None
       | None => True
       end
    /\ catalog (snd result)
       = (catalog w ++ [uploaded_row getPublicUrl activeTab newMedia f (next_id w)
                          (table_now env) fileName (fst <$> thumbnail)])%list
    /\ next_id (snd result) = S (next_id w)
    /\ bucket (snd result) = bucket_with (bucket w) fileName f thumbnail.
Proof.
  cbv zeta. unfold AdminMediaManager2.handleFileUpload.
  destruct (AdminMediaManager2.new_file newMedia) as [f|] eqn:Ef; [|discriminate].
  destruct (String.eqb _ _) eqn:Etitle; [discriminate|]. cbv zeta.
  destruct (AdminMediaManager2.isValid (AdminMediaManager2.validateFile f false))
    eqn:Ev; [|discriminate]. cbn [negb].
  lazymatch goal with
  | |- context [negb ?b] => destruct b eqn:Evt; [|discriminate]
  end. cbn [negb].
  assert (passes_validation newMedia f) as Hpass.
  { split; [done|]. split; [by apply String.eqb_neq|]. split; [done|].
    by destruct (AdminMediaManager2.new_thumbnailFile newMedia). }
  unfold AdminMediaManager2.upload_validated, storage_upload, table_insert.
  cbn [bucket next_id log_call with_bucket AdminMediaManager2.setUploadState
         AdminMediaManager2.setError show console_error].
  destruct (upload_answer (upload_reply env) _ (bucket w)) eqn:Emain;
    try discriminate.
  apply upload_answer_Resolved in Emain as [_ Hfree].
  destruct (AdminMediaManager2.new_thumbnailFile newMedia) as [t|] eqn:Et,
    activeTab eqn:Etab;
    cbn [bucket next_id log_call with_bucket AdminMediaManager2.setUploadState
           AdminMediaManager2.setError show console_error].
  2:{ destruct (upload_answer (thumbnail_reply env) _ _) eqn:Ethumb;
        try discriminate;
        cbn [bucket next_id log_call with_bucket AdminMediaManager2.setUploadState
               AdminMediaManager2.setError show console_error];
        rewrite new_row_mediaDoc; destruct (insert_reply env); try discriminate;
        intros _.
      - apply upload_answer_Resolved in Ethumb as [_ Hfree2].
        exists f, (Some (AdminMediaManager2.thumbnailFileName_of t (date_now env), t)).
        split; [exact Hpass|]. cbn. by repeat split.
      - exists f, None. split; [exact Hpass|]. cbn. by repeat split. }
  all: rewrite new_row_mediaDoc; destruct (insert_reply env); try discriminate;
    intros _; exists f, None; (split; [exact Hpass|]); cbn; by repeat split.
Qed.

(** X5. Whenever [handleFileUpload] of the second component completes, it
    has appended exactly one row, under the table's next id, of the kind of
    the active tab and not an external link; the row's storage path was free
    before and now holds the selected file, and its URL is the public URL
    of that path; a thumbnail path on the row names a stored copy of the
    selected thumbnail and occurs only on the video tab. *)
Theorem completed_upload_is_consistent (getPublicUrl : string -> string)
    (activeTab : MediaType) (newMedia : AdminMediaManager2.NewMedia)
    (env : UploadEnv) (w : World) :
  let result := AdminMediaManager2.handleFileUpload getPublicUrl activeTab
                  newMedia env w in
  fst result = Completed ->
  exists r f p,
    catalog (snd result) = (catalog w ++ [r])%list
    /\ id r = next_id w /\ mediatype r = activeTab
    /\ isexternallink r = Some false
    /\ AdminMediaManager2.new_file newMedia = Some f
    /\ type r = ftype f
    /\ title r = Some (trim (AdminMediaManager2.new_title newMedia))
    /\ storagepath r = Some p /\ url r = getPublicUrl p
    /\ bucket w !! p = None /\ bucket (snd result) !! p = Some f
    /\ forall tp,
        video_thumbnail_path r = Some tp ->
        activeTab = video
        /\ video_thumbnail_url r = Some (getPublicUrl tp)
        /\ exists t, AdminMediaManager2.new_thumbnailFile newMedia = Some t
                     /\ bucket (snd result) !! tp = Some t.
Proof.
  intros result Hdone.
  destruct (handleFileUpload2_completed getPublicUrl activeTab newMedia env w Hdone)
    as (f & thumbnail & (Hf & _) & Hfree & Hthumb & Hcat & _ & Hbucket).
  eexists _, f, _. split; [exact Hcat|].
  fold result in Hbucket. rewrite Hbucket. cbn.
  repeat split; try done.
  - destruct thumbnail as [[p t]|]; cbn.
    + destruct Hthumb as (_ & _ & _ & Hp). rewrite lookup_insert_ne.
      * apply lookup_insert_eq.
      * intros ->. by rewrite lookup_insert_eq in Hp.
    + apply lookup_insert_eq.
  - destruct thumbnail as [[p t]|]; [|discriminate]. by destruct Hthumb.
  - destruct thumbnail as [[p t]|]; [|discriminate]. cbn in *. by simplify_eq.
  - destruct thumbnail as [[p t]|]; [|discriminate]. cbn in *. simplify_eq.
    destruct Hthumb as (_ & Ht & _). exists t. split; [done|].
    apply lookup_insert_eq.
Qed.

Lemma completed_upload_is_consistent_witness :
  exists r f p,
    catalog (snd (AdminMediaManager2.handleFileUpload sample_cdn video
                    sample_new_video sample_env empty_world))
    = (catalog empty_world ++ [r])%list
    /\ AdminMediaManager2.new_file sample_new_video = Some f
    /\ storagepath r = Some p
    /\ bucket (snd (AdminMediaManager2.handleFileUpload sample_cdn video
                      sample_new_video sample_env empty_world)) !! p = Some f.
Proof.
  destruct (completed_upload_is_consistent sample_cdn video sample_new_video
              sample_env empty_world eq_refl)
    as (r & f & p & Hc & _ & _ & _ & Hf & _ & _ & Hs & _ & _ & Hb & _).
  exists r, f, p. by repeat split.
Defined.

Lemma delete_rows_fresh (rows : list MediaItem) (r : MediaItem) :
  Forall (fun r0 => id r0 < id r) rows ->
  delete_rows (id r) (rows ++ [r]) = rows.
Proof.
  intros Hids. unfold delete_rows. rewrite List.filter_app. cbn.
  rewrite Nat.eqb_refl. cbn. rewrite app_nil_r.
  induction rows as [|r0 rows IH]; [done|].
  apply Forall_cons in Hids as [Hr0 Hids]. cbn.
  assert (Nat.eqb (id r0) (id r) = false) as -> by (apply Nat.eqb_neq; lia).
  cbn. by rewrite IH.
Qed.

Lemma fileName_of_nonempty (activeTab : MediaType) (f : File) (now : N) :
  String.eqb (AdminMediaManager2.fileName_of activeTab f now) "" = false.
Proof. by destruct activeTab. Qed.

Lemma thumbnailFileName_of_nonempty (t : File) (now : N) :
  String.eqb (AdminMediaManager2.thumbnailFileName_of t now) "" = false.
Proof. reflexivity. Qed.

(** X6. Upload then delete is a round trip in the second component: when
    [handleFileUpload] completes on a table whose ids are below the next
    one, deleting the new row with [handleDeleteMedia] (all removals
    answered) restores the table and the bucket, thumbnail included. *)
Theorem upload_then_delete_restores (getPublicUrl : string -> string)
    (activeTab : MediaType) (newMedia : AdminMediaManager2.NewMedia)
    (env : UploadEnv) (w : World) :
  ids_assigned w ->
  let uploaded := AdminMediaManager2.handleFileUpload getPublicUrl activeTab
                    newMedia env w in
  fst uploaded = Completed ->
  exists r,
    catalog (snd uploaded) = (catalog w ++ [r])%list
    /\ let deleted := AdminMediaManager2.handleDeleteMedia r Resolved Resolved
                        Resolved (snd uploaded) in
       fst deleted = Completed
       /\ catalog (snd deleted) = catalog w
       /\ bucket (snd deleted) = bucket w.
Proof.
  intros Hids uploaded Hdone.
  destruct (handleFileUpload2_completed getPublicUrl activeTab newMedia env w Hdone)
    as (f & thumbnail & _ & Hfree & Hthumb & Hcat & _ & Hbucket).
  fold uploaded in Hcat, Hbucket.
  eexists. split; [exact Hcat|].
  unfold AdminMediaManager2.handleDeleteMedia, table_delete, storage_remove.
  cbn [id storagepath video_thumbnail_path isexternallink uploaded_row
         AdminMediaManager2.not_external truthy].
  rewrite fileName_of_nonempty.
  cbn [catalog bucket next_id log_call with_catalog with_bucket
         AdminMediaManager2.setError show foldr].
  rewrite Hcat, Hbucket.
  destruct thumbnail as [[p t]|]; cbn [fmap option_fmap option_map fst truthy].
  - destruct Hthumb as (_ & _ & -> & Hp).
    rewrite thumbnailFileName_of_nonempty.
    cbn [fst snd catalog bucket next_id log_call with_catalog with_bucket foldr
           bucket_with].
    split; [done|]. split.
    + apply (delete_rows_fresh (catalog w)
               (uploaded_row getPublicUrl activeTab newMedia f (next_id w)
                  (table_now env) _ _)). exact Hids.
    + rewrite delete_insert_ne.
      * rewrite (delete_insert_id _ _ _ Hfree). apply delete_insert_id.
        rewrite lookup_insert_ne in Hp; [done|].
        intros Heq. rewrite <- Heq in Hp. by rewrite lookup_insert_eq in Hp.
      * intros Heq. rewrite <- Heq in Hp. by rewrite lookup_insert_eq in Hp.
  - cbn [fst snd catalog bucket next_id log_call with_catalog with_bucket foldr
           bucket_with].
    split; [done|]. split.
    + apply (delete_rows_fresh (catalog w)
               (uploaded_row getPublicUrl activeTab newMedia f (next_id w)
                  (table_now env) _ _)). exact Hids.
    + by apply delete_insert_id.
Qed.

Lemma upload_then_delete_restores_witness :
  exists r,
    catalog (snd (AdminMediaManager2.handleFileUpload sample_cdn video
                    sample_new_video sample_env sample_delete_world))
    = (catalog sample_delete_world ++ [r])%list
    /\ let deleted :=
         AdminMediaManager2.handleDeleteMedia r Resolved Resolved Resolved
           (snd (AdminMediaManager2.handleFileUpload sample_cdn video
                   sample_new_video sample_env sample_delete_world)) in
       fst deleted = Completed
       /\ catalog (snd deleted) = catalog sample_delete_world
       /\ bucket (snd deleted) = bucket sample_delete_world.
Proof.
  apply (upload_then_delete_restores sample_cdn video sample_new_video sample_env
           sample_delete_world).
  - repeat constructor.
  - reflexivity.
Defined.

(** ** Uploads whose row is refused *)

Lemma upload_answer_Thrown (reply : Reply) (p : string) (b : gmap string File) :
  upload_answer reply p b = Thrown -> reply = Thrown.
Proof. unfold upload_answer. by destruct reply, (b !! p). Qed.

(** X7. No compensating delete: when the bucket has taken the main file,
    the upload of a thumbnail does not throw and the table refuses the row,
    [handleFileUpload] of either component reports the table's error,
    leaves the table unchanged, issues no removal, and the uploaded file
    stays in the bucket with no row naming it. *)
Theorem refused_insert_orphans_blob (getPublicUrl : string -> string)
    (env : UploadEnv) (w : World) (f : File) (msg : string) :
  insert_reply env = Rejected msg ->
  thumbnail_reply env <> Thrown ->
  (forall uploadForm,
      AdminMediaManager.form_file uploadForm = Some f ->
      let filePath := AdminMediaManager.filePath_of uploadForm f (date_now env) in
      upload_answer (upload_reply env) filePath (bucket w) = Resolved ->
      let result := AdminMediaManager.handleFileUpload getPublicUrl uploadForm env w in
      fst result = PersistFailed msg
      /\ catalog (snd result) = catalog w
      /\ bucket (snd result) !! filePath = Some f
      /\ List.filter is_storage_remove (calls (snd result))
         = List.filter is_storage_remove (calls w))
  /\ (forall activeTab newMedia,
         passes_validation newMedia f ->
         let fileName := AdminMediaManager2.fileName_of activeTab f (date_now env) in
         upload_answer (upload_reply env) fileName (bucket w) = Resolved ->
         let result := AdminMediaManager2.handleFileUpload getPublicUrl activeTab
                         newMedia env w in
         fst result = PersistFailed msg
         /\ catalog (snd result) = catalog w
         /\ bucket (snd result) !! fileName = Some f
         /\ List.filter is_storage_remove (calls (snd result))
            = List.filter is_storage_remove (calls w)).
Proof.
  intros Hins Hthumb. split.
  - intros uploadForm Hf filePath Hmain result. subst result.
    unfold AdminMediaManager.handleFileUpload. rewrite Hf. fold filePath.
    unfold storage_upload, table_insert.
    cbn [bucket next_id calls log_call with_bucket]. rewrite Hmain, Hins.
    destruct (AdminMediaManager.form_mediatype uploadForm),
      (AdminMediaManager.form_thumbnailFile uploadForm) as [t|];
      cbn [bucket next_id calls log_call with_bucket fst snd catalog
             AdminMediaManager.showNotification show console_error].
    3:{ destruct (upload_answer (thumbnail_reply env) _ _) eqn:Et;
          cbn [bucket next_id calls log_call with_bucket fst snd catalog
                 AdminMediaManager.showNotification show console_error].
        - apply upload_answer_Resolved in Et as [_ Hfree].
          repeat split.
          + rewrite lookup_insert_ne; [apply lookup_insert_eq|].
            intros Heq. rewrite Heq in Hfree. by rewrite lookup_insert_eq in Hfree.
          + rewrite !List.filter_app. cbn. by rewrite !app_nil_r.
        - repeat split; [apply lookup_insert_eq|].
          rewrite !List.filter_app. cbn. by rewrite !app_nil_r.
        - exfalso. apply upload_answer_Thrown in Et. by apply Hthumb. }
    all: repeat split; [apply lookup_insert_eq|];
      rewrite !List.filter_app; cbn; by rewrite !app_nil_r.
  - intros activeTab newMedia (Hf & Htitle & Hv & Hth) fileName Hmain result.
    subst result. unfold AdminMediaManager2.handleFileUpload. rewrite Hf.
    apply String.eqb_neq in Htitle. rewrite Htitle. cbv zeta. rewrite Hv.
    cbn [negb].
    assert (AdminMediaManager2.isValid
              match AdminMediaManager2.new_thumbnailFile newMedia with
              | Some t => AdminMediaManager2.validateFile t true
              | None => AdminMediaManager2.valid
              end = true) as ->.
    { destruct (AdminMediaManager2.new_thumbnailFile newMedia); done. }
    cbn [negb]. unfold AdminMediaManager2.upload_validated. fold fileName.
    unfold storage_upload, table_insert.
    cbn [bucket next_id calls log_call with_bucket
           AdminMediaManager2.setUploadState AdminMediaManager2.setError show].
    rewrite Hmain, Hins.
    destruct (AdminMediaManager2.new_thumbnailFile newMedia) as [t|], activeTab;
      cbn [bucket next_id calls log_call with_bucket fst snd catalog
             AdminMediaManager2.setUploadState AdminMediaManager2.setError
             show console_error].
    2:{ destruct (upload_answer (thumbnail_reply env) _ _) eqn:Et;
          cbn [bucket next_id calls log_call with_bucket fst snd catalog
                 AdminMediaManager2.setUploadState AdminMediaManager2.setError
                 show console_error].
        - apply upload_answer_Resolved in Et as [_ Hfree].
          repeat split.
          + rewrite lookup_insert_ne; [apply lookup_insert_eq|].
            intros Heq. rewrite Heq in Hfree. by rewrite lookup_insert_eq in Hfree.
          + rewrite !List.filter_app. cbn. by rewrite !app_nil_r.
        - repeat split; [apply lookup_insert_eq|].
          rewrite !List.filter_app. cbn. by rewrite !app_nil_r.
        - exfalso. apply upload_answer_Thrown in Et. by apply Hthumb. }
    all: repeat split; [apply lookup_insert_eq|];
      rewrite !List.filter_app; cbn; by rewrite !app_nil_r.
Qed.

Lemma refused_insert_orphans_blob_witness :
  let result := AdminMediaManager2.handleFileUpload sample_cdn artwork
                  sample_new_artwork sample_insert_refused empty_world in
  fst result = PersistFailed "row-level security"
  /\ catalog (snd result) = []
  /\ bucket (snd result) !! "artworks/1700000000000_a.png" = Some sample_png.
Proof.
  destruct (refused_insert_orphans_blob sample_cdn sample_insert_refused
              empty_world sample_png "row-level security" eq_refl) as [_ H].
  - discriminate.
  - assert (passes_validation sample_new_artwork sample_png) as Hp.
    { repeat split; try reflexivity. vm_compute. discriminate. }
    destruct (H artwork sample_new_artwork Hp eq_refl) as (He & Hc & Hb & _).
    by repeat split.
Defined.

(** ** Deletions *)

(** X8. [handleDelete] of the first component removes at most the object at
    the storage path it is given: every other object, the thumbnail of a
    video among them, is still in the bucket afterwards, whatever the
    services answer. *)
Theorem handleDelete_leaves_other_blobs (i : nat) (storagePath : option string)
    (storage_reply delete_reply : Reply) (w : World) (p : string) :
  storagePath <> Some p ->
  bucket (snd (AdminMediaManager.handleDelete i storagePath storage_reply
                 delete_reply w)) !! p
  = bucket w !! p.
Proof.
  intros Hp. unfold AdminMediaManager.handleDelete, storage_remove, table_delete.
  destruct storagePath as [s|]; cbn [truthy]; [|by destruct delete_reply].
  destruct (String.eqb s ""); [by destruct delete_reply|].
  destruct storage_reply, delete_reply; cbn; try done;
    apply lookup_delete_ne; congruence.
Qed.

Lemma handleDelete_leaves_other_blobs_witness :
  let uploaded := snd (AdminMediaManager.handleFileUpload sample_cdn
                         sample_video_form sample_env empty_world) in
  let deleted := AdminMediaManager.handleDelete 0
                   (storagepath sample_video_with_thumbnail) Resolved Resolved
                   uploaded in
  catalog uploaded = [sample_video_with_thumbnail]
  /\ fst deleted = Completed /\ catalog (snd deleted) = []
  /\ bucket (snd deleted) !! "videos/1700000000000_clip.mp4" = None
  /\ bucket (snd deleted) !! "thumbnails/1700000000001_thumbnail_cover.png"
     = Some sample_thumbnail.
Proof.
  cbv zeta. do 4 (split; [reflexivity|]).
  rewrite (handleDelete_leaves_other_blobs 0
             (storagepath sample_video_with_thumbnail) Resolved Resolved
             (snd (AdminMediaManager.handleFileUpload sample_cdn sample_video_form
                     sample_env empty_world))
             "thumbnails/1700000000001_thumbnail_cover.png").
  - reflexivity.
  - discriminate.
Defined.

(** X9. Once the table has deleted the row, [handleDeleteMedia] reports
    success whatever the bucket answers to the removals (short of throwing):
    no row with the item's id is left and the other rows are untouched.
    When both removals are answered, the main file (unless the item is an
    external link) and the thumbnail are gone from the bucket; when both
    are refused, the bucket is unchanged.  Every refused removal is logged,
    the main file's first, and nothing else is written to the console. *)
Theorem handleDeleteMedia_best_effort_removal (item : MediaItem)
    (storage_reply thumbnail_reply : Reply) (w : World) :
  storage_reply <> Thrown -> thumbnail_reply <> Thrown ->
  let result := AdminMediaManager2.handleDeleteMedia item Resolved
                  storage_reply thumbnail_reply w in
  fst result = Completed
  /\ catalog (snd result) = delete_rows (id item) (catalog w)
  /\ Forall (fun r => id r <> id item) (catalog (snd result))
  /\ (storage_reply = Resolved -> thumbnail_reply = Resolved ->
      bucket (snd result) = without_blobs item (bucket w))
  /\ (storage_reply <> Resolved -> thumbnail_reply <> Resolved ->
      bucket (snd result) = bucket w)
  /\ console (snd result)
     = (console w
        ++ refusal_line "Storage deletion error:"
             (if AdminMediaManager2.not_external item
              then truthy (storagepath item) else None)
             storage_reply
        ++ refusal_line "Thumbnail deletion error:"
             (truthy (video_thumbnail_path item)) thumbnail_reply)%list.
Proof.
  intros H1 H2. unfold AdminMediaManager2.handleDeleteMedia, table_delete,
    storage_remove, without_blobs, refusal_line.
  cbn [catalog bucket log_call AdminMediaManager2.setError show with_catalog].
  assert (Forall (fun r => id r <> id item) (delete_rows (id item) (catalog w)))
    as Hgone.
  { apply Forall_forall. intros r Hr.
    apply list_elem_of_In, filter_In in Hr as [_ Hr].
    apply negb_true_iff, Nat.eqb_neq in Hr. exact Hr. }
  destruct (AdminMediaManager2.not_external item), (truthy (storagepath item)),
    (truthy (video_thumbnail_path item)), storage_reply, thumbnail_reply;
    cbn; rewrite <- ?app_assoc, ?app_nil_r; repeat split; try done.
Qed.

Lemma handleDeleteMedia_best_effort_removal_witness :
  let result := AdminMediaManager2.handleDeleteMedia sample_artwork Resolved
                  (Rejected "storage is down") Resolved sample_delete_world in
  fst result = Completed
  /\ catalog (snd result) = []
  /\ bucket (snd result) !! "images/17_a.png" = Some sample_png
  /\ console (snd result) = ["Storage deletion error:"].
Proof.
  destruct (handleDeleteMedia_best_effort_removal sample_artwork
              (Rejected "storage is down") Resolved sample_delete_world)
    as (He & Hc & _ & _ & _ & Hl); [discriminate | discriminate |].
  split; [exact He|]. split; [rewrite Hc; reflexivity|].
  split; [reflexivity|]. rewrite Hl. reflexivity.
Defined.

(** X10. Deleting an external link never calls the object store: for an
    item that is an external link and satisfies the invariants of the data
    model, [handleDeleteMedia] and [handleDelete] (called with the item's
    storage path) issue the row deletion and no removal, and leave the
    bucket as it was. *)
Theorem deleting_link_spares_bucket (item : MediaItem)
    (delete_reply storage_reply thumbnail_reply : Reply) (w : World) :
  record_invariant item -> isexternallink item = Some true ->
  (let result := AdminMediaManager2.handleDeleteMedia item delete_reply
                   storage_reply thumbnail_reply w in
   calls (snd result) = (calls w ++ [TableDelete (id item)])%list
   /\ bucket (snd result) = bucket w)
  /\ (let result := AdminMediaManager.handleDelete (id item) (storagepath item)
                      storage_reply delete_reply w in
      List.filter is_storage_remove (calls (snd result))
      = List.filter is_storage_remove (calls w)
      /\ bucket (snd result) = bucket w).
Proof.
  intros [_ Hinv] Hext. rewrite Hext in Hinv. destruct Hinv as (Hs & _ & Ht).
  unfold AdminMediaManager2.handleDeleteMedia, AdminMediaManager.handleDelete,
    AdminMediaManager2.not_external, table_delete.
  rewrite Hext, Hs, Ht. cbn [truthy].
  destruct delete_reply; cbn; rewrite ?List.filter_app, ?app_nil_r; cbn;
    rewrite ?app_nil_r; by repeat split.
Qed.

Lemma deleting_link_spares_bucket_witness :
  let result := AdminMediaManager2.handleDeleteMedia sample_link_row Resolved
                  Resolved Resolved sample_delete_world in
  calls (snd result) = [TableDelete 1]
  /\ bucket (snd result) = bucket sample_delete_world.
Proof.
  destruct (deleting_link_spares_bucket sample_link_row Resolved Resolved Resolved
              sample_delete_world) as [H _].
  - repeat split; cbn; eauto.
  - reflexivity.
  - exact H.
Defined.

(** ** Validation *)

(** X11. A thumbnail that is not an image, or is over 5 MB, stops
    [handleFileUpload] of the second component before any remote call, on
    either tab: also on the artwork tab, where a thumbnail would not be
    uploaded. *)
Theorem bad_thumbnail_refused_before_network (getPublicUrl : string -> string)
    (activeTab : MediaType) (newMedia : AdminMediaManager2.NewMedia)
    (env : UploadEnv) (w : World) (f t : File) :
  AdminMediaManager2.new_file newMedia = Some f ->
  AdminMediaManager2.new_thumbnailFile newMedia = Some t ->
  (ftype t ∉ AdminMediaManager2.ALLOWED_IMAGE_TYPES)
  \/ (5 * 1024 * 1024 < fsize t)%N ->
  let result := AdminMediaManager2.handleFileUpload getPublicUrl activeTab
                  newMedia env w in
  (exists reason, fst result = Invalid reason)
  /\ calls (snd result) = calls w
  /\ bucket (snd result) = bucket w
  /\ catalog (snd result) = catalog w.
Proof.
  intros Hf Ht Hbad.
  assert (AdminMediaManager2.isValid (AdminMediaManager2.validateFile t true) = false)
    as Hinvalid.
  { unfold AdminMediaManager2.validateFile.
    destruct (includes AdminMediaManager2.ALLOWED_IMAGE_TYPES (ftype t)) eqn:Ei;
      cbn [negb]; [|reflexivity].
    destruct Hbad as [Hbad|Hbad]; [apply includes_false in Hbad; congruence|].
    apply N.ltb_lt in Hbad.
    change ((AdminMediaManager2.MAX_THUMBNAIL_SIZE <? fsize t)%N = true) in Hbad.
    rewrite Hbad. reflexivity. }
  unfold AdminMediaManager2.handleFileUpload. rewrite Hf, Ht.
  destruct (String.eqb _ _); [cbn; eauto|]. cbv zeta.
  destruct (negb (AdminMediaManager2.isValid (AdminMediaManager2.validateFile f false)));
    [cbn; eauto|].
  rewrite Hinvalid. cbn. eauto.
Qed.

Lemma bad_thumbnail_refused_before_network_witness :
  let result := AdminMediaManager2.handleFileUpload sample_cdn artwork
                  sample_artwork_with_thumbnail sample_env empty_world in
  (exists reason, fst result = Invalid reason)
  /\ calls (snd result) = calls empty_world
  /\ bucket (snd result) = bucket empty_world
  /\ catalog (snd result) = catalog empty_world.
Proof.
  apply (bad_thumbnail_refused_before_network sample_cdn artwork
           sample_artwork_with_thumbnail sample_env empty_world sample_png
           sample_huge_thumbnail).
  - reflexivity.
  - reflexivity.
  - right. reflexivity.
Defined.

(** X12. [handleLinkSubmission] refuses a link whose title or URL is empty
    once trimmed (white space only, a no-break space included), or whose
    trimmed URL the URL constructor rejects, before any remote call: nothing
    is inserted. *)
Theorem bad_link_refused_before_network (URL_parses : string -> bool)
    (activeTab : MediaType) (newMedia : AdminMediaManager2.NewMedia) (now : Z)
    (reply : Reply) (w : World) :
  trim (AdminMediaManager2.new_title newMedia) = ""
  \/ trim (AdminMediaManager2.new_externalUrl newMedia) = ""
  \/ URL_parses (trim (AdminMediaManager2.new_externalUrl newMedia)) = false ->
  let result := AdminMediaManager2.handleLinkSubmission URL_parses activeTab
                  newMedia now reply w in
  (exists reason, fst result = Invalid reason)
  /\ calls (snd result) = calls w
  /\ catalog (snd result) = catalog w.
Proof.
  intros Hbad. unfold AdminMediaManager2.handleLinkSubmission.
  destruct (_ || _)%bool eqn:Eblank; [cbn; eauto|].
  apply orb_false_iff in Eblank as [Eu Et].
  apply String.eqb_neq in Eu, Et.
  destruct Hbad as [Hbad|[Hbad|Hbad]]; try done.
  unfold AdminMediaManager2.validateUrl. rewrite Hbad. cbn. eauto.
Qed.

Lemma bad_link_refused_before_network_witness :
  let result := AdminMediaManager2.handleLinkSubmission sample_URL_parses video
                  sample_bad_link 4000 Resolved empty_world in
  let blank := AdminMediaManager2.handleLinkSubmission sample_URL_parses video
                 sample_nbsp_link 4000 Resolved empty_world in
  ((exists reason, fst result = Invalid reason)
   /\ calls (snd result) = calls empty_world
   /\ catalog (snd result) = catalog empty_world)
  /\ ((exists reason, fst blank = Invalid reason)
      /\ calls (snd blank) = calls empty_world
      /\ catalog (snd blank) = catalog empty_world).
Proof.
  split.
  - apply (bad_link_refused_before_network sample_URL_parses video sample_bad_link
             4000 Resolved empty_world).
    right. right. reflexivity.
  - apply (bad_link_refused_before_network sample_URL_parses video sample_nbsp_link
             4000 Resolved empty_world).
    left. reflexivity.
Defined.

(** X13. [handleExternalLinkUpload] of the first component checks only that
    the URL is not the empty string: any other text is stored as the URL
    exactly as typed, neither trimmed nor parsed, tagged by the chosen kind,
    with 'External Link' standing in for a missing title. *)
Theorem handleExternalLinkUpload_stores_url_verbatim
    (uploadForm : AdminMediaManager.UploadForm) (now : Z) (w : World) :
  (AdminMediaManager.form_externalUrl uploadForm = "" ->
   forall reply,
     let result := AdminMediaManager.handleExternalLinkUpload uploadForm now reply w in
     fst result = Invalid "Please enter a valid URL"
     /\ calls (snd result) = calls w /\ catalog (snd result) = catalog w)
  /\ (AdminMediaManager.form_externalUrl uploadForm <> "" ->
      let result := AdminMediaManager.handleExternalLinkUpload uploadForm now
                      Resolved w in
      fst result = Completed
      /\ exists r,
          catalog (snd result) = (catalog w ++ [r])%list
          /\ url r = AdminMediaManager.form_externalUrl uploadForm
          /\ mediatype r = AdminMediaManager.form_mediatype uploadForm
          /\ type r = match AdminMediaManager.form_mediatype uploadForm with
                      | video => "video-link"
                      | artwork => "image-link"
                      end
          /\ (AdminMediaManager.form_title uploadForm = "" ->
              title r = Some "External Link" /\ name r = "External Link")).
Proof.
  unfold AdminMediaManager.handleExternalLinkUpload. split.
  - intros Hurl reply. rewrite Hurl. cbn. by repeat split.
  - intros Hurl. apply String.eqb_neq in Hurl. rewrite Hurl.
    unfold table_insert. cbn [next_id log_call]. rewrite new_row_linkData.
    cbn. split; [done|]. eexists. split; [reflexivity|]. cbn.
    do 3 (split; [reflexivity|]). intros Heq. rewrite Heq. by split.
Qed.

Lemma handleExternalLinkUpload_stores_url_verbatim_witness :
  let result := AdminMediaManager.handleExternalLinkUpload sample_raw_link_form
                  4000 Resolved empty_world in
  fst result = Completed
  /\ map (fun r => (url r, title r, type r)) (catalog (snd result))
     = [ ("  not a url ", Some "External Link", "video-link") ].
Proof.
  destruct (handleExternalLinkUpload_stores_url_verbatim sample_raw_link_form 4000
              empty_world) as [_ H].
  destruct H as (He & r & Hc & Hu & _ & Ht & Hn); [discriminate|].
  split; [exact He|]. rewrite Hc. cbn. destruct (Hn eq_refl) as [Htitle _].
  rewrite Hu, Ht, Htitle. reflexivity.
Defined.

Lemma includes_app (xs ys : list string) (x : string) :
  includes (xs ++ ys) x = (includes xs x || includes ys x)%bool.
Proof. unfold includes. apply existsb_app. Qed.

Lemma validateFile_main_accepted (f : File) :
  AdminMediaManager2.isValid (AdminMediaManager2.validateFile f false) = true ->
  let isImage := includes AdminMediaManager2.ALLOWED_IMAGE_TYPES (ftype f) in
  let isVideo := includes AdminMediaManager2.ALLOWED_VIDEO_TYPES (ftype f) in
  let fileName := toLowerCase (fname f) in
  (isImage || isVideo)%bool = true
  /\ (isImage && (AdminMediaManager2.MAX_IMAGE_SIZE <? fsize f)%N)%bool = false
  /\ (isVideo && (AdminMediaManager2.MAX_VIDEO_SIZE <? fsize f)%N)%bool = false
  /\ (isVideo = true ->
      (String.eqb (ftype f) "video/mp4" && negb (endsWith fileName ".mp4"))%bool = false
      /\ (String.eqb (ftype f) "video/webm" && negb (endsWith fileName ".webm"))%bool
         = false
      /\ (String.eqb (ftype f) "video/ogg" && negb (endsWith fileName ".ogg")
          && negb (endsWith fileName ".ogv"))%bool = false).
Proof.
  unfold AdminMediaManager2.validateFile, AdminMediaManager2.ALL_ALLOWED_TYPES.
  cbv zeta. rewrite includes_app.
  destruct (includes AdminMediaManager2.ALLOWED_IMAGE_TYPES (ftype f)
            || includes AdminMediaManager2.ALLOWED_VIDEO_TYPES (ftype f))%bool;
    cbn [negb]; [|discriminate].
  destruct (includes AdminMediaManager2.ALLOWED_IMAGE_TYPES (ftype f)
            && (AdminMediaManager2.MAX_IMAGE_SIZE <? fsize f)%N)%bool;
    [discriminate|].
  destruct (includes AdminMediaManager2.ALLOWED_VIDEO_TYPES (ftype f)
            && (AdminMediaManager2.MAX_VIDEO_SIZE <? fsize f)%N)%bool;
    [discriminate|].
  destruct (includes AdminMediaManager2.ALLOWED_VIDEO_TYPES (ftype f));
    [|by repeat split].
  destruct (String.eqb (ftype f) "video/mp4" && _)%bool; [discriminate|].
  destruct (String.eqb (ftype f) "video/webm" && _)%bool; [discriminate|].
  destruct (String.eqb (ftype f) "video/ogg" && _ && _)%bool; [discriminate|].
  by repeat split.
Qed.

(** X14. What [validateFile] lets through.  An accepted main file has an
    allowed type, is at most 100 MB, at most 10 MB when it is an image, and
    when it is a video its name ends, ignoring case, with the extension of
    its type.  A thumbnail is accepted exactly when it has an image type
    and is at most 5 MB.  Every rejection carries a message that is not
    empty, so the handlers never fall back on their own text. *)
Theorem validateFile_accepts_only (f : File) :
  (AdminMediaManager2.isValid (AdminMediaManager2.validateFile f false) = true ->
   ftype f ∈ AdminMediaManager2.ALL_ALLOWED_TYPES
   /\ (fsize f <= 100 * 1024 * 1024)%N
   /\ (ftype f ∈ AdminMediaManager2.ALLOWED_IMAGE_TYPES ->
       (fsize f <= 10 * 1024 * 1024)%N)
   /\ (ftype f = "video/mp4" -> endsWith (toLowerCase (fname f)) ".mp4" = true)
   /\ (ftype f = "video/webm" -> endsWith (toLowerCase (fname f)) ".webm" = true)
   /\ (ftype f = "video/ogg" ->
       endsWith (toLowerCase (fname f)) ".ogg" = true
       \/ endsWith (toLowerCase (fname f)) ".ogv" = true))
  /\ (AdminMediaManager2.isValid (AdminMediaManager2.validateFile f true) = true <->
      ftype f ∈ AdminMediaManager2.ALLOWED_IMAGE_TYPES
      /\ (fsize f <= 5 * 1024 * 1024)%N)
  /\ (forall isThumbail fallback,
         AdminMediaManager2.isValid (AdminMediaManager2.validateFile f isThumbail)
         = false ->
         exists msg,
           AdminMediaManager2.error (AdminMediaManager2.validateFile f isThumbail)
           = Some msg
           /\ opt_or_else (Some msg) fallback = msg).
Proof.
  split; [|split].
  - intros Hvalid.
    destruct (validateFile_main_accepted f Hvalid) as (Hall & Hi & Hv & Hext).
    assert (forall ty, ftype f = ty ->
              includes AdminMediaManager2.ALLOWED_VIDEO_TYPES ty = true ->
              includes AdminMediaManager2.ALLOWED_VIDEO_TYPES (ftype f) = true)
      as Hvideo by (by intros ty ->).
    split; [|split; [|split; [|split; [|split]]]].
    + apply includes_true. unfold AdminMediaManager2.ALL_ALLOWED_TYPES.
      by rewrite includes_app.
    + apply orb_true_iff in Hall as [Hall|Hall]; rewrite Hall in *;
        cbn [andb] in *.
      * apply N.ltb_ge in Hi.
        change (AdminMediaManager2.MAX_IMAGE_SIZE) with (10 * 1024 * 1024)%N in Hi.
        lia.
      * apply N.ltb_ge in Hv. exact Hv.
    + intros Himg. apply includes_true in Himg. rewrite Himg in Hi.
      by apply N.ltb_ge in Hi.
    + intros Hty. destruct (Hext (Hvideo _ Hty eq_refl)) as (H4 & _ & _).
      rewrite Hty in H4. cbn [String.eqb andb] in H4.
      change (String.eqb "video/mp4" "video/mp4") with true in H4.
      cbn [andb] in H4. by apply negb_false_iff in H4.
    + intros Hty. destruct (Hext (Hvideo _ Hty eq_refl)) as (_ & Hw & _).
      rewrite Hty in Hw. change (String.eqb "video/webm" "video/webm") with true in Hw.
      cbn [andb] in Hw. by apply negb_false_iff in Hw.
    + intros Hty. destruct (Hext (Hvideo _ Hty eq_refl)) as (_ & _ & Ho).
      rewrite Hty in Ho. change (String.eqb "video/ogg" "video/ogg") with true in Ho.
      cbn [andb] in Ho. apply andb_false_iff in Ho as [Ho|Ho];
        apply negb_false_iff in Ho; auto.
  - unfold AdminMediaManager2.validateFile.
    rewrite <- includes_true.
    destruct (includes AdminMediaManager2.ALLOWED_IMAGE_TYPES (ftype f));
      cbn [negb]; [|by split; [|intros [? _]]].
    destruct (AdminMediaManager2.MAX_THUMBNAIL_SIZE <? fsize f)%N eqn:Es.
    + apply N.ltb_lt in Es. split; [done|]. intros [_ Hle].
      change AdminMediaManager2.MAX_THUMBNAIL_SIZE with (5 * 1024 * 1024)%N in Es.
      lia.
    + apply N.ltb_ge in Es. by split.
  - intros isThumbail fallback. unfold AdminMediaManager2.validateFile. cbv zeta.
    repeat match goal with
           | |- context [if ?b then _ else _] => destruct b
           end; try discriminate; intros _; eexists; (split; [reflexivity|]);
      reflexivity.
Qed.

(** ** The object store *)

Lemma storage_upload_bucket (reply : Reply) (p : string) (f : File) (w : World) :
  bucket w ⊆ bucket (snd (storage_upload reply p f w)).
Proof.
  unfold storage_upload. cbn [log_call bucket].
  destruct (upload_answer reply p (bucket w)) eqn:E; try done.
  apply upload_answer_Resolved in E as [_ E]. cbn. by apply insert_subseteq.
Qed.

Lemma storage_remove_bucket (reply : Reply) (ps : list string) (w : World) :
  bucket (snd (storage_remove reply ps w)) ⊆ bucket w.
Proof.
  unfold storage_remove. destruct reply; cbn; try done.
  induction ps as [|p ps IH]; cbn; [done|].
  etrans; [apply delete_subseteq|done].
Qed.

Lemma table_insert_bucket (reply : Reply) (now : Z) (d : Doc) (w : World) :
  bucket (snd (table_insert reply now d w)) = bucket w.
Proof.
  unfold table_insert. destruct reply; try done. cbn [next_id log_call].
  by destruct (new_row _ _ _).
Qed.

Lemma table_delete_bucket (reply : Reply) (i : nat) (w : World) :
  bucket (snd (table_delete reply i w)) = bucket w.
Proof. unfold table_delete. by destruct reply. Qed.

Lemma table_update_bucket (reply : Reply) (i : nat) (d : Doc) (w : World) :
  bucket (snd (table_update reply i d w)) = bucket w.
Proof.
  unfold table_update. destruct reply; try done. cbn [catalog log_call].
  by destruct (update_rows _ _ _).
Qed.

Ltac unwrap_buckets :=
  cbn [fst snd bucket show console_error log_call
         AdminMediaManager.showNotification AdminMediaManager.fetchMediaItems
         AdminMediaManager2.setError AdminMediaManager2.setUploadState
         AdminMediaManager2.refuse] in *.

Ltac bucket_call :=
  match goal with
  | |- context [storage_upload ?r ?p ?f ?w] =>
      let H := fresh "Hb" in
      pose proof (storage_upload_bucket r p f w) as H;
      destruct (storage_upload r p f w) as [[| |] ?]
  | |- context [storage_remove ?r ?ps ?w] =>
      let H := fresh "Hb" in
      pose proof (storage_remove_bucket r ps w) as H;
      destruct (storage_remove r ps w) as [[| |] ?]
  | |- context [table_insert ?r ?now ?d ?w] =>
      let H := fresh "Hb" in
      pose proof (table_insert_bucket r now d w) as H;
      destruct (table_insert r now d w) as [[| |] ?]
  | |- context [table_delete ?r ?i ?w] =>
      let H := fresh "Hb" in
      pose proof (table_delete_bucket r i w) as H;
      destruct (table_delete r i w) as [[| |] ?]
  | |- context [table_update ?r ?i ?d ?w] =>
      let H := fresh "Hb" in
      pose proof (table_update_bucket r i d w) as H;
      destruct (table_update r i d w) as [[| |] ?]
  end; unwrap_buckets.

Ltac buckets :=
  unwrap_buckets; repeat bucket_call;
  repeat match goal with
         | H : bucket ?a = bucket ?b |- _ => rewrite H in *; clear H
         end;
  solve [ done | etrans; eauto ].

Lemma handleFileUpload1_bucket (getPublicUrl : string -> string)
    (uploadForm : AdminMediaManager.UploadForm) (env : UploadEnv) (w : World) :
  bucket w ⊆ bucket (snd (AdminMediaManager.handleFileUpload getPublicUrl
                            uploadForm env w)).
Proof.
  unfold AdminMediaManager.handleFileUpload.
  destruct (AdminMediaManager.form_file uploadForm) as [f|]; [|buckets].
  destruct (AdminMediaManager.form_mediatype uploadForm),
    (AdminMediaManager.form_thumbnailFile uploadForm); buckets.
Qed.

Lemma handleFileUpload2_bucket (getPublicUrl : string -> string)
    (activeTab : MediaType) (newMedia : AdminMediaManager2.NewMedia)
    (env : UploadEnv) (w : World) :
  bucket w ⊆ bucket (snd (AdminMediaManager2.handleFileUpload getPublicUrl
                            activeTab newMedia env w)).
Proof.
  unfold AdminMediaManager2.handleFileUpload.
  destruct (AdminMediaManager2.new_file newMedia) as [f|]; [|buckets].
  destruct (String.eqb _ _); [buckets|].
  destruct (negb _); [buckets|].
  destruct (negb _); [buckets|].
  unfold AdminMediaManager2.upload_validated.
  destruct (AdminMediaManager2.new_thumbnailFile newMedia), activeTab; buckets.
Qed.

Lemma handleExternalLinkUpload_bucket (uploadForm : AdminMediaManager.UploadForm)
    (now : Z) (reply : Reply) (w : World) :
  bucket (snd (AdminMediaManager.handleExternalLinkUpload uploadForm now reply w))
  = bucket w.
Proof.
  unfold AdminMediaManager.handleExternalLinkUpload.
  destruct (String.eqb _ _); buckets.
Qed.

Lemma handleLinkSubmission_bucket (URL_parses : string -> bool)
    (activeTab : MediaType) (newMedia : AdminMediaManager2.NewMedia) (now : Z)
    (reply : Reply) (w : World) :
  bucket (snd (AdminMediaManager2.handleLinkSubmission URL_parses activeTab
                 newMedia now reply w)) = bucket w.
Proof.
  unfold AdminMediaManager2.handleLinkSubmission.
  destruct (_ || _)%bool; [buckets|].
  destruct (negb _); buckets.
Qed.

Lemma handleUpdate_bucket (i : nat) (editForm : AdminMediaManager.EditForm)
    (reply : Reply) (w : World) :
  bucket (snd (AdminMediaManager.handleUpdate i editForm reply w)) = bucket w.
Proof. unfold AdminMediaManager.handleUpdate. buckets. Qed.

Lemma handleUpdateMedia_bucket (editingItem : option MediaItem) (reply : Reply)
    (w : World) :
  bucket (snd (AdminMediaManager2.handleUpdateMedia editingItem reply w)) = bucket w.
Proof.
  unfold AdminMediaManager2.handleUpdateMedia.
  destruct editingItem as [item|]; [|buckets].
  destruct (title item) as [t|]; [|buckets].
  destruct (String.eqb (trim t) ""); buckets.
Qed.

Lemma handleDelete_bucket (i : nat) (storagePath : option string)
    (storage_reply delete_reply : Reply) (w : World) :
  bucket (snd (AdminMediaManager.handleDelete i storagePath storage_reply
                 delete_reply w)) ⊆ bucket w.
Proof.
  unfold AdminMediaManager.handleDelete.
  destruct (truthy storagePath); buckets.
Qed.

Lemma handleDeleteMedia_bucket (item : MediaItem)
    (delete_reply storage_reply thumbnail_reply : Reply) (w : World) :
  bucket (snd (AdminMediaManager2.handleDeleteMedia item delete_reply
                 storage_reply thumbnail_reply w)) ⊆ bucket w.
Proof.
  unfold AdminMediaManager2.handleDeleteMedia.
  destruct (AdminMediaManager2.not_external item), (truthy (storagepath item)),
    (truthy (video_thumbnail_path item)); buckets.
Qed.

(** X15. Only the upload handlers add objects to the bucket and only the
    delete handlers remove them: over any sequence of admin operations
    without a delete every stored object stays in place with its content,
    so an upload never replaces an object; over any sequence without a file
    upload no object appears or changes.  Edits and link submissions
    therefore leave the bucket as it is. *)
Theorem bucket_changes_by_operation (getPublicUrl : string -> string)
    (URL_parses : string -> bool) (ops : list AdminOp) (w : World) :
  (Forall (fun op => is_delete op = false) ops ->
   bucket w ⊆ bucket (run_ops getPublicUrl URL_parses ops w))
  /\ (Forall (fun op => is_file_upload op = false) ops ->
      bucket (run_ops getPublicUrl URL_parses ops w) ⊆ bucket w).
Proof.
  split; revert w; induction ops as [|op ops IH]; intros w Hops; try done;
    apply Forall_cons in Hops as [Hop Hops]; cbn.
  - etrans; [|by apply IH]. clear IH Hops.
    destruct op; try discriminate Hop; cbn.
    + unfold AdminMediaManager.handleUpload.
      destruct (AdminMediaManager.form_isExternalLink uploadForm).
      * by rewrite handleExternalLinkUpload_bucket.
      * apply handleFileUpload1_bucket.
    + by rewrite handleUpdate_bucket.
    + apply handleFileUpload2_bucket.
    + by rewrite handleLinkSubmission_bucket.
    + by rewrite handleUpdateMedia_bucket.
  - etrans; [by apply IH|]. clear IH Hops.
    destruct op; try discriminate Hop; cbn.
    + unfold AdminMediaManager.handleUpload. cbn in Hop.
      destruct (AdminMediaManager.form_isExternalLink uploadForm); [|done].
      by rewrite handleExternalLinkUpload_bucket.
    + by rewrite handleUpdate_bucket.
    + apply handleDelete_bucket.
    + by rewrite handleLinkSubmission_bucket.
    + apply handleDeleteMedia_bucket.
    + by rewrite handleUpdateMedia_bucket.
Qed.

Lemma bucket_changes_by_operation_witness :
  Forall (fun op => is_delete op = false) sample_uploads
  /\ Forall (fun op => is_file_upload op = false) sample_deletes
  /\ bucket sample_two_rows
     ⊆ bucket (run_ops sample_cdn sample_URL_parses sample_uploads sample_two_rows)
  /\ bucket (run_ops sample_cdn sample_URL_parses sample_deletes sample_two_rows)
     ⊆ bucket sample_two_rows.
Proof.
  assert (Forall (fun op => is_delete op = false) sample_uploads) as Hu
    by (repeat constructor).
  assert (Forall (fun op => is_file_upload op = false) sample_deletes) as Hd
    by (repeat constructor).
  split; [exact Hu|]. split; [exact Hd|]. split.
  - exact (proj1 (bucket_changes_by_operation sample_cdn sample_URL_parses
                    sample_uploads sample_two_rows) Hu).
  - exact (proj2 (bucket_changes_by_operation sample_cdn sample_URL_parses
                    sample_deletes sample_two_rows) Hd).
Defined.

(** ** Storage paths *)

Lemma string_forall_app (p : ascii -> bool) (s t : string) :
  string_forall p (s +:+ t) = (string_forall p s && string_forall p t)%bool.
Proof. induction s as [|c s IH]; simpl; [done|]. by rewrite IH, andb_assoc. Qed.

Lemma pretty_N_char_digit (x : N) : is_digit (pretty_N_char x) = true.
Proof. by destruct x as [|[[[[]|[]|]|[[]|[]|]|]|[[[]|[]|]|[[]|[]|]|]|]]. Qed.

Lemma pretty_N_go_digits (x : N) (s : string) :
  string_forall is_digit s = true -> string_forall is_digit (pretty_N_go x s) = true.
Proof.
  revert s. induction (N.lt_wf_0 x) as [x _ IH]; intros s Hs.
  destruct (decide (x = 0)%N) as [->|Hx]; [by rewrite pretty_N_go_0|].
  rewrite pretty_N_go_step by lia. apply IH.
  - apply N.div_lt; lia.
  - cbn [string_forall]. by rewrite pretty_N_char_digit, Hs.
Qed.

Lemma pretty_digits (n : N) : string_forall is_digit (pretty n) = true.
Proof.
  unfold pretty, pretty_N. destruct (decide (n = 0)%N); [done|].
  by apply pretty_N_go_digits.
Qed.

Lemma is_digit_path_char (c : ascii) : is_digit c = true -> is_path_char c = true.
Proof. by destruct c as [[] [] [] [] [] [] [] []]. Qed.

Lemma string_forall_impl (p q : ascii -> bool) (s : string) :
  (forall c, p c = true -> q c = true) ->
  string_forall p s = true -> string_forall q s = true.
Proof.
  intros Hpq. induction s as [|c s IH]; cbn; [done|].
  intros [Hc Hs]%andb_true_iff. by rewrite (Hpq _ Hc), IH.
Qed.

Lemma sanitize_path_chars (s : string) :
  string_forall is_path_char (sanitize s) = true.
Proof.
  unfold sanitize. induction (units s) as [|u l IH]; [done|].
  cbn [map]. rewrite join_cons, string_forall_app, IH, andb_true_r.
  destruct (in_class is_safe_char u) eqn:E; [|done].
  destruct u as [|c [|]]; try done. cbn in E |- *. unfold is_path_char. by rewrite E.
Qed.

(** Digits, then an underscore: the digits end where the underscore is. *)
Lemma digits_then_underscore (a b s t : string) :
  string_forall is_digit a = true -> string_forall is_digit b = true ->
  a +:+ "_" +:+ s = b +:+ "_" +:+ t -> a = b /\ s = t.
Proof.
  revert b. induction a as [|c a IH]; intros [|d b] Ha Hb Heq; cbn in *.
  - by injection Heq.
  - injection Heq as <- _. by rewrite andb_false_l in Hb.
  - injection Heq as -> _. by rewrite andb_false_l in Ha.
  - injection Heq as -> Heq.
    apply andb_true_iff in Ha as [_ Ha]. apply andb_true_iff in Hb as [_ Hb].
    destruct (IH b Ha Hb Heq) as [-> ->]. done.
Qed.

(** X16. The storage paths of the second component are flat and safe: the
    main file goes to [artworks/] or [videos/] and a thumbnail to
    [thumbnails/], and what follows the folder consists of letters, digits,
    dots, hyphens and underscores only, whatever the name of the chosen
    file; in particular it has no further slash. *)
Theorem upload_paths_are_flat (activeTab : MediaType) (f t : File) (timestamp : N) :
  exists base thumbnailBase,
    AdminMediaManager2.fileName_of activeTab f timestamp
    = mediatype_text activeTab +:+ "s/" +:+ base
    /\ AdminMediaManager2.thumbnailFileName_of t timestamp
       = "thumbnails/" +:+ thumbnailBase
    /\ string_forall is_path_char base = true
    /\ string_forall is_path_char thumbnailBase = true.
Proof.
  exists (pretty timestamp +:+ "_" +:+ sanitize (fname f)),
    (pretty timestamp +:+ "_" +:+ sanitize (fname t)).
  assert (string_forall is_path_char (pretty timestamp) = true) as Hd
    by (eapply string_forall_impl; [apply is_digit_path_char | apply pretty_digits]).
  split; [reflexivity|]. split; [reflexivity|]. split.
  - rewrite !string_forall_app, Hd, sanitize_path_chars. done.
  - rewrite !string_forall_app, Hd, sanitize_path_chars. done.
Qed.

(** X17. Two uploads of the second component get the same storage path
    exactly when they are made on the same tab, in the same millisecond,
    with file names that sanitise to the same text.  A retry at a later
    instant therefore never collides with an earlier upload, while two
    names that differ only in replaced characters do. *)
Theorem fileName_of_collides_iff (activeTab activeTab' : MediaType) (f f' : File)
    (timestamp timestamp' : N) :
  AdminMediaManager2.fileName_of activeTab f timestamp
  = AdminMediaManager2.fileName_of activeTab' f' timestamp'
  <-> activeTab = activeTab' /\ timestamp = timestamp'
      /\ sanitize (fname f) = sanitize (fname f').
Proof.
  split; [|by intros (-> & -> & Hs); unfold AdminMediaManager2.fileName_of; rewrite Hs].
  unfold AdminMediaManager2.fileName_of.
  destruct activeTab, activeTab'; cbn; intros Heq; try discriminate Heq;
    injection Heq as Heq;
    apply digits_then_underscore in Heq as [Ht Hs]; try apply pretty_digits;
    apply (inj pretty) in Ht; done.
Qed.

Lemma fileName_of_collides_iff_witness :
  fname sample_spaced_png <> fname sample_underscored_png
  /\ AdminMediaManager2.fileName_of artwork sample_spaced_png 1700000000000
     = AdminMediaManager2.fileName_of artwork sample_underscored_png 1700000000000
  /\ fname sample_accented_png <> fname sample_blank_png
  /\ AdminMediaManager2.fileName_of artwork sample_accented_png 1700000000000
     = AdminMediaManager2.fileName_of artwork sample_blank_png 1700000000000.
Proof.
  split; [discriminate|]. split; [|split; [discriminate|]].
  - apply (proj2 (fileName_of_collides_iff artwork artwork sample_spaced_png
                    sample_underscored_png 1700000000000 1700000000000)).
    repeat split; reflexivity.
  - apply (proj2 (fileName_of_collides_iff artwork artwork sample_accented_png
                    sample_blank_png 1700000000000 1700000000000)).
    repeat split; reflexivity.
Defined.

(** ** The gallery pages *)

Lemma run_query_matches (q : Query) (rows : list MediaItem) (r : MediaItem) :
  r ∈ run_query q rows -> matches (q_eq_mediatype q) r = true.
Proof.
  unfold run_query, limit_rows, order_rows. intros H.
  assert (r ∈ List.filter (matches (q_eq_mediatype q)) rows) as Hf.
  { destruct (q_limit q) as [k|]; [apply elem_of_take in H as (j & H & _);
      apply list_elem_of_lookup_2 in H|];
      destruct (q_order_created_at q) as [[]|]; try done;
      by rewrite merge_sort_Permutation in H. }
  by apply list_elem_of_In, filter_In in Hf as [_ Hf].
Qed.

Lemma table_select_of_kind (k : MediaType) (reply : Reply) (q : Query)
    (rows : list MediaItem) :
  q_eq_mediatype q = Some k -> response_of_kind k (table_select reply q rows).
Proof.
  intros Hq. destruct reply; try done. cbn. apply Forall_forall. intros r Hr.
  apply run_query_matches in Hr. rewrite Hq in Hr. cbn in Hr.
  by apply bool_decide_eq_true in Hr.
Qed.

Lemma take_response_Forall (P : nat * Response -> Prop) (n : nat)
    (l rest : list (nat * Response)) (resp : Response) :
  take_response n l = Some (resp, rest) -> Forall P l ->
  P (n, resp) /\ Forall P rest.
Proof.
  revert rest. induction l as [|[m r] l IH]; intros rest Ht Hl; [done|].
  apply Forall_cons in Hl as [Hm Hl]. cbn in Ht.
  destruct (Nat.eqb m n) eqn:E.
  - apply Nat.eqb_eq in E as ->. by injection Ht as -> ->.
  - destruct (take_response n l) as [[found rest']|]; [|done].
    injection Ht as -> <-. destruct (IH rest' eq_refl Hl) as [? ?].
    split; [done|]. by apply Forall_cons.
Qed.

Lemma step_of_kind (k : MediaType) (q : Query)
    (resume : Response -> Gallery -> Gallery) (c : Client) (e : Event) :
  q_eq_mediatype q = Some k ->
  (forall resp g, response_of_kind k resp -> rows_of_kind k (mediaItems g) ->
                  rows_of_kind k (mediaItems (resume resp g))) ->
  client_of_kind k c -> client_of_kind k (step q resume c e).
Proof.
  intros Hq Hresume [Hshown Hflight]. destruct e as [reply table|n]; cbn.
  - split; [done|]. cbn. apply Forall_app. split; [done|].
    apply Forall_cons. split; [|done]. by apply table_select_of_kind.
  - destruct (take_response n (in_flight c)) as [[resp rest]|] eqn:Et; [|done].
    destruct (take_response_Forall _ _ _ _ _ Et Hflight) as [Hresp Hrest].
    split; [|done]. cbn. by apply Hresume.
Qed.

Lemma run_client_of_kind (k : MediaType) (q : Query)
    (resume : Response -> Gallery -> Gallery) (evs : list Event) (c : Client) :
  q_eq_mediatype q = Some k ->
  (forall resp g, response_of_kind k resp -> rows_of_kind k (mediaItems g) ->
                  rows_of_kind k (mediaItems (resume resp g))) ->
  client_of_kind k c -> client_of_kind k (run_client q resume c evs).
Proof.
  intros Hq Hresume. revert c. induction evs as [|e evs IH]; intros c Hc; [done|].
  cbn. apply IH. by apply step_of_kind.
Qed.

Lemma filter_all {A : Type} (p : A -> bool) (l : list A) :
  Forall (fun x => p x = true) l -> List.filter p l = l.
Proof.
  induction 1 as [|x l Hx _ IH]; cbn; [done|]. by rewrite Hx, IH.
Qed.

(** X18. The gallery pages show what they fetch.  Whatever the order of
    fetches and arrivals, every row held by the videos page has kind video
    and every row held by the artworks page has kind artwork, because the
    query already asks for the kind; the filter applied before rendering
    therefore never drops a fetched row, and its clause on external links
    with a matching tag never admits a row of the other kind. *)
Theorem galleries_show_what_they_fetch (evs : list Event) :
  let videos :=
    gallery (run_client VideosPageGallery.query
               VideosPageGallery.fetchMediaItems_resume initial_client evs) in
  let artworks :=
    gallery (run_client WorkPageGallery.query
               WorkPageGallery.fetchMediaItems_resume initial_client evs) in
  (rows_of_kind video (mediaItems videos)
   /\ VideosPageGallery.videoItems videos = mediaItems videos)
  /\ (rows_of_kind artwork (mediaItems artworks)
      /\ WorkPageGallery.artworkItems artworks = mediaItems artworks).
Proof.
  assert (client_of_kind video initial_client /\ client_of_kind artwork initial_client)
    as [Hv Ha] by (by repeat split; constructor).
  cbv zeta. split.
  - eapply (run_client_of_kind video VideosPageGallery.query
              VideosPageGallery.fetchMediaItems_resume evs) in Hv as [Hv _];
      [|done|].
    + split; [done|]. apply filter_all. eapply Forall_impl; [exact Hv|].
      intros r Hr. cbn. by rewrite bool_decide_eq_true_2.
    + intros [[rows|]| |] g Hresp Hg; cbn; try done. constructor.
  - eapply (run_client_of_kind artwork WorkPageGallery.query
              WorkPageGallery.fetchMediaItems_resume evs) in Ha as [Ha _];
      [|done|].
    + split; [done|]. apply filter_all. eapply Forall_impl; [exact Ha|].
      intros r Hr. cbn. by rewrite bool_decide_eq_true_2.
    + intros [[rows|]| |] g Hresp Hg; cbn; try done. constructor.
Qed.

Lemma resume_keeps_error (resume : Response -> Gallery -> Gallery)
    (q : Query) (evs : list Event) (c : Client) :
  (forall resp g, truthy (load_error g) <> None ->
                  truthy (load_error (resume resp g)) <> None) ->
  truthy (load_error (gallery c)) <> None ->
  truthy (load_error (gallery (run_client q resume c evs))) <> None.
Proof.
  intros Hresume. revert c. induction evs as [|e evs IH]; intros c Hc; [done|].
  cbn. apply IH. destruct e as [reply table|n]; cbn; [done|].
  destruct (take_response n (in_flight c)) as [[resp rest]|]; [|done].
  cbn. by apply Hresume.
Qed.

(** X19. A gallery page never clears its error.  Once a fetch has failed,
    no later fetch, however successful, brings the rows back on screen:
    the page shows the spinner or the error text until it is mounted
    again. *)
Theorem gallery_error_is_never_cleared (c : Client) (evs : list Event) :
  truthy (load_error (gallery c)) <> None ->
  shows_rows (VideosPageGallery.render
                (gallery (run_client VideosPageGallery.query
                            VideosPageGallery.fetchMediaItems_resume c evs))) = false
  /\ shows_rows (WorkPageGallery.render
                   (gallery (run_client WorkPageGallery.query
                               WorkPageGallery.fetchMediaItems_resume c evs))) = false.
Proof.
  intros Herr. split.
  - apply (resume_keeps_error VideosPageGallery.fetchMediaItems_resume
             VideosPageGallery.query evs) in Herr.
    + unfold VideosPageGallery.render. destruct (loading _); [done|].
      by destruct (truthy _).
    + by intros [| |] g Hg.
  - apply (resume_keeps_error WorkPageGallery.fetchMediaItems_resume
             WorkPageGallery.query evs) in Herr.
    + unfold WorkPageGallery.render. destruct (loading _); [done|].
      by destruct (truthy _).
    + by intros [| |] g Hg.
Qed.

Lemma gallery_error_is_never_cleared_witness :
  truthy (load_error (gallery sample_failed_client)) <> None
  /\ shows_rows
       (VideosPageGallery.render
          (gallery (run_client VideosPageGallery.query
                      VideosPageGallery.fetchMediaItems_resume sample_failed_client
                      [Start Resolved [sample_video]; Arrive 1]))) = false.
Proof.
  assert (truthy (load_error (gallery sample_failed_client)) <> None) as H
    by discriminate.
  split; [exact H|].
  exact (proj1 (gallery_error_is_never_cleared sample_failed_client
                  [Start Resolved [sample_video]; Arrive 1] H)).
Defined.

Lemma failures_keep_loading (q : Query) (resume : Response -> Gallery -> Gallery)
    (evs : list Event) (c : Client) :
  (forall msg g, loading (resume (Failure msg) g) = loading g) ->
  Forall (fun e => answered_with_error e = true) evs ->
  Forall (fun nr => is_failure (snd nr) = true) (in_flight c) ->
  loading (gallery (run_client q resume c evs)) = loading (gallery c).
Proof.
  intros Hresume Hevs. revert c.
  induction Hevs as [|e evs He _ IH]; intros c Hflight; [done|].
  change (run_client q resume c (e :: evs))
    with (run_client q resume (step q resume c e) evs).
  destruct e as [[|msg|] table|n]; try discriminate He.
  - rewrite IH; [done|]. cbn. apply Forall_app. split; [done|]. by constructor.
  - cbn [step].
    destruct (take_response n (in_flight c)) as [[resp rest]|] eqn:Et;
      [|by apply IH].
    destruct (take_response_Forall _ _ _ _ _ Et Hflight) as [Hresp Hrest].
    destruct resp; try discriminate Hresp. rewrite IH; [|done]. cbn. apply Hresume.
Qed.

(** X20. When the table answers every fetch of a gallery page with an
    error, the page shows the spinner for ever: the error branch records the
    message but leaves [loading] set, and the spinner is tested first, so
    the error text never reaches the screen. *)
Theorem refused_fetches_leave_spinner (evs : list Event) :
  Forall (fun e => answered_with_error e = true) evs ->
  VideosPageGallery.render
    (gallery (run_client VideosPageGallery.query
                VideosPageGallery.fetchMediaItems_resume initial_client evs))
  = Spinner
  /\ WorkPageGallery.render
       (gallery (run_client WorkPageGallery.query
                   WorkPageGallery.fetchMediaItems_resume initial_client evs))
     = Spinner.
Proof.
  intros Hevs. unfold VideosPageGallery.render, WorkPageGallery.render.
  rewrite !failures_keep_loading; try done; constructor.
Qed.

Lemma refused_fetches_leave_spinner_witness :
  Forall (fun e => answered_with_error e = true) sample_refused_fetches
  /\ load_error
       (gallery (run_client VideosPageGallery.query
                   VideosPageGallery.fetchMediaItems_resume initial_client
                   sample_refused_fetches)) = Some "Failed to load videos"
  /\ VideosPageGallery.render
       (gallery (run_client VideosPageGallery.query
                   VideosPageGallery.fetchMediaItems_resume initial_client
                   sample_refused_fetches)) = Spinner.
Proof.
  assert (Forall (fun e => answered_with_error e = true) sample_refused_fetches)
    as H by (repeat constructor).
  split; [exact H|]. split; [reflexivity|].
  exact (proj1 (refused_fetches_leave_spinner sample_refused_fetches H)).
Defined.

(** ** The tabs of the admin lists *)

Lemma filter_two {A : Type} (p q : A -> bool) (l : list A) :
  (List.filter p l ++ List.filter q l)%list
  ≡ₚ (List.filter (fun x => p x || q x)%bool l
      ++ List.filter (fun x => p x && q x)%bool l)%list.
Proof.
  induction l as [|x l IH]; cbn; [done|].
  destruct (p x), (q x); cbn.
  - rewrite <- !Permutation_middle. by rewrite IH.
  - by rewrite IH.
  - rewrite <- Permutation_middle. by rewrite IH.
  - done.
Qed.

(** X21. The two tabs of the first admin list cover every item, and the
    items listed under both are exactly the external links whose tag names
    the other kind than their [mediatype]; the tabs of the second admin
    list split the items by [mediatype] alone, each item under one tab. *)
Theorem admin_tabs_cover_items (g : Gallery) :
  (AdminList.filteredMediaItems AdminList.images g
   ++ AdminList.filteredMediaItems AdminList.videos g)%list
  ≡ₚ (mediaItems g ++ List.filter mistagged (mediaItems g))%list
  /\ (AdminMediaManager2.filteredItems artwork (mediaItems g)
      ++ AdminMediaManager2.filteredItems video (mediaItems g))%list
     ≡ₚ mediaItems g.
Proof.
  unfold AdminList.filteredMediaItems, AdminMediaManager2.filteredItems.
  split; rewrite filter_two.
  - rewrite (filter_all _ (mediaItems g)).
    + apply Permutation_app_head. erewrite List.filter_ext; [done|].
      intros r. unfold mistagged.
      by destruct (mediatype r), (external_with_tag "image-link" r),
        (external_with_tag "video-link" r).
    + apply Forall_forall. intros r _.
      by destruct (mediatype r), (external_with_tag "image-link" r).
  - rewrite (filter_all _ (mediaItems g)).
    + erewrite (List.filter_ext _ (fun _ => false)).
      * assert (forall l : list MediaItem, List.filter (fun _ => false) l = [])
          as -> by (by induction l).
        by rewrite app_nil_r.
      * intros r. by destruct (mediatype r).
    + apply Forall_forall. intros r _. by destruct (mediatype r).
Qed.

(** ** The form of a new item *)

Lemma form_step_valid (newMedia : AdminMediaManager2.NewMedia)
    (e : AdminMediaManager2.FormEvent) :
  form_files_valid newMedia ->
  form_files_valid (AdminMediaManager2.form_step newMedia e).
Proof.
  intros [Hf Ht]. destruct e as [| | | | |[file|]|[file|]|]; try (by split);
    cbn [AdminMediaManager2.form_step].
  - unfold AdminMediaManager2.handleFileSelect. cbv zeta.
    destruct (AdminMediaManager2.isValid (AdminMediaManager2.validateFile file false))
      eqn:E; cbn [fst]; [|by split].
    split; [exact E | exact Ht].
  - unfold AdminMediaManager2.handleThumbnailSelect. cbv zeta.
    destruct (AdminMediaManager2.isValid (AdminMediaManager2.validateFile file true))
      eqn:E; cbn [fst]; [|by split].
    split; [exact Hf | exact E].
Qed.

Lemma fill_form_valid (evs : list AdminMediaManager2.FormEvent) :
  form_files_valid (AdminMediaManager2.fill_form evs).
Proof.
  unfold AdminMediaManager2.fill_form.
  assert (form_files_valid AdminMediaManager2.initial_newMedia) as H by done.
  revert H. generalize AdminMediaManager2.initial_newMedia.
  induction evs as [|e evs IH]; intros newMedia H; [done|].
  cbn. apply IH. by apply form_step_valid.
Qed.

(** X22. The form of the second component never holds a file that fails
    [validateFile]: the select handlers admit only valid files and nothing
    else writes the two file fields.  So, however the form was filled, an
    upload is refused at submission only for a missing file or a blank
    title, and otherwise proceeds to the bucket; the checks repeated by
    [handleFileUpload] never fire. *)
Theorem selected_files_need_no_revalidation (getPublicUrl : string -> string)
    (activeTab : MediaType) (evs : list AdminMediaManager2.FormEvent)
    (env : UploadEnv) (w : World) :
  let newMedia := AdminMediaManager2.fill_form evs in
  form_files_valid newMedia
  /\ (forall reason,
         fst (AdminMediaManager2.handleFileUpload getPublicUrl activeTab newMedia
                env w) = Invalid reason ->
         reason = "Please provide a title and select a file"
         /\ (AdminMediaManager2.new_file newMedia = None
             \/ trim (AdminMediaManager2.new_title newMedia) = ""))
  /\ (forall f,
         AdminMediaManager2.new_file newMedia = Some f ->
         trim (AdminMediaManager2.new_title newMedia) <> "" ->
         passes_validation newMedia f).
Proof.
  intros newMedia. pose proof (fill_form_valid evs) as Hvalid.
  fold newMedia in Hvalid. clearbody newMedia. split; [exact Hvalid|].
  destruct Hvalid as [Hf Ht]. split.
  - intros reason. unfold AdminMediaManager2.handleFileUpload.
    destruct (AdminMediaManager2.new_file newMedia) as [f|];
      [|by intros [= <-]; split; [|left]].
    destruct (String.eqb (trim (AdminMediaManager2.new_title newMedia)) "") eqn:E;
      [apply String.eqb_eq in E; by intros [= <-]; split; [|right]|].
    unfold AdminMediaManager2.upload_validated. cbv zeta. rewrite Hf. cbn [negb].
    destruct (AdminMediaManager2.new_thumbnailFile newMedia) as [t|];
      [rewrite Ht|]; cbn [negb AdminMediaManager2.isValid AdminMediaManager2.valid];
      repeat match goal with
             | |- context [storage_upload ?r ?p ?x ?w0] =>
                 destruct (storage_upload r p x w0) as [[| |] ?]
             | |- context [table_insert ?r ?now ?d ?w0] =>
                 destruct (table_insert r now d w0) as [[| |] ?]
             | |- context [match activeTab with _ => _ end] => destruct activeTab
             end; cbn; intros [=].
  - intros f Hfile Htitle. unfold passes_validation.
    rewrite Hfile in Hf. repeat split; done.
Qed.

Lemma selected_files_need_no_revalidation_witness :
  fst (AdminMediaManager2.handleFileUpload sample_cdn video
         (AdminMediaManager2.fill_form sample_form_events) sample_env sample_two_rows)
  = Invalid "Please provide a title and select a file"
  /\ (AdminMediaManager2.new_file (AdminMediaManager2.fill_form sample_form_events)
      = None
      \/ trim (AdminMediaManager2.new_title
                 (AdminMediaManager2.fill_form sample_form_events)) = "").
Proof.
  split; [reflexivity|].
  exact (proj2 (proj1 (proj2 (selected_files_need_no_revalidation sample_cdn video
                                sample_form_events sample_env sample_two_rows))
                  "Please provide a title and select a file" eq_refl)).
Defined.

(** * Links, inquiries and the expressions behind them *)

Lemma in_class_single (p : ascii -> bool) (u : string) :
  in_class p u = true -> exists c, u = String c "" /\ p c = true.
Proof. destruct u as [|c [|]]; try done. intros H. by exists c. Qed.

(** Units of one class of ASCII characters spell a text of that class. *)
Lemma join_in_class (p : ascii -> bool) (l : list string) :
  forallb (in_class p) l = true -> string_forall p (join l) = true.
Proof.
  induction l as [|u l IH]; [done|]. cbn [forallb].
  intros [(c & -> & Hc)%in_class_single Hl]%andb_true_iff.
  change (join (String c "" :: l)) with (String c (join l)).
  cbn [string_forall]. by rewrite Hc, (IH Hl).
Qed.

Lemma units_in_class (p : ascii -> bool) (s : string) :
  (forall c, p c = true -> is_ascii c = true) ->
  string_forall p s = true -> forallb (in_class p) (units s) = true.
Proof.
  intros Hp. induction s as [|c s IH]; [done|]. cbn [string_forall].
  intros [Hc Hs]%andb_true_iff. rewrite units_ascii by by apply Hp.
  cbn. by rewrite Hc, (IH Hs).
Qed.

Lemma is_digit_ascii (c : ascii) : is_digit c = true -> is_ascii c = true.
Proof.
  unfold is_digit, is_ascii. rewrite andb_true_iff, !Nat.leb_le. lia.
Qed.

Lemma consumed_append (s t : list string) : consumed (s ++ t) t = s.
Proof.
  unfold consumed. rewrite length_app.
  replace (length s + length t - length t) with (length s) by lia.
  by rewrite take_app_length.
Qed.

Section Theory.

Variable input : list string.

Lemma iterate_sound (body : list string -> Captures -> Continuation -> option Captures)
    (L : list string -> Prop) (k : Continuation) :
  (forall s caps k' result,
      body s caps k' = Some result ->
      exists s1 s2, s = (s1 ++ s2)%list /\ L s1 /\ k' s2 caps = Some result) ->
  forall fuel s caps result,
    iterate body k fuel s caps = Some result ->
    exists s1 s2, s = (s1 ++ s2)%list /\ star_of L s1 /\ k s2 caps = Some result.
Proof.
  intros Hbody. induction fuel as [|fuel IH]; intros s caps result H; cbn [iterate] in H.
  - exists [], s. repeat split; [constructor | done].
  - destruct (body s caps _) as [result'|] eqn:E.
    + injection H as ->. apply Hbody in E as (s1 & s2 & -> & HL & E).
      cbn beta in E. destruct (Nat.ltb _ _) eqn:Hlt; [|done]. apply Nat.ltb_lt in Hlt.
      apply IH in E as (s3 & s4 & -> & Hstar & E).
      exists (s1 ++ s3)%list, s4. rewrite <- app_assoc. repeat split; [|done].
      constructor; [|done..]. intros ->. rewrite !length_app in Hlt.
      cbn in Hlt. lia.
    + exists [], s. repeat split; [constructor | done].
Qed.

Lemma backtrack_plain_sound (r : Regex) :
  plain r = true ->
  forall s caps k result,
    backtrack input r s caps k = Some result ->
    exists s1 s2, s = (s1 ++ s2)%list /\ lang r s1 /\ k s2 caps = Some result.
Proof.
  induction r as [|p|r1 IH1 r2 IH2|r1 IH1 r2 IH2|r1 IH1|n r1 _| |];
    cbn [plain]; intros Hplain s caps k result H; try done.
  - exists [], s. by repeat split.
  - cbn [backtrack] in H. destruct s as [|u s]; [done|]. destruct (p u) eqn:E; [|done].
    exists [u], s. repeat split; [|done]. by exists u.
  - apply andb_true_iff in Hplain as [H1 H2]. cbn [backtrack] in H.
    apply (IH1 H1) in H as (s1 & s2 & -> & HL1 & H).
    apply (IH2 H2) in H as (s3 & s4 & -> & HL2 & H).
    exists (s1 ++ s3)%list, s4. rewrite <- app_assoc. repeat split; [|done].
    by exists s1, s3.
  - apply andb_true_iff in Hplain as [H1 H2]. cbn [backtrack] in H.
    destruct (backtrack input r1 s caps k) as [result'|] eqn:E.
    + injection H as ->. apply (IH1 H1) in E as (s1 & s2 & -> & HL & E).
      exists s1, s2. repeat split; [by left | done].
    + apply (IH2 H2) in H as (s1 & s2 & -> & HL & E').
      exists s1, s2. repeat split; [by right | done].
  - cbn [backtrack] in H. eapply iterate_sound in H; [exact H|]. intros. by apply IH1.
Qed.

Lemma iterate_complete (body : list string -> Captures -> Continuation -> option Captures)
    (L : list string -> Prop) (k : Continuation) (caps : Captures) :
  (forall s1 s2 k',
      L s1 -> is_Some (k' s2 caps) -> is_Some (body (s1 ++ s2)%list caps k')) ->
  forall s1 s2,
    star_of L s1 -> is_Some (k s2 caps) ->
    forall fuel, length (s1 ++ s2) <= fuel ->
                 is_Some (iterate body k fuel (s1 ++ s2)%list caps).
Proof.
  intros Hbody s1 s2 Hstar Hk. induction Hstar as [|a b Ha HL Hstar IH];
    intros fuel Hfuel.
  - destruct fuel as [|fuel]; cbn; [done|]. by destruct (body _ _ _).
  - destruct fuel as [|fuel].
    { rewrite !length_app in Hfuel. destruct a; [done|]. cbn in Hfuel. lia. }
    cbn [iterate]. rewrite <- app_assoc.
    destruct (body _ _ _) as [result|] eqn:E; [done|].
    assert (is_Some (body (a ++ b ++ s2)%list caps
                       (fun s' caps' =>
                          if Nat.ltb (length s') (length (a ++ b ++ s2))
                          then iterate body k fuel s' caps'
                          else None))) as [x Hx]; [|congruence].
    apply Hbody; [done|].
    assert (length (b ++ s2) < length (a ++ b ++ s2)) as Hlt.
    { rewrite (length_app a). destruct a; [done|]. cbn. lia. }
    apply Nat.ltb_lt in Hlt as Hlt'. rewrite Hlt'. apply IH.
    rewrite <- app_assoc, (length_app a) in Hfuel. destruct a; [done|].
    cbn in Hfuel. lia.
Qed.

Lemma backtrack_plain_complete (r : Regex) :
  plain r = true ->
  forall s1 s2 caps k,
    lang r s1 -> is_Some (k s2 caps) ->
    is_Some (backtrack input r (s1 ++ s2)%list caps k).
Proof.
  induction r as [|p|r1 IH1 r2 IH2|r1 IH1 r2 IH2|r1 IH1|n r1 _| |];
    cbn [plain]; intros Hplain s1 s2 caps k HL Hk; try done.
  - cbn in HL. by subst.
  - destruct HL as (u & -> & Hu). cbn. by rewrite Hu.
  - apply andb_true_iff in Hplain as [H1 H2]. destruct HL as (a & b & -> & Ha & Hb).
    cbn [backtrack]. rewrite <- app_assoc. apply (IH1 H1); [done|]. by apply (IH2 H2).
  - apply andb_true_iff in Hplain as [H1 H2]. cbn [backtrack].
    destruct HL as [HL|HL].
    + destruct (IH1 H1 s1 s2 caps k HL Hk) as [x ->]. done.
    + destruct (backtrack input r1 _ _ _); [done|]. by apply (IH2 H2).
  - cbn [backtrack]. eapply iterate_complete; [|exact HL|done|done].
    intros a b k' Ha Hk'. by apply IH1.
Qed.

Lemma iterate_chars (p : string -> bool) (k : Continuation) (fuel : nat) :
  forall s caps, length s <= fuel ->
                 iterate (backtrack input (Chars p)) k fuel s caps = greedy p k s caps.
Proof.
  induction fuel as [|fuel IH]; intros s caps Hlen.
  - destruct s; [done|]. cbn in Hlen. lia.
  - destruct s as [|u s]; [done|]. cbn in Hlen. cbn [iterate backtrack greedy].
    destruct (p u); [|done].
    assert (Nat.ltb (length s) (length (u :: s)) = true) as ->
      by (apply Nat.ltb_lt; cbn; lia).
    rewrite IH by lia. done.
Qed.

Lemma backtrack_star_chars (p : string -> bool) (s : list string) (caps : Captures)
    (k : Continuation) :
  backtrack input (Star (Chars p)) s caps k = greedy p k s caps.
Proof. cbn [backtrack]. by apply iterate_chars. Qed.

End Theory.

Lemma greedy_total (p : string -> bool) (k : Continuation) (caps : Captures)
    (s : list string) :
  (forall s', is_Some (k s' caps)) ->
  greedy p k s caps = k (drop_while p s) caps.
Proof.
  intros Hk. induction s as [|u s IH]; [done|]. cbn.
  destruct (p u); [|done]. rewrite IH. by destruct (Hk (drop_while p s)) as [x ->].
Qed.

Lemma greedy_sound (p : string -> bool) (k : Continuation) (caps : Captures)
    (s : list string) (result : Captures) :
  greedy p k s caps = Some result ->
  exists s1 s2, s = (s1 ++ s2)%list /\ forallb p s1 = true
                /\ k s2 caps = Some result.
Proof.
  induction s as [|u s IH]; cbn; intros H.
  - exists [], []. by repeat split.
  - destruct (p u) eqn:E; [|exists [], (u :: s); by repeat split].
    destruct (greedy p k s caps) as [result'|] eqn:E'.
    + injection H as ->. destruct (IH eq_refl) as (s1 & s2 & -> & H1 & H2).
      exists (u :: s1), s2. cbn. rewrite E, H1. by repeat split.
    + exists [], (u :: s). by repeat split.
Qed.

Lemma greedy_none (p : string -> bool) (k : Continuation) (caps : Captures)
    (s : list string) :
  (forall s1 s2, s = (s1 ++ s2)%list -> k s2 caps = None) ->
  greedy p k s caps = None.
Proof.
  induction s as [|u s IH]; intros Hk; cbn.
  - by apply (Hk [] []).
  - rewrite IH; [|intros s1 s2 ->; by apply (Hk (u :: s1) s2)].
    rewrite (Hk [] (u :: s) eq_refl). by destruct (p u).
Qed.

(** The greedy star hands over at the last position where the rest of the
    expression succeeds. *)
Lemma greedy_last (p : string -> bool) (k : Continuation) (caps : Captures)
    (s1 s2 : list string) (result : Captures) :
  forallb p s1 = true ->
  k s2 caps = Some result ->
  (forall a b, s2 = (a ++ b)%list -> a <> [] -> k b caps = None) ->
  greedy p k (s1 ++ s2) caps = Some result.
Proof.
  intros Hp Hk Hlater. induction s1 as [|u s1 IH].
  - cbn [app]. destruct s2 as [|u s2]; [done|]. cbn [greedy].
    rewrite greedy_none; [by destruct (p u)|].
    intros a b ->. by apply (Hlater (u :: a) b).
  - cbn in Hp. apply andb_true_iff in Hp as [Hu Hp].
    cbn [app greedy]. by rewrite Hu, (IH Hp).
Qed.

Lemma match_at_anchored (r : Regex) (input s : list string) :
  match_at (Seq StartOfInput r) input s
  = if Nat.eqb (length s) (length input)
    then backtrack input r s no_captures matched
    else None.
Proof. reflexivity. Qed.

Lemma search_anchored_none (r : Regex) (input s : list string) :
  length s < length input ->
  search_from (Seq StartOfInput r) input s = None.
Proof.
  induction s as [|u s IH]; intros Hlen; cbn [search_from];
    rewrite match_at_anchored;
    (destruct (Nat.eqb_spec (length (u :: s)) (length input))
     || destruct (Nat.eqb_spec (length (@nil string)) (length input)));
    try lia; [done|].
  apply IH. cbn in Hlen. lia.
Qed.

Lemma search_anchored (r : Regex) (input : list string) :
  search_from (Seq StartOfInput r) input input
  = backtrack input r input no_captures matched.
Proof.
  destruct input as [|u s]; cbn [search_from];
    rewrite match_at_anchored, Nat.eqb_refl.
  - by destruct (backtrack _ _ _ _ _).
  - destruct (backtrack _ _ _ _ _); [done|]. apply search_anchored_none. cbn. lia.
Qed.

Lemma regex_match_anchored (r : Regex) (input : string) :
  regex_match (Seq StartOfInput r) input
  = backtrack (units input) r (units input) no_captures matched.
Proof. apply search_anchored. Qed.

Lemma take_drop_while (p : string -> bool) (s : list string) :
  (take_while p s ++ drop_while p s)%list = s.
Proof.
  induction s as [|u s IH]; [done|]. cbn. destruct (p u); [|done].
  cbn. by rewrite IH.
Qed.

Lemma take_while_forall (p : string -> bool) (s : list string) :
  forallb p (take_while p s) = true.
Proof.
  induction s as [|u s IH]; [done|]. cbn. destruct (p u) eqn:E; [|done].
  cbn. by rewrite E, IH.
Qed.

Lemma drop_while_head (p : string -> bool) (s : list string) :
  drop_while p s = []
  \/ exists u rest, drop_while p s = u :: rest /\ p u = false.
Proof.
  induction s as [|u s IH]; [by left|]. cbn. destruct (p u) eqn:E; [done|].
  right. by exists u, s.
Qed.

Lemma take_while_all (p : string -> bool) (s rest : list string) :
  forallb p s = true ->
  (rest = [] \/ exists u rest', rest = u :: rest' /\ p u = false) ->
  take_while p (s ++ rest) = s.
Proof.
  intros Hs Hrest. induction s as [|u s IH].
  - cbn [app]. destruct Hrest as [->|(u & rest' & -> & Hu)]; [done|]. cbn. by rewrite Hu.
  - cbn in Hs. apply andb_true_iff in Hs as [Hu Hs]. cbn.
    by rewrite Hu, (IH Hs).
Qed.

Lemma consumed_drop_while (p : string -> bool) (s : list string) :
  consumed s (drop_while p s) = take_while p s.
Proof. by rewrite <- (take_drop_while p s) at 1; rewrite consumed_append. Qed.

Lemma backtrack_seq (input : list string) (r1 r2 : Regex) (s : list string)
    (caps : Captures) (k : Continuation) :
  backtrack input (Seq r1 r2) s caps k
  = backtrack input r1 s caps (fun s' caps' => backtrack input r2 s' caps' k).
Proof. reflexivity. Qed.

Lemma backtrack_group (input : list string) (n : nat) (r : Regex) (s : list string)
    (caps : Captures) (k : Continuation) :
  backtrack input (Group n r) s caps k
  = backtrack input r s caps (fun s' caps' => k s' (capture n (consumed s s') caps')).
Proof. reflexivity. Qed.

Lemma star_chars_matched (input : list string) (p : string -> bool) (s : list string)
    (caps : Captures) :
  backtrack input (Star (Chars p)) s caps matched = Some caps.
Proof. rewrite backtrack_star_chars. by rewrite greedy_total by (by eexists). Qed.

(** What follows the marker: the second group takes the longest run of
    units other than [#], [&] and [?], and the rest always matches. *)
Lemma after_marker (input s : list string) (caps : Captures) :
  backtrack input (Seq (Group 2 (Star (Chars not_delimiter))) (Star (Chars dot))) s caps
    matched
  = Some (capture 2 (take_while not_delimiter s) caps).
Proof.
  rewrite backtrack_seq, backtrack_group, backtrack_star_chars. rewrite greedy_total.
  - cbn beta. by rewrite star_chars_matched, consumed_drop_while.
  - intros s'. cbn beta. rewrite star_chars_matched. by eexists.
Qed.

Lemma lang_lit_units (l s : list string) : lang (lit_units l) s <-> s = l.
Proof.
  revert s. induction l as [|u l IH]; intros s; cbn; [done|]. split.
  - intros (s1 & s2 & -> & (u' & -> & Hu) & Hs2). apply IH in Hs2 as ->.
    apply String.eqb_eq in Hu as ->. done.
  - intros ->. exists [u], l. repeat split; [|by apply IH].
    exists u. split; [done|]. apply String.eqb_refl.
Qed.

Lemma lang_lit (text : string) (s : list string) : lang (lit text) s <-> s = units text.
Proof. apply lang_lit_units. Qed.

Lemma lang_youtube_markers (marker : list string) :
  lang youtube_markers marker <-> is_youtube_marker marker.
Proof.
  unfold youtube_markers, is_youtube_marker. cbn [lang].
  rewrite !lang_lit. split.
  - intros [(s1 & s2 & -> & ->%lang_lit & s3 & s4 & -> & (u & -> & Hu) & ->%lang_lit)
           |[->|[(s1 & s2 & -> & ->%lang_lit & s3 & s4 & -> & (u & -> & Hu)
                  & ->%lang_lit)
           |[->|[->| ->]]]]]; eauto 10.
  - intros [(u & Hu & ->)|[->|[(u & Hu & ->)|[->|[->| ->]]]]]; eauto 10.
    + left. exists (units "youtu"), ([u] ++ units "be/")%list.
      repeat split; [by apply lang_lit|].
      exists [u], (units "be/"). repeat split; [by exists u | by apply lang_lit].
    + right. right. left. exists (units "u/"), ([u] ++ units "/")%list.
      repeat split; [by apply lang_lit|].
      exists [u], (units "/"). repeat split; [by exists u | by apply lang_lit].
Qed.

Lemma backtrack_chars (input : list string) (p : string -> bool) (u : string)
    (s : list string) (caps : Captures) (k : Continuation) :
  backtrack input (Chars p) (u :: s) caps k = if p u then k s caps else None.
Proof. reflexivity. Qed.

Lemma backtrack_eps (input s : list string) (caps : Captures) (k : Continuation) :
  backtrack input Eps s caps k = k s caps.
Proof. reflexivity. Qed.

Lemma backtrack_alt (input : list string) (r1 r2 : Regex) (s : list string)
    (caps : Captures) (k : Continuation) :
  backtrack input (Alt r1 r2) s caps k
  = match backtrack input r1 s caps k with
    | Some result => Some result
    | None => backtrack input r2 s caps k
    end.
Proof. reflexivity. Qed.

Lemma backtrack_lit_units (input l rest : list string) (caps : Captures)
    (k : Continuation) :
  backtrack input (lit_units l) (l ++ rest) caps k = k rest caps.
Proof.
  induction l as [|u l IH]; [done|].
  cbn [lit_units foldr app]. rewrite backtrack_seq, backtrack_chars, String.eqb_refl.
  apply IH.
Qed.

Lemma backtrack_lit_value (input : list string) (text : string) (rest : list string)
    (caps : Captures) (k : Continuation) :
  backtrack input (lit text) (units text ++ rest) caps k = k rest caps.
Proof. apply backtrack_lit_units. Qed.

(** Writes out the units of the literal texts in the goal. *)
Ltac closed_text s :=
  match s with
  | context [?x] => is_var x; fail 1
  | _ => idtac
  end.

Ltac spell :=
  repeat match goal with
    | |- context [units ?s] =>
        closed_text s;
        let l := eval vm_compute in (units s) in
        progress change (units s) with l
    end.

(** At a marker the alternatives hand over to the continuation, and no
    other alternative applies. *)
Lemma youtube_markers_value (input marker rest : list string) (caps : Captures)
    (k : Continuation) :
  is_youtube_marker marker ->
  backtrack input youtube_markers (marker ++ rest) caps k = k rest caps.
Proof.
  intros [(u & Hu & ->)|[->|[(u & Hu & ->)|[->|[->| ->]]]]];
    unfold youtube_markers, lit; spell; cbn; rewrite ?Hu; by destruct (k rest caps).
Qed.

Lemma marker_at_none (input t : list string) (caps : Captures) (k : Continuation) :
  marker_at t = false -> backtrack input youtube_markers t caps k = None.
Proof.
  intros Hnone. destruct (backtrack input youtube_markers t caps k) as [result|] eqn:E;
    [|done].
  apply backtrack_plain_sound in E as (s1 & s2 & -> & HL & _); [|done].
  unfold marker_at, match_at in Hnone.
  destruct (backtrack_plain_complete [] youtube_markers eq_refl s1 s2 no_captures matched HL)
    as [x Hx]; [by eexists|]. by rewrite Hx in Hnone.
Qed.

Lemma marker_within_none (t a b : list string) :
  marker_within t = false -> t = (a ++ b)%list -> marker_at b = false.
Proof.
  intros H ->. induction a as [|u a IH].
  - cbn [app] in H. destruct b; cbn [marker_within] in H;
      by apply orb_false_iff in H as [? _].
  - cbn [app marker_within] in H.
    apply orb_false_iff in H as [_ H]. by apply IH.
Qed.

Lemma later_marker_none (t a b : list string) :
  later_marker t = false -> t = (a ++ b)%list -> a <> [] -> marker_at b = false.
Proof.
  intros Hlater -> Ha. destruct a as [|u a]; [done|].
  cbn [app later_marker] in Hlater. by eapply marker_within_none.
Qed.

Lemma youtube_match (url : string) :
  regex_match youtube_regExp url
  = greedy dot
      (fun rest caps =>
         backtrack (units url)
           (Seq (Group 1 youtube_markers)
              (Seq (Group 2 (Star (Chars not_delimiter))) (Star (Chars dot))))
           rest caps matched)
      (units url) no_captures.
Proof.
  unfold youtube_regExp. by rewrite regex_match_anchored, backtrack_seq, backtrack_star_chars.
Qed.

(** A match of the expression: some marker, and after it the longest run
    of units other than [#], [&] and [?] in the second group. *)
Lemma youtube_regExp_sound (url : string) (caps : Captures) :
  regex_match youtube_regExp url = Some caps ->
  exists pre marker rest,
    units url = (pre ++ marker ++ rest)%list
    /\ forallb dot pre = true
    /\ is_youtube_marker marker
    /\ caps = capture 2 (take_while not_delimiter rest) (capture 1 marker no_captures).
Proof.
  rewrite youtube_match. intros E.
  apply greedy_sound in E as (pre & s2 & Hurl & Hpre & E). cbn beta in E.
  rewrite backtrack_seq, backtrack_group in E.
  apply backtrack_plain_sound in E as (marker & rest & -> & HL & E); [|done].
  cbn beta in E. rewrite after_marker, consumed_append in E. injection E as <-.
  exists pre, marker, rest. repeat split; [done..|].
  by apply lang_youtube_markers.
Qed.

(** The expression takes the last marker of the first line: the group
    before it is as long as it can be. *)
Lemma youtube_regExp_last_marker (url : string) (pre marker rest : list string) :
  units url = (pre ++ marker ++ rest)%list ->
  forallb dot pre = true ->
  is_youtube_marker marker ->
  later_marker (marker ++ rest) = false ->
  regex_match youtube_regExp url
  = Some (capture 2 (take_while not_delimiter rest) (capture 1 marker no_captures)).
Proof.
  intros Hurl Hpre Hmarker Hlater. rewrite youtube_match.
  set (k := fun rest caps => backtrack (units url) _ rest caps matched).
  rewrite Hurl. subst k. apply greedy_last; [done| |].
  - cbn beta. rewrite backtrack_seq, backtrack_group, youtube_markers_value by done.
    cbn beta. by rewrite after_marker, consumed_append.
  - intros a b Hab Ha. cbn beta. rewrite backtrack_seq, backtrack_group.
    apply marker_at_none. by eapply later_marker_none.
Qed.

Lemma join_nonempty (l : list string) :
  Forall unit_shape l -> join l = "" -> l = [].
Proof.
  destruct l as [|u l]; [done|]. intros [Hu _]%Forall_cons. rewrite join_cons.
  by destruct u.
Qed.

Lemma units_ascii_app (a t : string) :
  string_forall is_ascii a = true ->
  units (a +:+ t) = (units a ++ units t)%list.
Proof.
  induction a as [|c a IH]; [done|]. cbn [string_forall].
  intros [Hc Ha]%andb_true_iff. rewrite append_cons, !units_ascii by done.
  cbn [app]. by rewrite IH.
Qed.

(** X23. What [getYouTubeVideoId] returns.  An id is returned only for a
    link that holds one of the markers [youtu.be/] (with any character but
    a line terminator for the dot), [v/], [u/x/], [embed/], [watch?v=] or
    [&v=], with no line terminator before it; the id is the text that
    follows the marker up to the next [#], [&] or [?] or the end of the
    link, and it has exactly eleven UTF-16 code units. *)
Theorem getYouTubeVideoId_sound (url id : string) :
  VideosPageGallery.getYouTubeVideoId url = Some id ->
  exists pre marker id_units post,
    units url = (pre ++ marker ++ id_units ++ post)%list
    /\ id = join id_units
    /\ length id_units = 11
    /\ forallb not_delimiter id_units = true
    /\ forallb dot pre = true
    /\ is_youtube_marker marker
    /\ (post = []
        \/ exists u post', post = u :: post' /\ not_delimiter u = false).
Proof.
  unfold VideosPageGallery.getYouTubeVideoId.
  destruct (regex_match youtube_regExp url) as [caps|] eqn:E; [|done].
  apply youtube_regExp_sound in E as (pre & marker & rest & Hurl & Hpre & Hmarker & ->).
  cbn [capture Nat.eqb].
  destruct (Nat.eqb_spec (length (take_while not_delimiter rest)) 11)
    as [Hlen|]; [|done].
  intros [= <-].
  exists pre, marker, (take_while not_delimiter rest), (drop_while not_delimiter rest).
  rewrite take_drop_while. repeat split; try done.
  - apply take_while_forall.
  - apply drop_while_head.
Qed.

Lemma getYouTubeVideoId_sound_witness :
  VideosPageGallery.getYouTubeVideoId sample_accented_url = Some sample_accented_id
  /\ exists pre marker id_units post,
       units sample_accented_url = (pre ++ marker ++ id_units ++ post)%list
       /\ sample_accented_id = join id_units
       /\ length id_units = 11
       /\ forallb not_delimiter id_units = true
       /\ forallb dot pre = true
       /\ is_youtube_marker marker
       /\ (post = []
           \/ exists u post', post = u :: post' /\ not_delimiter u = false).
Proof.
  assert (VideosPageGallery.getYouTubeVideoId sample_accented_url
          = Some sample_accented_id) as H by (vm_compute; reflexivity).
  split; [exact H|].
  exact (getYouTubeVideoId_sound sample_accented_url sample_accented_id H).
Defined.

(** X24. Which marker [getYouTubeVideoId] uses.  When no further marker
    starts after a marker of the link, and the units before it hold no line
    terminator (LF, CR, U+2028, U+2029), the function reads the units after
    that marker up to the next [#], [&] or [?] and returns them when they
    are eleven; so with several markers in a link the last one decides. *)
Theorem getYouTubeVideoId_last_marker (url : string) (pre marker rest : list string) :
  units url = (pre ++ marker ++ rest)%list ->
  forallb dot pre = true ->
  is_youtube_marker marker ->
  later_marker (marker ++ rest) = false ->
  VideosPageGallery.getYouTubeVideoId url
  = let id := take_while not_delimiter rest in
    if Nat.eqb (length id) 11 then Some (join id) else None.
Proof.
  intros Hurl Hpre Hmarker Hlater. unfold VideosPageGallery.getYouTubeVideoId.
  by rewrite (youtube_regExp_last_marker url pre marker rest).
Qed.

Lemma getYouTubeVideoId_last_marker_witness :
  units "https://www.youtube.com/watch?v=AAAAAAAAAAA&v=dQw4w9WgXcQ"
  = (units "https://www.youtube.com/watch?v=AAAAAAAAAAA" ++ units "&v="
     ++ units "dQw4w9WgXcQ")%list
  /\ forallb dot (units "https://www.youtube.com/watch?v=AAAAAAAAAAA") = true
  /\ is_youtube_marker (units "&v=")
  /\ later_marker (units "&v=" ++ units "dQw4w9WgXcQ") = false
  /\ VideosPageGallery.getYouTubeVideoId
       "https://www.youtube.com/watch?v=AAAAAAAAAAA&v=dQw4w9WgXcQ"
     = Some "dQw4w9WgXcQ".
Proof.
  assert (is_youtube_marker (units "&v=")) as Hmarker
    by (unfold is_youtube_marker; tauto).
  split; [reflexivity|]. split; [reflexivity|]. split; [exact Hmarker|].
  split; [reflexivity|].
  exact (getYouTubeVideoId_last_marker
           "https://www.youtube.com/watch?v=AAAAAAAAAAA&v=dQw4w9WgXcQ"
           (units "https://www.youtube.com/watch?v=AAAAAAAAAAA") (units "&v=")
           (units "dQw4w9WgXcQ") eq_refl eq_refl Hmarker eq_refl).
Defined.

Lemma search_from_sound (r : Regex) (input s : list string) (caps : Captures) :
  search_from r input s = Some caps ->
  exists pre s', s = (pre ++ s')%list /\ match_at r input s' = Some caps.
Proof.
  induction s as [|u s IH]; cbn [search_from].
  - destruct (match_at r input []) eqn:E; [|done]. intros [= ->]. by exists [], [].
  - destruct (match_at r input (u :: s)) eqn:E.
    + intros [= ->]. by exists [], (u :: s).
    + intros (pre & s' & -> & H)%IH. by exists (u :: pre), s'.
Qed.

Lemma search_from_skip (r : Regex) (input : list string) (u : string)
    (s : list string) :
  match_at r input (u :: s) = None ->
  search_from r input (u :: s) = search_from r input s.
Proof. intros H. cbn [search_from]. by rewrite H. Qed.

Lemma search_from_here (r : Regex) (input s : list string) (caps : Captures) :
  match_at r input s = Some caps -> search_from r input s = Some caps.
Proof. intros H. destruct s; cbn [search_from]; by rewrite H. Qed.

Lemma toLowerCase_append (s t : string) :
  toLowerCase (s +:+ t) = toLowerCase s +:+ toLowerCase t.
Proof. induction s as [|c s IH]; [done|]. rewrite append_cons. cbn. by rewrite IH. Qed.

Lemma lang_lit_i_units (l s : list string) :
  lang (lit_i_units l) s -> toLowerCase (join s) = toLowerCase (join l).
Proof.
  revert s. induction l as [|u l IH]; intros s; cbn [lit_i_units foldr lang];
    [by intros ->|].
  intros (s1 & s2 & -> & (x & -> & Hx) & Hs2). apply IH in Hs2.
  apply String.eqb_eq in Hx. cbn [app]. rewrite !join_cons, !toLowerCase_append.
  by rewrite Hx, Hs2.
Qed.

Lemma lang_lit_i (text : string) (s : list string) :
  lang (lit_i text) s -> toLowerCase (join s) = toLowerCase text.
Proof. intros H%lang_lit_i_units. by rewrite join_units in H. Qed.

(** The digits group: one digit, then the longest run of digits. *)
Lemma digits_group_value (input s : list string) (caps : Captures) :
  backtrack input (Group 1 (one_or_more (Chars (in_class is_digit)))) s caps matched
  = match s with
    | d :: rest =>
        if in_class is_digit d
        then Some (capture 1 (d :: take_while (in_class is_digit) rest) caps)
        else None
    | [] => None
    end.
Proof.
  unfold one_or_more. rewrite backtrack_group, backtrack_seq.
  destruct s as [|d rest]; [done|]. rewrite backtrack_chars.
  destruct (in_class is_digit d) eqn:Hd; [|done].
  rewrite backtrack_star_chars, greedy_total by (by eexists).
  unfold matched. do 2 f_equal.
  rewrite <- (take_drop_while (in_class is_digit) rest) at 1.
  by rewrite app_comm_cons, consumed_append.
Qed.

(** A match of the expression: the host in any case, some text, a slash
    and the longest run of digits after it in the first group. *)
Lemma vimeo_regExp_sound (url : string) (caps : Captures) :
  regex_match vimeo_regExp url = Some caps ->
  exists pre host between d rest,
    units url = (pre ++ host ++ between ++ ["/"] ++ d :: rest)%list
    /\ toLowerCase (join host) = "vimeo.com"
    /\ in_class is_digit d = true
    /\ caps = capture 1 (d :: take_while (in_class is_digit) rest) no_captures.
Proof.
  intros E. apply search_from_sound in E as (pre & s & Hurl & E).
  unfold match_at, vimeo_regExp in E.
  rewrite backtrack_seq in E.
  apply backtrack_plain_sound in E as (h1 & s1 & -> & H1 & E); [|done]. cbn beta in E.
  rewrite backtrack_seq in E.
  apply backtrack_plain_sound in E as (h2 & s2 & -> & H2 & E); [|done]. cbn beta in E.
  rewrite backtrack_seq in E.
  apply backtrack_plain_sound in E as (h3 & s3 & -> & H3 & E); [|done]. cbn beta in E.
  rewrite backtrack_seq in E.
  apply backtrack_plain_sound in E as (h4 & s4 & -> & _ & E); [|done]. cbn beta in E.
  rewrite backtrack_seq in E.
  apply backtrack_plain_sound in E as (h5 & s5 & -> & _ & E); [|done]. cbn beta in E.
  rewrite backtrack_seq in E.
  apply backtrack_plain_sound in E as (h6 & s6 & -> & H6 & E); [|done]. cbn beta in E.
  rewrite digits_group_value in E. destruct s6 as [|d rest]; [done|].
  destruct (in_class is_digit d) eqn:Hd; [|done]. injection E as <-.
  apply lang_lit in H2 as ->. apply lang_lit in H6 as ->.
  apply lang_lit_i in H1. apply lang_lit_i in H3.
  exists pre, (h1 ++ units "." ++ h3)%list, (h4 ++ h5)%list, d, rest.
  split; [|split; [|by split]].
  - rewrite Hurl. by rewrite <- !app_assoc.
  - rewrite !join_app, !toLowerCase_append, H1, H3. done.
Qed.

(** X26. What [getVimeoVideoId] returns.  An id is returned only for a
    link that holds [vimeo.com] in any case and, later, a slash followed by
    a digit; the id is the run of digits after that slash, taken to its end,
    so it is never empty and holds digits only. *)
Theorem getVimeoVideoId_sound (url id : string) :
  VideosPageGallery.getVimeoVideoId url = Some id ->
  id <> ""
  /\ string_forall is_digit id = true
  /\ exists pre host between post,
       url = pre +:+ host +:+ between +:+ "/" +:+ id +:+ post
       /\ toLowerCase host = "vimeo.com"
       /\ (post = ""
           \/ exists c post', post = String c post' /\ is_digit c = false).
Proof.
  unfold VideosPageGallery.getVimeoVideoId.
  destruct (regex_match vimeo_regExp url) as [caps|] eqn:E; [|done].
  apply vimeo_regExp_sound in E
    as (pre & host & between & d & rest & Hurl & Hhost & Hd & ->).
  cbn [capture Nat.eqb fmap option_fmap option_map]. intros [= <-].
  rewrite <- !join_cons.
  assert (forallb (in_class is_digit) (d :: take_while (in_class is_digit) rest) = true)
    as Hdigits by (cbn [forallb]; by rewrite Hd, take_while_forall).
  split.
  { apply in_class_single in Hd as (c & -> & _). by rewrite join_cons. }
  split; [by apply join_in_class|].
  exists (join pre), (join host), (join between),
    (join (drop_while (in_class is_digit) rest)).
  split; [|split; [done|]].
  - rewrite <- (join_units url), Hurl, !join_app.
    rewrite <- (take_drop_while (in_class is_digit) rest) at 1.
    by rewrite app_comm_cons, join_app.
  - pose proof (units_shape url) as Hshape. rewrite Hurl in Hshape.
    rewrite <- (take_drop_while (in_class is_digit) rest) in Hshape.
    do 4 apply Forall_app in Hshape as [_ Hshape].
    apply Forall_cons in Hshape as [_ Hshape].
    apply Forall_app in Hshape as [_ Hshape].
    destruct (drop_while_head (in_class is_digit) rest) as [->|(u & rest' & Hrest & Hu)];
      [by left|].
    rewrite Hrest in Hshape |- *. apply Forall_cons in Hshape as [Hshape _].
    right. destruct u as [|c u]; [done|]. exists c, (u +:+ join rest').
    split; [done|]. destruct u as [|c' u]; [done|]. cbn in Hshape.
    destruct (is_digit c) eqn:Hc; [|done]. apply is_digit_ascii in Hc. congruence.
Qed.

Lemma getVimeoVideoId_sound_witness :
  VideosPageGallery.getVimeoVideoId sample_vimeo_url = Some "76979871"
  /\ string_forall is_digit "76979871" = true.
Proof.
  assert (VideosPageGallery.getVimeoVideoId sample_vimeo_url = Some "76979871")
    as H by (vm_compute; reflexivity).
  split; [exact H|].
  exact (proj1 (proj2 (getVimeoVideoId_sound sample_vimeo_url "76979871" H))).
Defined.

Lemma backtrack_lit_i_value (input : list string) (text : string)
    (rest : list string) (caps : Captures) (k : Continuation) :
  backtrack input (lit_i text) (units text ++ rest) caps k = k rest caps.
Proof.
  unfold lit_i. induction (units text) as [|u l IH]; [done|].
  cbn [lit_i_units foldr app]. rewrite backtrack_seq, backtrack_chars, String.eqb_refl.
  apply IH.
Qed.

(** After [vimeo.com] and any text, the expression wants a slash and
    digits; at a slash the four alternatives before it leave only the empty
    one. *)
Lemma vimeo_tail_value (input t : list string) (caps : Captures) :
  backtrack input
    (Seq (Alt (lit_i "videos") (Alt (lit_i "video") (Alt (lit_i "channels") Eps)))
       (Seq (lit "/") (Group 1 (one_or_more (Chars (in_class is_digit))))))
    ("/" :: t) caps matched
  = match t with
    | d :: rest =>
        if in_class is_digit d
        then Some (capture 1 (d :: take_while (in_class is_digit) rest) caps)
        else None
    | [] => None
    end.
Proof.
  rewrite backtrack_seq, !backtrack_alt.
  change (backtrack input (lit_i "videos") ("/" :: t) caps _) with (@None Captures).
  change (backtrack input (lit_i "video") ("/" :: t) caps _) with (@None Captures).
  change (backtrack input (lit_i "channels") ("/" :: t) caps _) with (@None Captures).
  rewrite backtrack_eps. cbn beta. rewrite backtrack_seq.
  change ("/" :: t) with (units "/" ++ t)%list. rewrite backtrack_lit_value. cbn beta.
  apply digits_group_value.
Qed.

Lemma vimeo_tail_none (input t : list string) (caps : Captures) :
  forallb (in_class is_digit) t = true ->
  backtrack input
    (Seq (Alt (lit_i "videos") (Alt (lit_i "video") (Alt (lit_i "channels") Eps)))
       (Seq (lit "/") (Group 1 (one_or_more (Chars (in_class is_digit))))))
    t caps matched = None.
Proof.
  destruct t as [|u t]; [done|]. cbn [forallb].
  intros [(d & -> & Hd)%in_class_single _]%andb_true_iff.
  destruct d as [[] [] [] [] [] [] [] []]; try discriminate Hd; reflexivity.
Qed.

Lemma take_while_whole (p : string -> bool) (s : list string) :
  forallb p s = true -> take_while p s = s.
Proof.
  intros H. rewrite <- (app_nil_r s) at 1. by apply take_while_all; [|left].
Qed.

(** From the host on: the greedy [.*] gives way at the last slash that is
    followed by digits. *)
Lemma vimeo_from_host (input between id : list string) :
  forallb dot between = true ->
  id <> [] -> forallb (in_class is_digit) id = true ->
  match_at vimeo_regExp input (units "vimeo.com" ++ between ++ ["/"] ++ id)
  = Some (capture 1 id no_captures).
Proof.
  intros Hbetween Hid Hdigits. unfold match_at, vimeo_regExp.
  change (units "vimeo.com") with (units "vimeo" ++ units "." ++ units "com")%list.
  rewrite <- !app_assoc.
  rewrite backtrack_seq, backtrack_lit_i_value. cbn beta.
  rewrite backtrack_seq, backtrack_lit_value. cbn beta.
  rewrite backtrack_seq, backtrack_lit_i_value. cbn beta.
  rewrite backtrack_seq, backtrack_star_chars.
  destruct id as [|d rest]; [done|].
  apply greedy_last; [done| |].
  - cbn beta. cbn [app]. rewrite vimeo_tail_value. cbn [forallb] in Hdigits.
    apply andb_true_iff in Hdigits as [-> Hrest]. by rewrite take_while_whole.
  - intros a b Hab Ha. cbn beta. cbn [app] in Hab.
    destruct a as [|x a]; [done|]. injection Hab as <- Hab.
    apply vimeo_tail_none. rewrite Hab in Hdigits. cbn [forallb] in Hdigits.
    rewrite forallb_app in Hdigits. cbn [forallb] in Hdigits.
    destruct (in_class is_digit d), (forallb (in_class is_digit) a); try done.
Qed.

Lemma youtube_no_marker (url : string) :
  marker_within (units url) = false -> VideosPageGallery.getYouTubeVideoId url = None.
Proof.
  intros H. unfold VideosPageGallery.getYouTubeVideoId.
  rewrite youtube_match, greedy_none; [done|].
  intros s1 s2 Hs. rewrite backtrack_seq, backtrack_group. apply marker_at_none.
  by eapply marker_within_none.
Qed.

Lemma digits_no_marker (t : list string) :
  forallb (in_class is_digit) t = true -> marker_within t = false.
Proof.
  induction t as [|u t IH]; [done|]. cbn [forallb marker_within].
  intros [(d & -> & Hd)%in_class_single Ht]%andb_true_iff.
  rewrite (IH Ht), orb_false_r.
  destruct d as [[] [] [] [] [] [] [] []]; try discriminate Hd; reflexivity.
Qed.

Lemma units_digits (id : string) :
  string_forall is_digit id = true -> forallb (in_class is_digit) (units id) = true.
Proof. apply units_in_class, is_digit_ascii. Qed.

(** X27. The usual Vimeo links are recognised: for an id of one or more
    digits, [getVimeoVideoId] returns the id of a page link and of a player
    link, and the modal embeds the player of that id. *)
Theorem vimeo_standard_urls (id : string) :
  id <> "" -> string_forall is_digit id = true ->
  VideosPageGallery.getVimeoVideoId ("https://vimeo.com/" +:+ id) = Some id
  /\ VideosPageGallery.getVimeoVideoId ("https://player.vimeo.com/video/" +:+ id) = Some id
  /\ VideoDetailsModal.getEmbedUrl ("https://vimeo.com/" +:+ id)
     = Some ("https://player.vimeo.com/video/" +:+ id
             +:+ "?autoplay=1&title=0&byline=0&portrait=0").
Proof.
  intros Hid Hdigits.
  pose proof (units_digits id Hdigits) as Hunits.
  assert (units id <> []) as Hne.
  { intros Hnil. apply Hid. by rewrite <- (join_units id), Hnil. }
  assert (VideosPageGallery.getVimeoVideoId ("https://vimeo.com/" +:+ id) = Some id)
    as Hplain.
  { unfold VideosPageGallery.getVimeoVideoId, regex_match.
    rewrite units_ascii_app by reflexivity. spell. cbn [app].
    do 8 (rewrite search_from_skip by reflexivity).
    rewrite (search_from_here _ _ _ (capture 1 (units id) no_captures)).
    - cbn [capture Nat.eqb fmap option_fmap option_map]. by rewrite join_units.
    - by apply (vimeo_from_host _ [] (units id)). }
  split; [exact Hplain|]. split.
  - unfold VideosPageGallery.getVimeoVideoId, regex_match.
    rewrite units_ascii_app by reflexivity. spell. cbn [app].
    do 15 (rewrite search_from_skip by reflexivity).
    rewrite (search_from_here _ _ _ (capture 1 (units id) no_captures)).
    + cbn [capture Nat.eqb fmap option_fmap option_map]. by rewrite join_units.
    + by apply (vimeo_from_host _ (units "/video") (units id)).
  - unfold VideoDetailsModal.getEmbedUrl.
    change VideoDetailsModal.getYouTubeVideoId with VideosPageGallery.getYouTubeVideoId.
    change VideoDetailsModal.getVimeoVideoId with VideosPageGallery.getVimeoVideoId.
    rewrite youtube_no_marker.
    + cbn [truthy]. rewrite Hplain. cbn [truthy].
      destruct (String.eqb_spec id ""); done.
    + rewrite units_ascii_app by reflexivity. spell. cbn [app marker_within].
      rewrite (digits_no_marker (units id) Hunits). reflexivity.
Qed.

Lemma vimeo_standard_urls_witness :
  VideosPageGallery.getVimeoVideoId ("https://vimeo.com/" +:+ "76979871")
  = Some "76979871".
Proof.
  refine (proj1 (vimeo_standard_urls "76979871" _ eq_refl)). discriminate.
Defined.

Lemma youtube_id_after (url : string) (pre marker id post : list string) :
  units url = (pre ++ marker ++ id ++ post)%list ->
  forallb dot pre = true ->
  is_youtube_marker marker ->
  later_marker (marker ++ id ++ post) = false ->
  length id = 11 ->
  forallb not_delimiter id = true ->
  (post = [] \/ exists u post', post = u :: post' /\ not_delimiter u = false) ->
  VideosPageGallery.getYouTubeVideoId url = Some (join id).
Proof.
  intros Hurl Hpre Hmarker Hlater Hlen Hid Hpost.
  unfold VideosPageGallery.getYouTubeVideoId.
  rewrite (youtube_regExp_last_marker url pre marker (id ++ post)) by done.
  cbn [capture Nat.eqb]. by rewrite take_while_all, Hlen.
Qed.

Lemma delimiter_ascii (c : ascii) :
  not_delimiter (String c "") = false -> is_ascii c = true.
Proof.
  unfold not_delimiter. intros H. apply negb_false_iff in H.
  apply orb_true_iff in H as [H|H]; [apply orb_true_iff in H as [H|H]|];
    apply String.eqb_eq in H; injection H as ->; reflexivity.
Qed.

Lemma is_ascii_plain (c : ascii) : is_ascii c = true -> is_continuation c = false.
Proof.
  unfold is_ascii, is_continuation. rewrite Nat.leb_le, andb_false_iff, !Nat.leb_gt. lia.
Qed.

(** X25. The usual YouTube links are recognised.  For an id of eleven
    code units without [#], [&] and [?], followed by nothing or by a query
    or fragment that starts with one of these, and with no marker inside the
    id and what follows it, [getYouTubeVideoId] returns the id of a watch
    link, of a short link and of an embed link; the gallery then shows the
    poster of that id and the modal embeds its player. *)
Theorem youtube_standard_urls (id post : string) :
  length (units id) = 11 ->
  forallb not_delimiter (units id) = true ->
  (post = ""
   \/ exists c post', post = String c post' /\ not_delimiter (String c "") = false) ->
  marker_within (units (id +:+ post)) = false ->
  VideosPageGallery.getYouTubeVideoId ("https://www.youtube.com/watch?v=" +:+ id +:+ post) = Some id
  /\ VideosPageGallery.getYouTubeVideoId ("https://youtu.be/" +:+ id +:+ post) = Some id
  /\ VideosPageGallery.getYouTubeVideoId ("https://www.youtube.com/embed/" +:+ id +:+ post) = Some id
  /\ VideosPageGallery.getYouTubeThumbnail ("https://youtu.be/" +:+ id +:+ post)
     = "https://img.youtube.com/vi/" +:+ id +:+ "/maxresdefault.jpg"
  /\ VideoDetailsModal.getEmbedUrl ("https://www.youtube.com/watch?v=" +:+ id +:+ post)
     = Some ("https://www.youtube.com/embed/" +:+ id
             +:+ "?autoplay=1&rel=0&modestbranding=1").
Proof.
  intros Hlen Hid Hpost Hwithin.
  assert (id <> "") as Hne by (by intros ->).
  assert (units (id +:+ post) = (units id ++ units post)%list) as Hsplit.
  { apply units_app. destruct Hpost as [->|(c & post' & -> & Hc)]; [done|].
    cbn. by rewrite (is_ascii_plain c (delimiter_ascii c Hc)). }
  assert (units post = []
          \/ exists u post', units post = u :: post' /\ not_delimiter u = false)
    as Hpost'.
  { destruct Hpost as [->|(c & post' & -> & Hc)]; [by left|]. right.
    exists (String c ""), (units post'). split; [|done].
    apply units_ascii. by apply delimiter_ascii. }
  rewrite Hsplit in Hwithin.
  assert (forall base pre marker : string,
             base = pre +:+ marker ->
             string_forall is_ascii base = true ->
             units base = (units pre ++ units marker)%list ->
             forallb dot (units pre) = true ->
             is_youtube_marker (units marker) ->
             later_marker (units marker ++ units id ++ units post) = false ->
             VideosPageGallery.getYouTubeVideoId (base +:+ id +:+ post) = Some id)
    as Hafter.
  { intros base pre marker -> Hascii Hbase Hpre Hmarker Hlater.
    rewrite <- (join_units id) at 2.
    apply (youtube_id_after _ (units pre) (units marker) (units id) (units post));
      try done.
    by rewrite units_ascii_app, Hbase, Hsplit, <- app_assoc by done. }
  assert (VideosPageGallery.getYouTubeVideoId ("https://www.youtube.com/watch?v=" +:+ id +:+ post)
          = Some id) as Hwatch.
  { apply (Hafter _ "https://www.youtube.com/" "watch?v="); try done.
    unfold is_youtube_marker. tauto. }
  assert (VideosPageGallery.getYouTubeVideoId ("https://youtu.be/" +:+ id +:+ post) = Some id)
    as Hshort.
  { apply (Hafter _ "https://" "youtu.be/"); try done.
    left. by exists ".". }
  split; [exact Hwatch|]. split; [exact Hshort|]. split; [|split].
  - apply (Hafter _ "https://www.youtube.com/" "embed/"); try done.
    unfold is_youtube_marker. tauto.
  - unfold VideosPageGallery.getYouTubeThumbnail. rewrite Hshort. cbn [truthy].
    by destruct (String.eqb_spec id "").
  - unfold VideoDetailsModal.getEmbedUrl.
    change VideoDetailsModal.getYouTubeVideoId with VideosPageGallery.getYouTubeVideoId.
    rewrite Hwatch. cbn [truthy].
    by destruct (String.eqb_spec id "").
Qed.

Lemma youtube_standard_urls_witness :
  VideosPageGallery.getYouTubeVideoId
    ("https://youtu.be/" +:+ "dQw4w9WgXcQ" +:+ "?si=abc")
  = Some "dQw4w9WgXcQ".
Proof.
  refine (proj1 (proj2 (youtube_standard_urls "dQw4w9WgXcQ" "?si=abc"
                          eq_refl eq_refl _ eq_refl))).
  right. by exists "?"%char, "si=abc".
Defined.

Lemma take_while_shape (p : string -> bool) (l : list string) :
  Forall unit_shape l -> Forall unit_shape (take_while p l).
Proof.
  induction 1 as [|u l Hu _ IH]; [constructor|]. cbn. destruct (p u); by constructor.
Qed.

(** X28. What the modal embeds.  [getEmbedUrl] returns a player address
    only when one of the two ids is found, YouTube first: the address is the
    fixed text of the player, the id and the fixed query.  The YouTube id
    has eleven code units and none of [#], [&] and [?], the Vimeo id is a
    run of digits, so the id never alters the query that follows it. *)
Theorem getEmbedUrl_sound (url embed : string) :
  VideoDetailsModal.getEmbedUrl url = Some embed ->
  (exists id_units,
      embed = "https://www.youtube.com/embed/" +:+ join id_units
              +:+ "?autoplay=1&rel=0&modestbranding=1"
      /\ VideoDetailsModal.getYouTubeVideoId url = Some (join id_units)
      /\ length id_units = 11 /\ forallb not_delimiter id_units = true)
  \/ (exists id,
         embed = "https://player.vimeo.com/video/" +:+ id
                 +:+ "?autoplay=1&title=0&byline=0&portrait=0"
         /\ VideoDetailsModal.getYouTubeVideoId url = None
         /\ VideoDetailsModal.getVimeoVideoId url = Some id
         /\ id <> "" /\ string_forall is_digit id = true).
Proof.
  assert (forall caps,
             regex_match vimeo_regExp url = Some caps ->
             exists id, join <$> caps 1 = Some id /\ id <> ""
                        /\ string_forall is_digit id = true) as Hvimeo.
  { intros caps (? & ? & ? & d & rest' & _ & _ & Hd & ->)%vimeo_regExp_sound.
    exists (join (d :: take_while (in_class is_digit) rest')).
    split; [done|]. split.
    - apply in_class_single in Hd as (c & -> & _). by rewrite join_cons.
    - apply join_in_class. cbn [forallb]. by rewrite Hd, take_while_forall. }
  unfold VideoDetailsModal.getEmbedUrl, VideoDetailsModal.getYouTubeVideoId,
    VideoDetailsModal.getVimeoVideoId.
  destruct (regex_match youtube_regExp url) as [caps|] eqn:Ey.
  - apply youtube_regExp_sound in Ey as (pre & marker & rest & Hurl & _ & _ & ->).
    cbn [capture Nat.eqb].
    destruct (Nat.eqb_spec (length (take_while not_delimiter rest)) 11)
      as [Hlen|]; cbn [truthy].
    + destruct (String.eqb_spec (join (take_while not_delimiter rest)) "")
        as [Hempty|_].
      { apply join_nonempty in Hempty; [by rewrite Hempty in Hlen|].
        apply take_while_shape. pose proof (units_shape url) as Hshape.
        rewrite Hurl in Hshape. by do 2 apply Forall_app in Hshape as [_ Hshape]. }
      intros [= <-]. left. exists (take_while not_delimiter rest).
      repeat split; [done|apply take_while_forall].
    + destruct (regex_match vimeo_regExp url) as [caps|] eqn:Ev; [|done].
      destruct (Hvimeo caps eq_refl) as (id & -> & Hne & Hdigits). cbn [truthy].
      destruct (String.eqb_spec id ""); [done|]. intros [= <-]. right.
      by exists id.
  - cbn [truthy].
    destruct (regex_match vimeo_regExp url) as [caps|] eqn:Ev; [|done].
    destruct (Hvimeo caps eq_refl) as (id & -> & Hne & Hdigits). cbn [truthy].
    destruct (String.eqb_spec id ""); [done|]. intros [= <-]. right.
    by exists id.
Qed.

Lemma getEmbedUrl_sound_witness :
  VideoDetailsModal.getEmbedUrl sample_vimeo_url
  = Some "https://player.vimeo.com/video/76979871?autoplay=1&title=0&byline=0&portrait=0"
  /\ VideoDetailsModal.getYouTubeVideoId sample_vimeo_url = None.
Proof.
  assert (VideoDetailsModal.getEmbedUrl sample_vimeo_url
          = Some "https://player.vimeo.com/video/76979871?autoplay=1&title=0&byline=0&portrait=0")
    as H by (vm_compute; reflexivity).
  split; [exact H|].
  destruct (getEmbedUrl_sound sample_vimeo_url _ H) as [(id & _ & Hy & _)|(id & _ & Hy & _)];
    [|exact Hy].
  exfalso. revert Hy. vm_compute. discriminate.
Defined.

Lemma star_of_chars (p : string -> bool) (s : list string) :
  star_of (lang (Chars p)) s <-> forallb p s = true.
Proof.
  split.
  - induction 1 as [|s1 s2 _ (u & -> & Hu) _ IH]; [done|].
    cbn. by rewrite Hu, IH.
  - induction s as [|u s IH]; [constructor|]. cbn.
    intros [Hu Hs]%andb_true_iff. change (u :: s) with ([u] ++ s)%list.
    constructor; [done|by exists u|by apply IH].
Qed.

Lemma lang_one_or_more_chars (p : string -> bool) (s : list string) :
  lang (one_or_more (Chars p)) s <-> s <> [] /\ forallb p s = true.
Proof.
  unfold one_or_more. cbn [lang]. split.
  - intros (s1 & s2 & -> & (u & -> & Hu) & Hs2%star_of_chars).
    cbn. by rewrite Hu, Hs2.
  - intros [Hne Hs]. destruct s as [|u s]; [done|]. cbn in Hs.
    apply andb_true_iff in Hs as [Hu Hs]. exists [u], s.
    repeat split; [by exists u | by apply star_of_chars].
Qed.

Lemma backtrack_end (input s : list string) (caps : Captures) (k : Continuation) :
  backtrack input EndOfInput s caps k = match s with [] => k s caps | _ => None end.
Proof. by destruct s. Qed.

(** The expression of the inquiry form accepts exactly the addresses of the
    form [local@domain.tld]. *)
Lemma emailRegex_accepts (email : string) :
  regex_test PurchaseEmailModal.emailRegex email = true <-> well_formed_email email.
Proof.
  unfold regex_test, PurchaseEmailModal.emailRegex. rewrite regex_match_anchored.
  generalize (units email) at 1. intros input. unfold well_formed_email.
  generalize (units email). intros s. split.
  - destruct (backtrack _ _ _ _ _) as [result|] eqn:E; [intros _|done].
    rewrite backtrack_seq in E.
    apply backtrack_plain_sound in E as (a & s1 & -> & [Ha1 Ha2]%lang_one_or_more_chars & E);
      [|done]. cbn beta in E. rewrite backtrack_seq in E.
    apply backtrack_plain_sound in E as (x & s2 & -> & ->%lang_lit & E); [|done].
    cbn beta in E. rewrite backtrack_seq in E.
    apply backtrack_plain_sound in E as (b & s3 & -> & [Hb1 Hb2]%lang_one_or_more_chars & E);
      [|done]. cbn beta in E. rewrite backtrack_seq in E.
    apply backtrack_plain_sound in E as (y & s4 & -> & ->%lang_lit & E); [|done].
    cbn beta in E. rewrite backtrack_seq in E.
    apply backtrack_plain_sound in E as (c & s5 & -> & [Hc1 Hc2]%lang_one_or_more_chars & E);
      [|done]. cbn beta in E. rewrite backtrack_end in E.
    destruct s5; [|done]. rewrite app_nil_r. by exists a, b, c.
  - intros (a & b & c & -> & Ha1 & Hb1 & Hc1 & Ha2 & Hb2 & Hc2).
    assert (is_Some (backtrack input
                       (Seq (one_or_more (Chars PurchaseEmailModal.email_char))
                          (Seq (lit "@")
                             (Seq (one_or_more (Chars PurchaseEmailModal.email_char))
                                (Seq (lit ".")
                                   (Seq (one_or_more (Chars PurchaseEmailModal.email_char)) EndOfInput)))))
                       (a ++ ["@"] ++ b ++ ["."] ++ c) no_captures matched))
      as [result ->]; [|done].
    rewrite backtrack_seq. apply backtrack_plain_complete; [done|by apply lang_one_or_more_chars|].
    rewrite backtrack_seq. change ["@"] with (units "@"). rewrite backtrack_lit_value.
    cbn beta.
    rewrite backtrack_seq. apply backtrack_plain_complete; [done|by apply lang_one_or_more_chars|].
    rewrite backtrack_seq. change ["."] with (units "."). rewrite backtrack_lit_value.
    cbn beta.
    rewrite backtrack_seq. rewrite <- (app_nil_r c).
    apply backtrack_plain_complete; [done|by apply lang_one_or_more_chars|].
    by eexists.
Qed.

Lemma trimEnd_not_blank (u : string) (l : list string) :
  is_space u = false -> exists l', trimEnd (u :: l) = u :: l'.
Proof.
  intros Hu. cbn [trimEnd]. rewrite Hu. destruct (trimEnd l); by eexists.
Qed.

Lemma well_formed_email_not_blank (email : string) :
  well_formed_email email -> trim email <> "".
Proof.
  intros ([|u local] & domain & tld & Hunits & Hl & _ & _ & Hu & _); [done|].
  cbn [forallb] in Hu. apply andb_true_iff in Hu as [Hu _].
  unfold PurchaseEmailModal.email_char in Hu. apply negb_true_iff in Hu.
  apply orb_false_iff in Hu as [Hu _].
  pose proof (units_shape email) as Hshape. unfold trim. rewrite Hunits in Hshape |- *.
  cbn [app trimStart] in Hshape |- *. rewrite Hu.
  destruct (trimEnd_not_blank u (local ++ "@" :: domain ++ "." :: tld) Hu) as [l' ->].
  apply Forall_cons in Hshape as [Hshape _]. rewrite join_cons. by destruct u.
Qed.

(** X29. When the inquiry form posts.  [handleSubmit] of the purchase
    modal calls the edge function exactly when the name is not blank and the
    address has the form [local@domain.tld] with no blank and no second [@]
    anywhere, so an address with a blank before or after it is refused
    although it is not blank; the name and the address are sent as typed.
    Success is shown, and the modal closes, only when the function was
    called and answered with a truthy [success]; at every exit the form is
    not loading and shows either success or an error. *)
Theorem purchase_inquiry_sent_iff (props : PurchaseEmailModal.Props)
    (formData : PurchaseEmailModal.FormData) (now : string)
    (reply : PurchaseEmailModal.FetchReply) :
  let outcome := PurchaseEmailModal.handleSubmit props formData now reply in
  let state := PurchaseEmailModal.emailState outcome in
  (PurchaseEmailModal.requests outcome <> []
   <-> trim (PurchaseEmailModal.fd_name formData) <> ""
       /\ well_formed_email (PurchaseEmailModal.fd_email formData))
  /\ (forall inquiry,
         inquiry ∈ PurchaseEmailModal.requests outcome ->
         PurchaseEmailModal.customerName inquiry = PurchaseEmailModal.fd_name formData
         /\ PurchaseEmailModal.customerEmail inquiry
            = PurchaseEmailModal.fd_email formData)
  /\ (PurchaseEmailModal.isSuccess state = true
      <-> PurchaseEmailModal.requests outcome <> []
          /\ reply = PurchaseEmailModal.HttpSuccess)
  /\ PurchaseEmailModal.isLoading state = false
  /\ PurchaseEmailModal.isError state = negb (PurchaseEmailModal.isSuccess state)
  /\ PurchaseEmailModal.closes outcome = PurchaseEmailModal.isSuccess state.
Proof.
  cbv zeta. unfold PurchaseEmailModal.handleSubmit.
  pose proof (emailRegex_accepts (PurchaseEmailModal.fd_email formData)) as Hre.
  assert (forall message : string,
             let outcome :=
               PurchaseEmailModal.mkOutcome []
                 (PurchaseEmailModal.mkEmailState false false true message) false in
             ~ (trim (PurchaseEmailModal.fd_name formData) <> ""
                /\ well_formed_email (PurchaseEmailModal.fd_email formData)) ->
             (PurchaseEmailModal.requests outcome <> []
              <-> trim (PurchaseEmailModal.fd_name formData) <> ""
                  /\ well_formed_email (PurchaseEmailModal.fd_email formData))
             /\ (forall inquiry,
                    inquiry ∈ PurchaseEmailModal.requests outcome ->
                    PurchaseEmailModal.customerName inquiry
                    = PurchaseEmailModal.fd_name formData
                    /\ PurchaseEmailModal.customerEmail inquiry
                       = PurchaseEmailModal.fd_email formData)
             /\ (PurchaseEmailModal.isSuccess (PurchaseEmailModal.emailState outcome)
                 = true
                 <-> PurchaseEmailModal.requests outcome <> []
                     /\ reply = PurchaseEmailModal.HttpSuccess)
             /\ PurchaseEmailModal.isLoading (PurchaseEmailModal.emailState outcome)
                = false
             /\ PurchaseEmailModal.isError (PurchaseEmailModal.emailState outcome)
                = negb (PurchaseEmailModal.isSuccess
                          (PurchaseEmailModal.emailState outcome))
             /\ PurchaseEmailModal.closes outcome
                = PurchaseEmailModal.isSuccess (PurchaseEmailModal.emailState outcome))
    as Hrefused.
  { intros message outcome Hnot. subst outcome. cbn.
    split; [by split|]. split; [by intros inquiry H%elem_of_nil|].
    split; [split; [done | by intros [? _]]|]. done. }
  destruct (String.eqb_spec (trim (PurchaseEmailModal.fd_name formData)) "")
    as [Hname|Hname]; cbn [orb]; [apply Hrefused; by intros [? _]|].
  destruct (String.eqb_spec (trim (PurchaseEmailModal.fd_email formData)) "")
    as [Hemail|Hemail];
    [apply Hrefused; intros [_ Hwf];
     by apply well_formed_email_not_blank in Hwf|].
  destruct (regex_test _ _) eqn:Et; cbn [negb];
    [|apply Hrefused; intros [_ Hwf]; by apply Hre in Hwf].
  pose proof (proj1 Hre eq_refl) as Hwf. clear Hrefused.
  destruct reply; cbn;
    (split; [by split|]); (split; [by intros inquiry ->%list_elem_of_singleton|]);
    (split; [split; [done | by intros [_ [=]]]|]); done.
Qed.

Lemma purchase_inquiry_sent_iff_witness :
  let blank_name :=
    PurchaseEmailModal.handleSubmit sample_props
      (PurchaseEmailModal.mkFormData nbsp "ana@example.org" "") "2024-05-01"
      PurchaseEmailModal.HttpSuccess in
  let spaced_address :=
    PurchaseEmailModal.handleSubmit sample_props
      (PurchaseEmailModal.mkFormData "Ana" ("ana@example.org" +:+ nbsp) "") "2024-05-01"
      PurchaseEmailModal.HttpSuccess in
  PurchaseEmailModal.requests blank_name = []
  /\ PurchaseEmailModal.requests spaced_address = []
  /\ PurchaseEmailModal.isSuccess (PurchaseEmailModal.emailState spaced_address) = false.
Proof.
  cbv zeta.
  destruct (purchase_inquiry_sent_iff sample_props
              (PurchaseEmailModal.mkFormData nbsp "ana@example.org" "") "2024-05-01"
              PurchaseEmailModal.HttpSuccess) as (Hname & _).
  destruct (purchase_inquiry_sent_iff sample_props
              (PurchaseEmailModal.mkFormData "Ana" ("ana@example.org" +:+ nbsp) "")
              "2024-05-01" PurchaseEmailModal.HttpSuccess)
    as (_ & _ & Hsuccess & _).
  split; [|split].
  - destruct (PurchaseEmailModal.requests _) as [|inquiry l]; [reflexivity|].
    exfalso. apply (proj1 (proj1 Hname ltac:(discriminate))). reflexivity.
  - reflexivity.
  - destruct (PurchaseEmailModal.isSuccess _); [|reflexivity].
    exfalso. apply (proj1 (proj1 Hsuccess eq_refl)). reflexivity.
Defined.

Lemma hex_digit_component (n : nat) : is_component_char (ContactForm.hex_digit n) = true.
Proof. do 16 (destruct n as [|n]; [done|]). done. Qed.

(** X30. The link of the contact form is escaped: after
    [mailto:...?subject=] come the encoded subject, [&body=] and the encoded
    body, and the two encoded texts hold only letters, digits, the marks
    [-_.!~*'()] and [%]; whatever the visitor types, no [&], [?], [=] or
    line break of theirs reaches the link, so no further header can be
    added to the message. *)
Theorem mailto_link_is_escaped (artworkTitle : string)
    (formData : ContactForm.FormData) :
  exists subject body,
    ContactForm.mailtoLink artworkTitle formData
    = "mailto:seleccionatural.xyz@gmail.com?subject=" +:+ subject
      +:+ "&body=" +:+ body
    /\ string_forall is_component_char subject = true
    /\ string_forall is_component_char body = true.
Proof.
  assert (forall s, string_forall is_component_char (ContactForm.encodeURIComponent s)
                    = true) as Henc.
  { induction s as [|c s IH]; [done|]. cbn [ContactForm.encodeURIComponent].
    destruct (ContactForm.is_unreserved c) eqn:E; cbn [string_forall].
    - unfold is_component_char at 1. by rewrite E, IH.
    - by rewrite !hex_digit_component, IH. }
  eexists _, _. split; [reflexivity|]. by rewrite !Henc.
Qed.

